(** * Block matrices of capytaine: a shallow embedding

    Source: [capytaine/matrices/block_matrices.py], class [BlockMatrix].

    Conventions of the embedding.
    - A numpy array is a shape (a list of extents), an element type and an
      index function of two indices.  A 2-dimensional array is read at
      [(i, j)], a 1-dimensional one along the row of index 0, and a
      0-dimensional one, which stands for a scalar, at [(0, 0)]; arrays of
      higher rank only have a shape.
    - Entries are exact integers ([Z]): the algebra of the class is checked
      in exact arithmetic, rounding is not modelled.  The element type is
      kept as a separate tag, as numpy does, with numpy's promotion and
      casting rules on the tags; the sum and the opposite of entries follow
      it (truth values for booleans, wrap-around for 64-bit integers).
    - The array of blocks built by [np.asarray(blocks)] is kept as the grid
      of its slots, a list of block-rows; [np_asarray] says which nested
      lists numpy accepts, and what it makes of the slots.
    - A [BlockMatrix] object is the record of its five attributes, each
      stored on its own, since the code updates them one by one.
    - A Python exception is the [Raise] outcome; [assert] raises
      [AssertionError].  Log messages are left out. *)

From Stdlib Require Import List ZArith Lia Bool Arith.
Import ListNotations.
Open Scope Z_scope.

Set Implicit Arguments.
Set Warnings "-register-all".

(** ** Outcomes of Python calls *)

Inductive exn : Type :=
| AssertionError
| IndexError
| ValueError
| TypeError
| AttributeError.

(** [Return]: a value is returned; [NotImplemented] and [ReturnNone] are the
    two Python singletons an operator method may hand back instead
    ([ReturnNone] is what a method that falls off its end returns). *)
Inductive outcome (A : Type) : Type :=
| Return (a : A)
| NotImplemented
| ReturnNone
| Raise (e : exn).

Arguments NotImplemented {A}.
Arguments ReturnNone {A}.
Arguments Raise {A} e.

Definition bind {A B : Type} (m : outcome A) (f : A -> outcome B) : outcome B :=
  match m with
  | Return a => f a
  | NotImplemented => NotImplemented
  | ReturnNone => ReturnNone
  | Raise e => Raise e
  end.

Notation "x <- m ;; k" := (bind m (fun x => k))
  (at level 61, m at next level, right associativity).

Definition assert (b : bool) : outcome unit :=
  if b then Return tt else Raise AssertionError.

Section Traversals.
Variables (A B P S : Type).

(** A list comprehension whose body may raise. *)
Variable f : A -> outcome B.

Fixpoint mapM (l : list A) : outcome (list B) :=
  match l with
  | [] => Return []
  | a :: l' => b <- f a ;; bs <- mapM l' ;; Return (b :: bs)
  end.

(** [for x, p in zip(flat(grid), ps): s = step x p s], where [flat] walks
    the grid line by line; the walk stops when [ps] runs out. *)
Variable step : A -> P -> S -> outcome S.

Fixpoint zip_fold_line (l : list A) (ps : list P) (s : S) : outcome (list P * S) :=
  match l, ps with
  | [], _ => Return (ps, s)
  | _ :: _, [] => Return ([], s)
  | x :: l', p :: ps' => s' <- step x p s ;; zip_fold_line l' ps' s'
  end.

Fixpoint zip_fold_grid (g : list (list A)) (ps : list P) (s : S) : outcome S :=
  match g with
  | [] => Return s
  | l :: g' => r <- zip_fold_line l ps s ;; zip_fold_grid g' (fst r) (snd r)
  end.
End Traversals.

(** The truth value of a Python list: a list is true when it holds
    something. *)
Definition list_truth {A : Type} (l : list A) : bool :=
  match l with
  | [] => false
  | _ :: _ => true
  end.

(** ** Element types *)

Inductive dtype : Type := bool_ | int64 | float32 | float64 | complex128.

Definition dtype_eqb (a b : dtype) : bool :=
  match a, b with
  | bool_, bool_ | int64, int64 | float32, float32 | float64, float64
  | complex128, complex128 => true
  | _, _ => false
  end.

(** [np.result_type]: numeric promotion. *)
Definition result_type (a b : dtype) : dtype :=
  match a, b with
  | complex128, _ | _, complex128 => complex128
  | float64, _ | _, float64 => float64
  | float32, int64 | int64, float32 => float64
  | float32, _ | _, float32 => float32
  | int64, _ | _, int64 => int64
  | bool_, bool_ => bool_
  end.

(** The kind of an element type: boolean, integer, real, complex. *)
Definition kind (d : dtype) : nat :=
  match d with
  | bool_ => 0
  | int64 => 1
  | float32 | float64 => 2
  | complex128 => 3
  end%nat.

(** [np.can_cast(from, to, casting='same_kind')], the rule of in-place
    arithmetic ([+=]): a cast never goes down to a lower kind. *)
Definition can_cast_same_kind (from to : dtype) : bool :=
  (kind from <=? kind to)%nat.

(** ** Dense arrays *)

Record ndarray : Type := mk_ndarray {
  nd_shape : list nat;
  nd_dtype : dtype;
  nd_at : nat -> nat -> Z
}.

Definition nd_ndim (a : ndarray) : nat := length (nd_shape a).

(** [t[k]] on a tuple. *)
Definition tuple_get (t : list nat) (k : nat) : outcome nat :=
  match nth_error t k with
  | Some n => Return n
  | None => Raise IndexError
  end.

(** [a.T] on a 2-dimensional array (numpy reverses the axes). *)
Definition nd_T (a : ndarray) : ndarray :=
  mk_ndarray (rev (nd_shape a)) (nd_dtype a) (fun i j => nd_at a j i).

(** The entries of a 2-dimensional array, row by row. *)
Definition nd_rows (a : ndarray) : list (list Z) :=
  map (fun i => map (fun j => nd_at a i j) (seq 0 (nth 1 (nd_shape a) 0%nat)))
      (seq 0 (nth 0 (nd_shape a) 0%nat)).

(** An array from its rows. *)
Definition nd_of_rows (d : dtype) (h w : nat) (rows : list (list Z)) : ndarray :=
  mk_ndarray [h; w] d (fun i j => nth j (nth i rows []) 0).

(** Python's [False], a 0-dimensional boolean once it sits in an array. *)
Definition py_False : ndarray := mk_ndarray [] bool_ (fun _ _ => 0).

(** [s == t] on two tuples of extents. *)
Fixpoint list_nat_eqb (l l' : list nat) : bool :=
  match l, l' with
  | [], [] => true
  | x :: r, y :: r' => Nat.eqb x y && list_nat_eqb r r'
  | _, _ => false
  end.

(** ** The tree *)

(** A slot of the grid is a dense array or a [BlockMatrix] object.  The
    object keeps five attributes, each stored on its own: [_stored_blocks],
    [_stored_nb_blocks], [_stored_block_shapes], [shape] and [dtype]. *)
Inductive block : Type :=
| Leaf (a : ndarray)
| Node (stored_blocks : list (list block))
       (stored_nb_blocks : nat * nat)
       (stored_block_shapes : list nat * list nat)
       (shape : nat * nat)
       (dtype_ : dtype).

Record BlockMatrix : Type := mk_BlockMatrix {
  _stored_blocks : list (list block);
  _stored_nb_blocks : nat * nat;
  _stored_block_shapes : list nat * list nat;
  shape : nat * nat;
  dtype_of : dtype
}.

Definition as_block (m : BlockMatrix) : block :=
  Node (_stored_blocks m) (_stored_nb_blocks m) (_stored_block_shapes m)
       (shape m) (dtype_of m).

Definition all_blocks (m : BlockMatrix) : list (list block) := _stored_blocks m.
Definition block_shapes (m : BlockMatrix) : list nat * list nat := _stored_block_shapes m.
Definition nb_blocks (m : BlockMatrix) : nat * nat := _stored_nb_blocks m.

(** Attributes read on a slot. *)
Definition block_ndim (b : block) : nat :=
  match b with
  | Leaf a => nd_ndim a
  | Node _ _ _ _ _ => 2%nat
  end.

Definition block_shape (b : block) : list nat :=
  match b with
  | Leaf a => nd_shape a
  | Node _ _ _ s _ => [fst s; snd s]
  end.

Definition block_dtype (b : block) : dtype :=
  match b with
  | Leaf a => nd_dtype a
  | Node _ _ _ _ d => d
  end.

(** [grid[0][0]]. *)
Definition grid_first (g : list (list block)) : outcome block :=
  match g with
  | (b :: _) :: _ => Return b
  | _ => Raise IndexError
  end.

(** [np.moveaxis(grid, 1, 0)]: the block-columns of a rectangular grid. *)
Definition moveaxis_1_0 (g : list (list block)) : list (list block) :=
  map (fun j => flat_map (fun line => match nth_error line j with
                                      | Some b => [b]
                                      | None => []
                                      end) g)
      (seq 0 (length (hd [] g))).

Definition sum_nat (l : list nat) : nat := fold_right Nat.add 0%nat l.

(** ** The array of slots *)

(** What the constructor is handed: a nested list of slots, or an array of
    slots that numpy has built before. *)
Inductive array_like : Type :=
| nested_list (rows : list (list block))
| stored_array (slots : list (list block)).

(** [isinstance(b, np.ndarray)]. *)
Definition is_array (b : block) : bool :=
  match b with
  | Leaf _ => true
  | Node _ _ _ _ _ => false
  end.

(** The shape numpy finds in a slot of a nested list.  A tree has neither
    a length nor the array interface: it is a scalar, an object. *)
Definition seen_shape (b : block) : list nat :=
  match b with
  | Leaf a => nd_shape a
  | Node _ _ _ _ _ => []
  end.

(** The leading extents two shapes share. *)
Fixpoint common_prefix (s t : list nat) : list nat :=
  match s, t with
  | x :: s', y :: t' => if Nat.eqb x y then x :: common_prefix s' t' else []
  | _, _ => []
  end.

(** The rows of the nested list have one length. *)
Definition same_lengths (rows : list (list block)) : bool :=
  match rows with
  | [] => true
  | r0 :: rest => forallb (fun r => Nat.eqb (length r) (length r0)) rest
  end.

(** The element type that holds those of all the slots. *)
Definition promoted (d0 : dtype) (others : list block) : dtype :=
  fold_left (fun d b => result_type d (block_dtype b)) others d0.

(** A slot of a numeric array: the array that was given, in the element
    type of the whole. *)
Definition cast_slot (d : dtype) (b : block) : block :=
  match b with
  | Leaf a => Leaf (mk_ndarray (nd_shape a) d (nd_at a))
  | Node _ _ _ _ _ => b
  end.

(** [np.asarray(blocks)], on the numpy this code is written for (before
    1.24: it still has [np.float] and [np.complex], and nested sequences of
    unequal shapes give arrays of objects).  An array is returned as it is.
    A nested list is walked depth first, and the leading extents that all
    its slots share become axes of the result.
    - Arrays of one shape throughout are merged into one numeric array of
      higher rank, of the promoted element type; its slots are the arrays
      that were given, cast to that type.
    - Slots that share no extent (arrays of different heights, or a tree
      among them) give the 2-dimensional array of objects that holds the
      slots themselves.
    - Slots that share their first extents only (arrays of one height and
      different widths) give an array of objects of higher rank, into which
      numpy fails to copy the arrays it has cut through: [ValueError].
    Two corners are closed by a refusal as well.  Rows of different lengths
    give a 1-dimensional array of lists on this numpy, on which no method
    of the class works (later versions refuse them); and numpy does copy an
    array it has cut through when the extents it drops are all 1 (an array
    of shape (1, 1) beside one of shape (1,)): the slots of the result are
    then arrays of Python objects, which no grid of this embedding holds. *)
Definition np_asarray (blocks : array_like) : outcome (list (list block)) :=
  match blocks with
  | stored_array slots => Return slots
  | nested_list rows =>
      if negb (same_lengths rows) then Raise ValueError
      else
        match concat rows with
        | [] => Return rows
        | b0 :: others =>
            if forallb (fun b => list_nat_eqb (seen_shape b) (seen_shape b0)) others
            then
              if forallb is_array (b0 :: others)
              then Return (map (map (cast_slot (promoted (block_dtype b0) others))) rows)
              else Return rows
            else
              match fold_left common_prefix (map seen_shape others) (seen_shape b0) with
              | [] => Return rows
              | _ :: _ => Raise ValueError
              end
        end
  end.

(** ** Construction and validation *)

Definition _compute_shape (bs : list nat * list nat) : nat * nat :=
  (sum_nat (fst bs), sum_nat (snd bs)).

(** One pass of [_check_dimensions_of_blocks] over a line (or a column):
    every slot after the first has the extent of the first along [axis]. *)
Fixpoint rest_same_extent (axis e0 : nat) (rest : list block) : outcome bool :=
  match rest with
  | [] => Return true
  | b :: rest' =>
      e <- tuple_get (block_shape b) axis ;;
      if Nat.eqb e e0 then rest_same_extent axis e0 rest' else Return false
  end.

Definition line_same_extent (axis : nat) (line : list block) : outcome bool :=
  match line with
  | [] => Raise IndexError
  | b0 :: rest =>
      e0 <- tuple_get (block_shape b0) axis ;;
      rest_same_extent axis e0 rest
  end.

Fixpoint lines_same_extent (axis : nat) (ls : list (list block)) : outcome bool :=
  match ls with
  | [] => Return true
  | l :: ls' =>
      ok <- line_same_extent axis l ;;
      if ok then lines_same_extent axis ls' else Return false
  end.

Definition _check_dimensions_of_blocks (g : list (list block)) : outcome bool :=
  rows_ok <- lines_same_extent 0 g ;;
  if rows_ok then lines_same_extent 1 (moveaxis_1_0 g) else Return false.

Definition _check_dtype (g : list (list block)) (d : dtype) : bool :=
  forallb (forallb (fun b => dtype_eqb (block_dtype b) d)) g.

(** [BlockMatrix.__init__(blocks, _stored_block_shapes, check)]. *)
Definition BlockMatrix_init (blocks : array_like)
    (stored_shapes : option (list nat * list nat)) (check : bool)
  : outcome BlockMatrix :=
  stored <- np_asarray blocks ;;
  b00 <- grid_first stored ;;
  _ <- assert (Nat.eqb (block_ndim b00) 2) ;;
  let nb := (length stored, length (hd [] stored)) in
  bs <- match stored_shapes with
        | Some s => Return s
        | None =>
            hs <- mapM (fun line => b <- grid_first [line] ;;
                                    tuple_get (block_shape b) 0) stored ;;
            ws <- mapM (fun b => tuple_get (block_shape b) 1) (hd [] stored) ;;
            Return (hs, ws)
        end ;;
  let m := mk_BlockMatrix stored nb bs (_compute_shape bs) (block_dtype b00) in
  if check then
    dims <- _check_dimensions_of_blocks stored ;;
    _ <- assert dims ;;
    _ <- assert (_check_dtype stored (block_dtype b00)) ;;
    Return m
  else Return m.

(** ** Elementwise maps and the transpose *)

(** [_apply_unary_op(op)]: the new tree is built with the partition of
    [self] and without checks. *)
Definition _apply_unary_op (op : block -> outcome block) (self : BlockMatrix)
  : outcome BlockMatrix :=
  result <- mapM (mapM op) (_stored_blocks self) ;;
  BlockMatrix_init (nested_list result) (Some (_stored_block_shapes self)) false.

(** The shape and element type of the slots of a numeric array of rank 4:
    the slots are arrays of one 2-dimensional shape. *)
Definition one_shape (stored : list (list block)) : option (nat * nat * dtype) :=
  match concat stored with
  | Leaf a :: others =>
      match nd_shape a with
      | [h; w] =>
          if forallb (fun b => is_array b && list_nat_eqb (seen_shape b) [h; w]) others
          then Some (h, w, nd_dtype a)
          else None
      | _ => None
      end
  | _ => None
  end.

(** The slot at [(i, j)] of a numeric array. *)
Definition slot_at (stored : list (list block)) (i j : nat) : ndarray :=
  match nth_error stored i with
  | Some line =>
      match nth_error line j with
      | Some (Leaf a) => a
      | _ => py_False
      end
  | None => py_False
  end.

(** [stored.T] on the array of slots that the constructor has just built
    from a nested list.  numpy reverses all the axes of an array.  An array
    of objects has two, and its block-columns become block-rows.  A numeric
    array (arrays of one shape were merged) has four, (nr, nc, h, w): its
    transpose has extents (w, h, nc, nr) and holds at [(i, j, k, l)] what
    the array held at [(l, k, j, i)]; read as a grid it has [w] rows of [h]
    slots, each an nc x nr array. *)
Definition ndarray_T (stored : list (list block)) : list (list block) :=
  match one_shape stored with
  | Some (h, w, d) =>
      let nr := length stored in
      let nc := length (hd [] stored) in
      map (fun i =>
             map (fun j =>
                    Leaf (mk_ndarray [nc; nr] d
                            (fun k l => nd_at (slot_at stored l k) j i)))
                 (seq 0 h))
          (seq 0 w)
  | None => moveaxis_1_0 stored
  end.

(** What the property [T] does once the sub-blocks are transposed: the array
    of slots is replaced by its transpose, the other attributes are kept. *)
Definition swap_stored_blocks (m : BlockMatrix) : BlockMatrix :=
  mk_BlockMatrix (ndarray_T (_stored_blocks m)) (_stored_nb_blocks m)
                 (_stored_block_shapes m) (shape m) (dtype_of m).

(** [x.T] on a slot: numpy's transpose on a leaf, [BlockMatrix.T] on a
    nested tree. *)
Fixpoint block_T (b : block) : outcome block :=
  match b with
  | Leaf a => Return (Leaf (nd_T a))
  | Node g nb bs s d =>
      transposed_blocks <- _apply_unary_op block_T (mk_BlockMatrix g nb bs s d) ;;
      Return (as_block (swap_stored_blocks transposed_blocks))
  end.

(** [BlockMatrix.T]. *)
Definition T (self : BlockMatrix) : outcome BlockMatrix :=
  transposed_blocks <- _apply_unary_op block_T self ;;
  Return (swap_stored_blocks transposed_blocks).

(** ** Position enumerator and assembler *)

(** [itertools.accumulate([0] + l[:-1])]: the prefix sums of [l] that start
    a segment. *)
Fixpoint starts_from (acc : nat) (l : list nat) : list nat :=
  match l with
  | [] => [acc]
  | [_] => [acc]
  | x :: l' => acc :: starts_from (acc + x) l'
  end.

(** [_stored_block_positions(global_frame)]: one list of anchors per stored
    slot, in the order of [itertools.product]. *)
Definition _stored_block_positions (bs : list nat * list nat) (global_frame : nat * nat)
  : list (list (nat * nat)) :=
  flat_map (fun x => map (fun y => [((fst global_frame + x)%nat,
                                     (snd global_frame + y)%nat)])
                         (starts_from 0 (snd bs)))
           (starts_from 0 (fst bs)).

(** The slice [lo:hi] of an axis of extent [n], as numpy clips it. *)
Definition clip (n lo hi : nat) : nat * nat :=
  (Nat.min lo n, Nat.max (Nat.min lo n) (Nat.min hi n)).

Definition broadcastable (src tgt : nat) : bool :=
  Nat.eqb src tgt || Nat.eqb src 1.

(** [full[r0:r0+h, c0:c0+w] = src] for 2-dimensional [full] and [src] of
    one element type, as [full_matrix] has them: the array it allocates has
    the element type of the tree.  (Between arrays of different element
    types numpy casts the entries it copies; that cast is not modelled.) *)
Definition assign_frame (full : ndarray) (r0 c0 h w : nat) (src : ndarray)
  : outcome ndarray :=
  H <- tuple_get (nd_shape full) 0 ;;
  W <- tuple_get (nd_shape full) 1 ;;
  sh <- tuple_get (nd_shape src) 0 ;;
  sw <- tuple_get (nd_shape src) 1 ;;
  let '(ra, rb) := clip H r0 (r0 + h) in
  let '(ca, cb) := clip W c0 (c0 + w) in
  if broadcastable sh (rb - ra) && broadcastable sw (cb - ca) then
    Return (mk_ndarray (nd_shape full) (nd_dtype full)
              (fun i j =>
                 if (ra <=? i)%nat && (i <? rb)%nat && (ca <=? j)%nat && (j <? cb)%nat
                 then nd_at src (if Nat.eqb sh 1 then 0 else i - ra)%nat
                                (if Nat.eqb sw 1 then 0 else j - ca)%nat
                 else nd_at full i j))
  else Raise ValueError.

(** [full[r0:r0+h, c0:c0+w]], read out as an array of its own. *)
Definition read_frame (full : ndarray) (r0 c0 h w : nat) : outcome ndarray :=
  H <- tuple_get (nd_shape full) 0 ;;
  W <- tuple_get (nd_shape full) 1 ;;
  let '(ra, rb) := clip H r0 (r0 + h) in
  let '(ca, cb) := clip W c0 (c0 + w) in
  Return (mk_ndarray [(rb - ra)%nat; (cb - ca)%nat] (nd_dtype full)
            (fun i j => nd_at full (ra + i)%nat (ca + j)%nat)).

(** The inner loops of [_put_in_full_matrix] that copy one array to each of
    a list of anchors. *)
Fixpoint copy_to_positions (src : ndarray) (h w : nat) (ps : list (nat * nat))
    (full : ndarray) : outcome ndarray :=
  match ps with
  | [] => Return full
  | p :: ps' =>
      full' <- assign_frame full (fst p) (snd p) h w src ;;
      copy_to_positions src h w ps' full'
  end.

Fixpoint copy_first_appearance (first : nat * nat) (h w : nat) (ps : list (nat * nat))
    (full : ndarray) : outcome ndarray :=
  match ps with
  | [] => Return full
  | p :: ps' =>
      src <- read_frame full (fst first) (snd first) h w ;;
      full' <- assign_frame full (fst p) (snd p) h w src ;;
      copy_first_appearance first h w ps' full'
  end.

(** [block._put_in_full_matrix(full_matrix, where)] for a nested tree, and
    the body of the loop of its caller for any slot. *)
Fixpoint put_slot (b : block) (positions_of_the_block : list (nat * nat))
    (full_matrix : ndarray) {struct b} : outcome ndarray :=
  match b with
  | Leaf a =>
      match positions_of_the_block with
      | [] => Return full_matrix
      | _ :: _ =>
          h <- tuple_get (nd_shape a) 0 ;;
          w <- tuple_get (nd_shape a) 1 ;;
          copy_to_positions a h w positions_of_the_block full_matrix
      end
  | Node g _ bs s _ =>
      match positions_of_the_block with
      | [] => Raise IndexError
      | first :: others =>
          full' <- zip_fold_grid put_slot g (_stored_block_positions bs first) full_matrix ;;
          copy_first_appearance first (fst s) (snd s) others full'
      end
  end.

Definition _put_in_full_matrix (self : BlockMatrix) (full_matrix : ndarray)
    (where_ : nat * nat) : outcome ndarray :=
  zip_fold_grid put_slot (_stored_blocks self)
                (_stored_block_positions (_stored_block_shapes self) where_)
                full_matrix.

(** [full_matrix()].  [np.empty] hands out an array whose entries are
    whatever the memory held: they are the parameter [junk]. *)
Definition full_matrix (junk : nat -> nat -> Z) (self : BlockMatrix) : outcome ndarray :=
  _put_in_full_matrix self
    (mk_ndarray [fst (shape self); snd (shape self)] (dtype_of self) junk) (0%nat, 0%nat).

(** ** Matrix-vector product *)

Record vector : Type := mk_vector {
  vec_len : nat;
  vec_dtype : dtype;
  vec_at : nat -> Z
}.

Definition vec_list (v : vector) : list Z := map (vec_at v) (seq 0 (vec_len v)).

Definition vec_of_list (d : dtype) (l : list Z) : vector :=
  mk_vector (length l) d (fun i => nth i l 0).

(** [sum(f(k) for k in range(n))]. *)
Fixpoint big_sum (n : nat) (f : nat -> Z) : Z :=
  match n with
  | O => 0
  | S n' => big_sum n' f + f n'
  end.

(** [np.zeros(n, dtype)]. *)
Definition vec_zeros (n : nat) (d : dtype) : vector := mk_vector n d (fun _ => 0).

(** [v[lo:hi]]. *)
Definition vec_slice (v : vector) (lo hi : nat) : vector :=
  let '(a, b) := clip (vec_len v) lo hi in
  mk_vector (b - a) (vec_dtype v) (fun i => vec_at v (a + i)%nat).

(** [a @ v] for a dense 2-dimensional [a].  (A scalar operand is refused by
    numpy; the data of arrays of other ranks is outside the embedding.) *)
Definition nd_matvec (a : ndarray) (v : vector) : outcome vector :=
  match nd_shape a with
  | [h; w] =>
      if Nat.eqb w (vec_len v)
      then Return (mk_vector h (result_type (nd_dtype a) (vec_dtype v))
                     (fun i => big_sum w (fun k => nd_at a i k * vec_at v k)))
      else Raise ValueError
  | _ => Raise ValueError
  end.

(** [result[lo:hi] += x]: numpy computes in the promoted type and casts back
    under the rule [same_kind], refusing with a [TypeError] otherwise. *)
Definition iadd_slice (result : vector) (lo hi : nat) (x : vector) : outcome vector :=
  if can_cast_same_kind (result_type (vec_dtype result) (vec_dtype x)) (vec_dtype result)
  then
    let '(a, b) := clip (vec_len result) lo hi in
    if broadcastable (vec_len x) (b - a)
    then Return (mk_vector (vec_len result) (vec_dtype result)
                   (fun i => if (a <=? i)%nat && (i <? b)%nat
                             then vec_at result i
                                  + vec_at x (if Nat.eqb (vec_len x) 1 then 0 else i - a)%nat
                             else vec_at result i))
    else Raise ValueError
  else Raise TypeError.

Section ZipAccumulate.
Variables (A S : Type).
(** [for x, pos, ext in zip(l, accumulate(chain([0], exts)), exts)]. *)
Variable step : A -> nat -> nat -> S -> outcome S.

Fixpoint zip_fold_acc (l : list A) (pos : nat) (exts : list nat) (s : S) : outcome S :=
  match l, exts with
  | x :: l', e :: exts' => s' <- step x pos e s ;; zip_fold_acc l' (pos + e) exts' s'
  | _, _ => Return s
  end.
End ZipAccumulate.

(** [block @ other] for a 1-dimensional [other]: numpy's product on a leaf,
    [BlockMatrix.matvec] (through [__matmul__]) on a nested tree. *)
Fixpoint block_matvec (b : block) (other : vector) {struct b} : outcome vector :=
  match b with
  | Leaf a => nd_matvec a other
  | Node g _ bs s _ =>
      let line_heights := fst bs in
      let col_widths := snd bs in
      zip_fold_acc
        (fun line line_position line_height result =>
           zip_fold_acc
             (fun block col_position col_width result =>
                x <- block_matvec block
                       (vec_slice other col_position (col_position + col_width)) ;;
                iadd_slice result line_position (line_position + line_height) x)
             line 0%nat col_widths result)
        g 0%nat line_heights (vec_zeros (fst s) (vec_dtype other))
  end.

(** [BlockMatrix.matvec]. *)
Definition matvec (self : BlockMatrix) (other : vector) : outcome vector :=
  block_matvec (as_block self) other.

(** [full @ v] for a dense matrix: the conventional product. *)
Definition dense_matvec (full : ndarray) (v : vector) : list Z :=
  map (fun i => big_sum (nth 1 (nd_shape full) 0%nat)
                        (fun k => nd_at full i k * vec_at v k))
      (seq 0 (nth 0 (nd_shape full) 0%nat)).

(** ** Elementwise binary operations and comparisons *)

Section ZipComprehension.
Variables (A B C : Type).
(** [[f(x, y) for x, y in zip(l, l')]]. *)
Variable f : A -> B -> outcome C.

Fixpoint zipM (l : list A) (l' : list B) : outcome (list C) :=
  match l, l' with
  | x :: r, y :: r' => c <- f x y ;; cs <- zipM r r' ;; Return (c :: cs)
  | _, _ => Return []
  end.
End ZipComprehension.

Definition nb_eqb (a b : nat * nat) : bool :=
  Nat.eqb (fst a) (fst b) && Nat.eqb (snd a) (snd b).

(** [_apply_binary_op(op, other)].  [other] is any Python object the
    embedding knows: an array or a tree. *)
Definition _apply_binary_op (op : block -> block -> outcome block)
    (self : BlockMatrix) (other : block) : outcome BlockMatrix :=
  match other with
  | Node og onb _ _ _ =>
      if nb_eqb (nb_blocks self) onb then
        result <- zipM (zipM op) (_stored_blocks self) og ;;
        BlockMatrix_init (nested_list result) (Some (_stored_block_shapes self)) false
      else NotImplemented
  | Leaf _ => NotImplemented
  end.

(** Arrays of rank 0, 1 and 2 seen as 2-dimensional, the way numpy
    broadcasts them: a scalar is 1 x 1, a vector is a row. *)
Definition view2 (s : list nat) : option (nat * nat) :=
  match s with
  | [] => Some (1, 1)%nat
  | [n] => Some (1, n)%nat
  | [h; w] => Some (h, w)
  | _ => None
  end.

Definition compatible (m n : nat) : bool :=
  Nat.eqb m n || Nat.eqb m 1 || Nat.eqb n 1.

Definition broadcast_extent (m n : nat) : nat := if Nat.eqb m 1 then n else m.

Definition broadcast_index (m i : nat) : nat := if Nat.eqb m 1 then 0%nat else i.

(** The last [rank] extents of [[h; w]]. *)
Definition shape_of_rank (rank h w : nat) : list nat :=
  match rank with
  | O => []
  | 1%nat => [w]
  | _ => [h; w]
  end.

(** Python's integer [z]. *)
Definition py_int (z : Z) : ndarray := mk_ndarray [] int64 (fun _ _ => z).

(** An elementwise binary ufunc on two arrays of rank at most 2;
    [None] when their shapes do not broadcast. *)
Definition nd_map2 (d : dtype) (f : Z -> Z -> Z) (a c : ndarray) : option ndarray :=
  match view2 (nd_shape a), view2 (nd_shape c) with
  | Some (h1, w1), Some (h2, w2) =>
      if compatible h1 h2 && compatible w1 w2
      then Some (mk_ndarray
                   (shape_of_rank (Nat.max (nd_ndim a) (nd_ndim c))
                                  (broadcast_extent h1 h2) (broadcast_extent w1 w2))
                   d
                   (fun i j => f (nd_at a (broadcast_index h1 i) (broadcast_index w1 j))
                                 (nd_at c (broadcast_index h2 i) (broadcast_index w2 j))))
      else None
  | _, _ => None
  end.

(** [a == c] on arrays.  Where the shapes do not broadcast, the numpy that
    this code runs on (it still has [np.float] and [np.complex]) gives up the
    elementwise comparison and Python answers [False]. *)
Definition nd_eq (a c : ndarray) : ndarray :=
  match nd_map2 bool_ (fun x y => if Z.eqb x y then 1 else 0) a c with
  | Some r => r
  | None => py_False
  end.

(** [operator.eq(b, ob)], the full protocol of [==]: the method, then the
    reflected method, then the comparison of identities.  An array compared
    with a tree compares each of its entries with the tree, which is never
    equal to a number. *)
Fixpoint block_eq (b ob : block) {struct b} : outcome block :=
  match b with
  | Leaf a =>
      match ob with
      | Leaf c => Return (Leaf (nd_eq a c))
      | Node _ _ _ _ _ => Return (Leaf (mk_ndarray (nd_shape a) bool_ (fun _ _ => 0)))
      end
  | Node g nb bs s d =>
      match ob with
      | Leaf c => Return (Leaf (mk_ndarray (nd_shape c) bool_ (fun _ _ => 0)))
      | Node _ _ _ _ _ =>
          match _apply_binary_op block_eq (mk_BlockMatrix g nb bs s d) ob with
          | Return r => Return (as_block r)
          | NotImplemented => Return (Leaf py_False)
          | ReturnNone => ReturnNone
          | Raise e => Raise e
          end
      end
  end.

(** [BlockMatrix.__eq__]. *)
Definition __eq__ (self : BlockMatrix) (other : block) : outcome BlockMatrix :=
  _apply_binary_op block_eq self other.

(** [~a] on an array: logical not on booleans, bitwise not on integers,
    refused on the other element types. *)
Definition nd_invert (a : ndarray) : outcome ndarray :=
  match nd_dtype a with
  | bool_ => Return (mk_ndarray (nd_shape a) bool_ (fun i j => 1 - nd_at a i j))
  | int64 => Return (mk_ndarray (nd_shape a) int64 (fun i j => - nd_at a i j - 1))
  | _ => Raise TypeError
  end.

(** [operator.invert(b)]. *)
Fixpoint block_invert (b : block) : outcome block :=
  match b with
  | Leaf a => r <- nd_invert a ;; Return (Leaf r)
  | Node g nb bs s d =>
      r <- _apply_unary_op block_invert (mk_BlockMatrix g nb bs s d) ;;
      Return (as_block r)
  end.

(** [BlockMatrix.__invert__]. *)
Definition __invert__ (self : BlockMatrix) : outcome BlockMatrix :=
  _apply_unary_op block_invert self.

(** [BlockMatrix.__ne__]: [~(self == other)], with the full protocol of
    [==].  Against a tree of another grid [==] ends on Python's [False], and
    [~False] is the integer [-1]; against an array, numpy's reflected
    comparison answers an array of [False]. *)
Definition __ne__ (self : BlockMatrix) (other : block) : outcome block :=
  match __eq__ self other with
  | Return r => r' <- __invert__ r ;; Return (as_block r')
  | NotImplemented =>
      match other with
      | Leaf c => r <- nd_invert (mk_ndarray (nd_shape c) bool_ (fun _ _ => 0)) ;;
                  Return (Leaf r)
      | Node _ _ _ _ _ => Return (Leaf (py_int (-1)))
      end
  | ReturnNone => ReturnNone
  | Raise e => Raise e
  end.

(** ** Matrix-matrix product *)

(** [a @ c] for dense operands: matrix times matrix, or matrix times vector.
    (numpy refuses scalars; operands of other ranks are outside the
    embedding and refused as well.) *)
Definition nd_matmul (a c : ndarray) : outcome ndarray :=
  match nd_shape a, nd_shape c with
  | [h; k], [k'; w] =>
      if Nat.eqb k k'
      then Return (mk_ndarray [h; w] (result_type (nd_dtype a) (nd_dtype c))
                     (fun i j => big_sum k (fun l => nd_at a i l * nd_at c l j)))
      else Raise ValueError
  | [h; k], [k'] =>
      if Nat.eqb k k'
      then Return (mk_ndarray [h] (result_type (nd_dtype a) (nd_dtype c))
                     (fun _ i => big_sum k (fun l => nd_at a i l * nd_at c 0%nat l)))
      else Raise ValueError
  | _, _ => Raise ValueError
  end.

(** A 1-dimensional array as a [vector] and back; its entries sit in the
    row of index 0. *)
Definition nd_as_vector (c : ndarray) : vector :=
  mk_vector (nth 0 (nd_shape c) 0%nat) (nd_dtype c) (fun i => nd_at c 0%nat i).

Definition vector_as_nd (v : vector) : ndarray :=
  mk_ndarray [vec_len v] (vec_dtype v) (fun _ i => vec_at v i).

(** A 64-bit integer: the representative of [z] between -2^63 and
    2^63 - 1. *)
Definition wrap_int64 (z : Z) : Z := (z + 2 ^ 63) mod 2 ^ 64 - 2 ^ 63.

(** [x + y] in the element type [d]: booleans are added as truth values,
    64-bit integers wrap around; rounding is not modelled. *)
Definition add_entry (d : dtype) (x y : Z) : Z :=
  match d with
  | bool_ => if Z.eqb x 0 && Z.eqb y 0 then 0 else 1
  | int64 => wrap_int64 (x + y)
  | _ => x + y
  end.

(** [operator.add(b, ob)].  Two trees go through [BlockMatrix.__add__];
    operands of one type get no reflected attempt, so its [NotImplemented]
    ends in a [TypeError].  An array (or a number) and a tree end in a
    [TypeError] too (an array without entries aside). *)
Fixpoint block_add (b ob : block) {struct b} : outcome block :=
  match b with
  | Leaf a =>
      match ob with
      | Leaf c =>
          match nd_map2 (result_type (nd_dtype a) (nd_dtype c))
                        (add_entry (result_type (nd_dtype a) (nd_dtype c))) a c with
          | Some r => Return (Leaf r)
          | None => Raise ValueError
          end
      | Node _ _ _ _ _ => Raise TypeError
      end
  | Node g nb bs s d =>
      match ob with
      | Leaf _ => Raise TypeError
      | Node _ _ _ _ _ =>
          match _apply_binary_op block_add (mk_BlockMatrix g nb bs s d) ob with
          | Return r => Return (as_block r)
          | NotImplemented => Raise TypeError
          | ReturnNone => ReturnNone
          | Raise e => Raise e
          end
      end
  end.

(** [BlockMatrix.__add__] and [BlockMatrix.__sub__] share one shape. *)
Definition __add__ (self : BlockMatrix) (other : block) : outcome BlockMatrix :=
  _apply_binary_op block_add self other.

(** [0 + p] for Python's integer 0, the first step of [sum]: an array keeps
    its entries (booleans become integers), a tree refuses the integer from
    either side. *)
Definition zero_plus (p : block) : outcome block :=
  match p with
  | Leaf c =>
      Return (Leaf (mk_ndarray (nd_shape c)
                      (if (kind (nd_dtype c) <? 1)%nat then int64 else nd_dtype c)
                      (nd_at c)))
  | Node _ _ _ _ _ => Raise TypeError
  end.

Section SumOfProducts.
Variables (A B : Type).
(** [sum(x @ y for x, y in zip(l, l'))].  Python's [sum] starts from the
    integer 0 ([acc] is [None] until a first term is added); adding [None]
    to anything is a [TypeError]. *)
Variable matmul : A -> B -> outcome block.

Fixpoint sum_from (acc : option block) (l : list A) (l' : list B) : outcome block :=
  match l, l' with
  | x :: r, y :: r' =>
      match matmul x y with
      | Return p =>
          acc' <- match acc with
                  | None => zero_plus p
                  | Some a => block_add a p
                  end ;;
          sum_from (Some acc') r r'
      | NotImplemented | ReturnNone => Raise TypeError
      | Raise e => Raise e
      end
  | _, _ => Return match acc with
                   | None => Leaf (py_int 0)
                   | Some a => a
                   end
  end.
End SumOfProducts.

Section CutMatrix.
(** Modelled from the spec: [cut_matrix] of [capytaine.matrices.builders],
    which is not among the sources.  "The dense operand is first
    re-partitioned (cut) into a single-column-group block tree whose
    row-group partition matches this tree's column-group partition": one
    leaf per row group, each a slice of the dense operand, built without
    checks. *)
Variable full : ndarray.

Fixpoint cut_lines (pos : nat) (x_shapes : list nat) (width : nat) : list (list block) :=
  match x_shapes with
  | [] => []
  | di :: rest =>
      let '(ra, rb) := clip (nth 0 (nd_shape full) 0%nat) pos (pos + di) in
      let '(ca, cb) := clip (nth 1 (nd_shape full) 0%nat) 0 width in
      [Leaf (mk_ndarray [(rb - ra)%nat; (cb - ca)%nat] (nd_dtype full)
               (fun i j => nd_at full (ra + i)%nat (ca + j)%nat))]
      :: cut_lines (pos + di) rest width
  end.

Definition cut_matrix (x_shapes : list nat) (width : nat) : outcome BlockMatrix :=
  BlockMatrix_init (nested_list (cut_lines 0 x_shapes width)) None false.
End CutMatrix.

Section MatMat.
(** What [np.empty] leaves in the arrays that [full_matrix] fills. *)
Variable junk : nat -> nat -> Z.

(** The first branch of [matmat]: blocks times blocks. *)
Definition matmat_blocks (matmul : block -> block -> outcome block)
    (own_blocks other_all_blocks : list (list block)) : outcome BlockMatrix :=
  let other_blocks := moveaxis_1_0 other_all_blocks in
  new_matrix <- mapM (fun own_line =>
                        mapM (fun other_col =>
                                sum_from matmul None own_line other_col)
                             other_blocks)
                     own_blocks ;;
  BlockMatrix_init (nested_list new_matrix) None false.

(** [b @ ob], the operator: numpy's product on two arrays,
    [BlockMatrix.__matmul__] on a tree, which hands a 2-dimensional operand
    to [matmat] and a 1-dimensional one to [matvec].  An array times a
    tree is refused by numpy. *)
Fixpoint block_matmul (b ob : block) {struct b} : outcome block :=
  match b with
  | Leaf a =>
      match ob with
      | Leaf c => r <- nd_matmul a c ;; Return (Leaf r)
      | Node _ _ _ _ _ => Raise ValueError
      end
  | Node g nb bs s d =>
      match ob with
      | Node og _ obs _ _ =>
          if list_nat_eqb (snd bs) (fst obs)
          then r <- matmat_blocks block_matmul g og ;; Return (as_block r)
          else ReturnNone
      | Leaf c =>
          match nd_shape c with
          | [n] =>
              r <- block_matvec (Node g nb bs s d) (nd_as_vector c) ;;
              Return (Leaf (vector_as_nd r))
          | [n; w] =>
              if Nat.eqb (snd s) n then
                cut_other <- cut_matrix c (snd bs) w ;;
                (* self @ cut_other, then .full_matrix() *)
                if list_nat_eqb (snd bs) (fst (block_shapes cut_other))
                then r <- matmat_blocks block_matmul g (all_blocks cut_other) ;;
                     f <- full_matrix junk r ;;
                     Return (Leaf f)
                else Raise AttributeError
              else ReturnNone
          | _ => NotImplemented
          end
      end
  end.

(** [BlockMatrix.matmat].  Called directly on an array that is not
    2-dimensional, its second test reads [other.shape[0]], and on a match
    [other.shape[1]]: a scalar and a fitting vector end in an [IndexError];
    arrays of rank above 2 are outside the embedding. *)
Definition matmat (self : BlockMatrix) (other : block) : outcome block :=
  match other with
  | Leaf c =>
      match nd_shape c with
      | [] => Raise IndexError
      | [n] => if Nat.eqb (snd (shape self)) n then Raise IndexError else ReturnNone
      | [_; _] => block_matmul (as_block self) other
      | _ => ReturnNone
      end
  | Node _ _ _ _ _ => block_matmul (as_block self) other
  end.
End MatMat.

(** ** The checks of the batched spectral transform *)

(** The opening of [fft_of_list], called on a list of trees: reading the first
    tree, then the three [assert] statements.  Each asserts a list built by
    comprehension, and a list is true when it is not empty.  (The transform
    proper rests on [zeros_like] of the builders and on numpy's FFT.) *)
Definition fft_of_list_checks (block_matrices : list BlockMatrix) (check : bool)
  : outcome unit :=
  match block_matrices with
  | [] => Raise IndexError
  | m0 :: others =>
      let nb_blocks := _stored_nb_blocks m0 in
      if check then
        let shape0 := shape m0 in
        _ <- assert (list_truth
               (map (fun m => nb_eqb nb_blocks (_stored_nb_blocks m)) others)) ;;
        _ <- assert (list_truth (map (fun m => nb_eqb shape0 (shape m)) others)) ;;
        _ <- assert (list_truth (map (fun _ : BlockMatrix => true) others)) ;;
        Return tt
      else Return tt
  end.

(** ** Reading results *)

(** The tree behind a slot known to hold one. *)
Definition as_BlockMatrix (b : block) : outcome BlockMatrix :=
  match b with
  | Node g nb bs s d => Return (mk_BlockMatrix g nb bs s d)
  | Leaf _ => Raise AttributeError
  end.

(** Shape and rows of an array, for display. *)
Definition nd_view (a : ndarray) : list nat * list (list Z) := (nd_shape a, nd_rows a).

(** ** Grids of 2-dimensional slots *)

(** The typing of the data model: every slot is 2-dimensional, the grid is
    rectangular and holds at least one slot. *)
Definition slot_2d (b : block) : Prop := length (block_shape b) = 2%nat.

Definition grid_2d (g : list (list block)) : Prop :=
  Forall (Forall slot_2d) g.

Definition rectangular (g : list (list block)) : Prop :=
  g <> [] /\ length (hd [] g) <> 0%nat /\
  Forall (fun line => length line = length (hd [] g)) g.

Definition extent (axis : nat) (b : block) : nat := nth axis (block_shape b) 0%nat.



Definition uniformb (axis : nat) (line : list block) : bool :=
  match line with
  | [] => true
  | b0 :: rest => forallb (fun b => Nat.eqb (extent axis b) (extent axis b0)) rest
  end.


(** Two shapes start with the same extent. *)
Definition heads_eqb (s s0 : list nat) : bool :=
  match s, s0 with
  | x :: _, y :: _ => Nat.eqb x y
  | _, _ => false
  end.

(** Every slot is an array, and all have the height of the first: on such a
    grid [np.asarray] keeps the height as an axis of the array of slots. *)
Definition one_height (g : list (list block)) : bool :=
  match concat g with
  | [] => false
  | b0 :: others =>
      forallb (fun b => is_array b && Nat.eqb (extent 0 b) (extent 0 b0)) (b0 :: others)
  end.

(** ** Valid trees and what they denote *)

Section ListPredicates.
Variables (A B : Type).

Variable P : A -> Prop.

Fixpoint all (l : list A) : Prop :=
  match l with
  | [] => True
  | x :: r => P x /\ all r
  end.

Variable R : A -> B -> Prop.

Fixpoint all2 (l : list A) (l' : list B) : Prop :=
  match l, l' with
  | [], [] => True
  | x :: r, y :: r' => R x y /\ all2 r r'
  | _, _ => False
  end.
End ListPredicates.

(** The invariants of the data model, at every level of the tree: the grid
    follows the stored partition (so it is rectangular, every block-row has
    one height and every block-column one width), the partition is not
    empty, [nb_blocks] counts it, [shape] sums it, and every slot has the
    element type of the tree.  Leaves are 2-dimensional. *)
Fixpoint valid (b : block) : Prop :=
  match b with
  | Leaf a => length (nd_shape a) = 2%nat
  | Node g nb bs s d =>
      fst bs <> [] /\ snd bs <> [] /\
      nb = (length (fst bs), length (snd bs)) /\
      s = _compute_shape bs /\
      all2 (fun line h =>
              all2 (fun b' w => block_shape b' = [h; w] /\
                                block_dtype b' = d /\
                                valid b')
                   line (snd bs))
           g (fst bs)
  end.

Definition valid_tree (m : BlockMatrix) : Prop := valid (as_block m).

(** The segment starts of a partition: [offsets acc [e1; e2; ...]] is
    [[acc; acc + e1; ...]], one start per segment. *)
Fixpoint offsets (acc : nat) (l : list nat) : list nat :=
  match l with
  | [] => []
  | x :: l' => acc :: offsets (acc + x) l'
  end.

Section Pick.
Variable A : Type.
Variable cont : A -> nat -> Z.

(** The member of [l] whose segment (of extents [exts]) holds index [k],
    handed to [cont] with the index inside that segment. *)
Fixpoint pick (l : list A) (exts : list nat) (k : nat) : Z :=
  match l, exts with
  | x :: l', e :: exts' =>
      if (k <? e)%nat then cont x k else pick l' exts' (k - e)%nat
  | _, _ => 0
  end.
End Pick.

(** The entry at row [i] and column [j] of the matrix that a tree stands
    for: the entry of the slot whose block-row holds [i] and whose
    block-column holds [j]. *)
Fixpoint entry (b : block) (i j : nat) {struct b} : Z :=
  match b with
  | Leaf a => nd_at a i j
  | Node g _ bs _ _ =>
      pick (fun line i' => pick (fun b' j' => entry b' i' j') line (snd bs) j)
           g (fst bs) i
  end.

(** [i, j] lies in the frame of [h] rows and [w] columns anchored at
    [(r, c)]. *)
Definition in_frame (r c h w i j : nat) : bool :=
  (r <=? i)%nat && (i <? r + h)%nat && (c <=? j)%nat && (j <? c + w)%nat.

(** [full'] is [full] with the frame at [(r, c)] overwritten by [val]. *)
Definition updated (full full' : ndarray) (r c h w : nat) (val : nat -> nat -> Z) : Prop :=
  nd_shape full' = nd_shape full /\
  nd_dtype full' = nd_dtype full /\
  forall i j, nd_at full' i j
              = if in_frame r c h w i j then val (i - r)%nat (j - c)%nat
                else nd_at full i j.

(** Structural induction on trees, through the grid. *)
Definition block_ind' (P : block -> Prop)
    (HL : forall a, P (Leaf a))
    (HN : forall g nb bs s d, all (all P) g -> P (Node g nb bs s d))
  : forall b, P b :=
  fix IH (b : block) : P b :=
    match b with
    | Leaf a => HL a
    | Node g nb bs s d =>
        HN g nb bs s d
           ((fix rows (g : list (list block)) : all (all P) g :=
               match g with
               | [] => I
               | line :: g' =>
                   conj ((fix slots (l : list block) : all P l :=
                            match l with
                            | [] => I
                            | b' :: l' => conj (IH b') (slots l')
                            end) line)
                        (rows g')
               end) g)
    end.

(** What the assembler owes for a slot: written at an anchor where it fits,
    the slot overwrites its frame with its entries and nothing else. *)
Definition puts (b : block) : Prop :=
  forall full r c h w Hf Wf,
    block_shape b = [h; w] -> nd_shape full = [Hf; Wf] ->
    (r + h <= Hf)%nat -> (c + w <= Wf)%nat ->
    exists full', put_slot b [(r, c)] full = Return full' /\
                  updated full full' r c h w (entry b).

(** A slot of a valid grid: its shape is given by the partition, its
    element type by the tree, and it is valid itself. *)
Definition slot_ok (d : dtype) (h : nat) (b : block) (w : nat) : Prop :=
  block_shape b = [h; w] /\ block_dtype b = d /\ valid b.

(** [res'] is [res] with [val] added on the segment of [len] entries that
    starts at [lo]. *)
Definition added (res res' : vector) (lo len : nat) (val : nat -> Z) : Prop :=
  vec_len res' = vec_len res /\
  vec_dtype res' = vec_dtype res /\
  forall i, vec_at res' i
            = vec_at res i
              + (if (lo <=? i)%nat && (i <? lo + len)%nat then val (i - lo)%nat else 0).

(** The element type of [b @ v]: promoted by numpy on a leaf, the type of
    the vector on a tree. *)
Definition product_dtype (b : block) (vd : dtype) : dtype :=
  match b with
  | Leaf a => result_type (nd_dtype a) vd
  | Node _ _ _ _ _ => vd
  end.

(** What the product owes for a slot: on a vector that fits and whose
    element type accepts the slot's, the rows of the slot times the
    vector. *)
Definition multiplies (b : block) : Prop :=
  forall v h w,
    block_shape b = [h; w] -> vec_len v = w ->
    can_cast_same_kind (block_dtype b) (vec_dtype v) = true ->
    exists x, block_matvec b v = Return x /\
              vec_len x = h /\
              vec_dtype x = product_dtype b (vec_dtype v) /\
              forall i, (i < h)%nat ->
                        vec_at x i = big_sum w (fun k => entry b i k * vec_at v k).

(** ** Trees built from nested lists *)

(** Two slots that [np.asarray] does not tell apart: two trees, or two
    arrays of one shape. *)
Definition alike (b b' : block) : Prop :=
  match b, b' with
  | Leaf a, Leaf a' => nd_shape a = nd_shape a'
  | Node _ _ _ _ _, Node _ _ _ _ _ => True
  | _, _ => False
  end.

(** A tree as the constructor stores it when it is given nested lists: at
    every level, [np.asarray] accepts the nested list of the slots and makes
    of it the grid that the tree holds.  (A level whose slots are arrays of
    one height and different widths can only be stored by handing the
    constructor an array of objects built by hand.) *)
Fixpoint from_lists (b : block) : Prop :=
  match b with
  | Leaf _ => True
  | Node g _ _ _ _ =>
      np_asarray (nested_list g) = Return g /\
      all (all (fun b' => from_lists b')) g
  end.

(** ** Trees compared slot by slot *)

Section ListPredicates3.
Variables (A B C : Type).
Variable R : A -> B -> C -> Prop.

Fixpoint all3 (l : list A) (l' : list B) (l'' : list C) : Prop :=
  match l, l', l'' with
  | [], [], [] => True
  | x :: r, y :: r', z :: r'' => R x y z /\ all3 r r' r''
  | _, _, _ => False
  end.
End ListPredicates3.

(** Two trees of one layout: the same number of blocks at every level, and
    leaves of the same shape at the same places. *)
Fixpoint same_layout (b1 b2 : block) {struct b1} : Prop :=
  match b1, b2 with
  | Leaf a, Leaf c => nd_shape a = nd_shape c
  | Node g nb _ _ _, Node g' nb' _ _ _ =>
      nb = nb' /\ all2 (all2 (fun x y => same_layout x y)) g g'
  | _, _ => False
  end.




(** ** What the constructor stores *)


(** ** Statements about a vector that does not fit *)

(** What the product does with a slot and a vector that is too short for
    it: numpy refuses the product of a leaf by a segment of another
    length. *)
Definition refuses_short (b : block) : Prop :=
  valid b ->
  forall v h w,
    block_shape b = [h; w] -> (vec_len v < w)%nat ->
    can_cast_same_kind (block_dtype b) (vec_dtype v) = true ->
    block_matvec b v = Raise ValueError.

(** ** Elementwise unary operations *)

Section UnaryMap.
(** What the operator does to a leaf. *)
Variable leaf_op : ndarray -> outcome ndarray.

(** [op(x)] for a unary operator of Python: numpy's on a leaf, the method
    of [BlockMatrix] on a nested tree, which goes through
    [_apply_unary_op] with the same operator. *)
Fixpoint block_map (b : block) : outcome block :=
  match b with
  | Leaf a => r <- leaf_op a ;; Return (Leaf r)
  | Node g nb bs s d =>
      r <- _apply_unary_op block_map (mk_BlockMatrix g nb bs s d) ;;
      Return (as_block r)
  end.
End UnaryMap.

(** The opposite of an entry of element type [d]: integers wrap around. *)
Definition neg_entry (d : dtype) (z : Z) : Z :=
  match d with
  | int64 => wrap_int64 (- z)
  | _ => - z
  end.

(** [-a] on an array: numpy refuses to negate booleans. *)
Definition nd_neg (a : ndarray) : outcome ndarray :=
  match nd_dtype a with
  | bool_ => Raise TypeError
  | d => Return (mk_ndarray (nd_shape a) d (fun i j => neg_entry d (nd_at a i j)))
  end.

(** [BlockMatrix.__neg__]. *)
Definition __neg__ (self : BlockMatrix) : outcome BlockMatrix :=
  _apply_unary_op (block_map nd_neg) self.

Section UnaryMapStatement.
Variables (leaf_op : ndarray -> outcome ndarray) (phi : Z -> Z) (d d' : dtype).

(** What an elementwise map owes for a slot of element type [d] stored
    from nested lists: a valid slot of the same kind and shape, stored the
    same way, of element type [d'], whose entries are those of the slot
    through [phi]. *)
Definition maps_slot (b : block) : Prop :=
  valid b -> from_lists b -> block_dtype b = d ->
  exists b', block_map leaf_op b = Return b' /\
             valid b' /\ from_lists b' /\ alike b b' /\
             block_shape b' = block_shape b /\ block_dtype b' = d' /\
             forall i j, (i < extent 0 b)%nat -> (j < extent 1 b)%nat ->
                         entry b' i j = phi (entry b i j).
End UnaryMapStatement.

(** ** Statements about the sum of two trees *)

Section ListPredicates4.
Variables (A B C D : Type).
Variable R : A -> B -> C -> D -> Prop.

Fixpoint all4 (l1 : list A) (l2 : list B) (l3 : list C) (l4 : list D) : Prop :=
  match l1, l2, l3, l4 with
  | [], [], [], [] => True
  | x :: r1, y :: r2, z :: r3, t :: r4 => R x y z t /\ all4 r1 r2 r3 r4
  | _, _, _, _ => False
  end.
End ListPredicates4.

(** What [+] owes for a slot stored from nested lists and a valid slot of
    the same layout: a valid slot of the same kind and shape, stored the
    same way, of the promoted element type, whose entries are the sums of
    the entries in that type. *)
Definition adds_slot (b1 : block) : Prop :=
  forall b2, valid b1 -> from_lists b1 -> valid b2 -> same_layout b1 b2 ->
    exists s, block_add b1 b2 = Return s /\
              valid s /\ from_lists s /\ alike b1 s /\
              block_shape s = block_shape b1 /\
              block_dtype s = result_type (block_dtype b1) (block_dtype b2) /\
              forall i j, (i < extent 0 b1)%nat -> (j < extent 1 b1)%nat ->
                          entry s i j
                          = add_entry (result_type (block_dtype b1) (block_dtype b2))
                                      (entry b1 i j) (entry b2 i j).

(** Two valid slots of the same layout have the same shape. *)
Definition same_shape_slot (b1 : block) : Prop :=
  forall b2, valid b1 -> valid b2 -> same_layout b1 b2 ->
             block_shape b1 = block_shape b2.

(** ** Reductions *)

(** [a.all()] and [a.any()] on an array: every entry, or some entry, is
    true, that is, not zero.  (An array of rank above 2 holds no entry in
    the embedding.) *)
Definition nd_all (a : ndarray) : bool :=
  match view2 (nd_shape a) with
  | Some (h, w) =>
      forallb (fun i => forallb (fun j => negb (Z.eqb (nd_at a i j) 0)) (seq 0 w))
              (seq 0 h)
  | None => true
  end.

Definition nd_any (a : ndarray) : bool :=
  match view2 (nd_shape a) with
  | Some (h, w) =>
      existsb (fun i => existsb (fun j => negb (Z.eqb (nd_at a i j) 0)) (seq 0 w))
              (seq 0 h)
  | None => false
  end.

(** [block.all()] on a slot; on a tree this is [BlockMatrix.all]: the
    loops return [False] at the first slot that is not all true, and
    [True] when they run out. *)
Fixpoint block_all (b : block) : bool :=
  match b with
  | Leaf a => nd_all a
  | Node g _ _ _ _ => forallb (forallb block_all) g
  end.

(** [block.any()] on a slot; on a tree this is [BlockMatrix.any]. *)
Fixpoint block_any (b : block) : bool :=
  match b with
  | Leaf a => nd_any a
  | Node g _ _ _ _ => existsb (existsb block_any) g
  end.

(** [BlockMatrix.all] and [BlockMatrix.any]. *)
Definition BlockMatrix_all (self : BlockMatrix) : bool := block_all (as_block self).
Definition BlockMatrix_any (self : BlockMatrix) : bool := block_any (as_block self).

(** What the reductions owe for a slot. *)
Definition all_slot (b : block) : Prop :=
  valid b ->
  (block_all b = true <->
   forall i j, (i < extent 0 b)%nat -> (j < extent 1 b)%nat -> entry b i j <> 0).

Definition any_slot (b : block) : Prop :=
  valid b ->
  (block_any b = true <->
   exists i j, (i < extent 0 b)%nat /\ (j < extent 1 b)%nat /\ entry b i j <> 0).

(** ** Statements about the transpose *)

(** A tree whose row partition is its column partition, at every level. *)
Fixpoint symmetric (b : block) : Prop :=
  match b with
  | Leaf _ => True
  | Node g _ bs _ _ => fst bs = snd bs /\ all (all (fun b' => symmetric b')) g
  end.

(** The segment of a partition that holds index [k], with the index inside
    the segment. *)
Fixpoint locate (exts : list nat) (k : nat) : option (nat * nat) :=
  match exts with
  | [] => None
  | e :: exts' =>
      if (k <? e)%nat then Some (0%nat, k)
      else match locate exts' (k - e) with
           | Some (n, k') => Some (S n, k')
           | None => None
           end
  end.

(** Every slot is an array, and all have the width of the first. *)
Definition one_width (g : list (list block)) : bool :=
  match concat g with
  | [] => false
  | b0 :: others =>
      forallb (fun b => is_array b && Nat.eqb (extent 1 b) (extent 1 b0)) (b0 :: others)
  end.

(** At every level of the tree, some slot is a tree or two arrays have
    different widths: the transposed slots, whose heights then differ, are
    stored as objects, and [.T] on the array of slots swaps its two axes. *)
Fixpoint widths_differ (b : block) : Prop :=
  match b with
  | Leaf _ => True
  | Node g _ _ _ _ => one_width g = false /\ all (all (fun b' => widths_differ b')) g
  end.

(** [b'] is the transpose of the slot [b]. *)
Definition transposed_of (b b' : block) : Prop :=
  valid b' /\ symmetric b' /\
  block_shape b' = rev (block_shape b) /\
  block_dtype b' = block_dtype b /\
  (forall i j, entry b' i j = entry b j i) /\
  is_array b' = is_array b.

(** What the transpose owes for a slot of symmetric partition. *)
Definition transposes_slot (b : block) : Prop :=
  valid b -> symmetric b -> widths_differ b ->
  exists b', block_T b = Return b' /\ transposed_of b b'.

(** ** Statements about the product of two trees of leaves *)

Definition is_leaf (b : block) : Prop :=
  match b with
  | Leaf _ => True
  | Node _ _ _ _ _ => False
  end.

(** A tree whose slots are all dense arrays. *)
Definition leaves_only (m : BlockMatrix) : Prop :=
  all (all is_leaf) (_stored_blocks m).

(** A leaf slot of a valid grid. *)
Definition leaf_ok (d : dtype) (h : nat) (b : block) (w : nat) : Prop :=
  slot_ok d h b w /\ is_leaf b.

(** The extents of a partition are all the same. *)
Definition constant (l : list nat) : bool :=
  match l with
  | [] => true
  | x :: r => forallb (Nat.eqb x) r
  end.

(** The entries that a block-row of the left operand and a block-column of
    the right operand contribute to their block of the product. *)
Definition row_by_column (line col : list block) (ks : list nat) (x y : nat) : Z :=
  big_sum (sum_nat ks)
          (fun k => pick (fun b k' => entry b x k') line ks k
                    * pick (fun b k' => entry b k' y) col ks k).

(** ** Sample trees *)

Module Samples.
(** A single 1 x 2 leaf. *)
Definition A12 : ndarray := nd_of_rows float64 1 2 [[5; 7]].
Definition wide : BlockMatrix :=
  mk_BlockMatrix [[Leaf A12]] (1, 1)%nat ([1], [2])%nat (1, 2)%nat float64.

(** A 2 x 2 grid over the partition ([2; 1], [2; 1]). *)
Definition LA : block := Leaf (nd_of_rows float64 2 2 [[1; 2]; [3; 4]]).
Definition LB : block := Leaf (nd_of_rows float64 2 1 [[5]; [6]]).
Definition LC : block := Leaf (nd_of_rows float64 1 2 [[7; 8]]).
Definition LD : block := Leaf (nd_of_rows float64 1 1 [[9]]).
Definition square : BlockMatrix :=
  mk_BlockMatrix [[LA; LB]; [LC; LD]] (2, 2)%nat ([2; 1], [2; 1])%nat (3, 3)%nat float64.

(** A tree of the same layout that differs from [square] in two entries. *)
Definition LA' : block := Leaf (nd_of_rows float64 2 2 [[1; 0]; [3; 5]]).
Definition square_bis : BlockMatrix :=
  mk_BlockMatrix [[LA'; LB]; [LC; LD]] (2, 2)%nat ([2; 1], [2; 1])%nat (3, 3)%nat float64.

(** The same tree, one level deeper. *)
Definition nested : BlockMatrix :=
  mk_BlockMatrix [[as_block square]] (1, 1)%nat ([3], [3])%nat (3, 3)%nat float64.

(** A 1 x 2 grid of 2 x 1 leaves: its rows are cut as [2], not as [2; 1]. *)
Definition strip : BlockMatrix :=
  mk_BlockMatrix [[LB; LB]] (1, 2)%nat ([2], [1; 1])%nat (2, 2)%nat float64.

(** A single 2 x 2 leaf. *)
Definition single : BlockMatrix :=
  mk_BlockMatrix [[LA]] (1, 1)%nat ([2], [2])%nat (2, 2)%nat float64.

(** A 1 x 2 grid whose leaves have one height and different widths. *)
Definition one_row : BlockMatrix :=
  mk_BlockMatrix [[LA; LB]] (1, 2)%nat ([2], [2; 1])%nat (2, 3)%nat float64.


(** A 2 x 2 grid of 2 x 2 leaves. *)
Definition uniform : BlockMatrix :=
  mk_BlockMatrix
    [[Leaf (nd_of_rows float64 2 2 [[1; 2]; [3; 4]]);
      Leaf (nd_of_rows float64 2 2 [[5; 6]; [7; 8]])];
     [Leaf (nd_of_rows float64 2 2 [[9; 10]; [11; 12]]);
      Leaf (nd_of_rows float64 2 2 [[13; 14]; [15; 16]])]]
    (2, 2)%nat ([2; 2], [2; 2])%nat (4, 4)%nat float64.

(** A complex 1 x 1 tree. *)
Definition complex_one : BlockMatrix :=
  mk_BlockMatrix [[Leaf (nd_of_rows complex128 1 1 [[2]])]]
                 (1, 1)%nat ([1], [1])%nat (1, 1)%nat complex128.



End Samples.

(** Vectors for the products. *)
Module SampleVectors.
Definition real3 : vector := vec_of_list float64 [1; 10; 100].
Definition single3 : vector := vec_of_list float32 [1; 10; 100].
Definition real1 : vector := vec_of_list float64 [3].
Definition no_junk : nat -> nat -> Z := fun _ _ => 0.
End SampleVectors.

(** * Properties *)

(** Closed goals: run the embedding. *)
Ltac run := vm_compute; reflexivity.
Ltac differ := let H := fresh "H" in intro H; vm_compute in H; discriminate H.
Ltac prove_valid := repeat first [reflexivity | discriminate | split].

(** ** Generic facts on outcomes and traversals *)

Lemma mapM_Return (A B : Type) (f : A -> outcome B) (g : A -> B) (l : list A) :
  (forall a, In a l -> f a = Return (g a)) ->
  mapM f l = Return (map g l).
Proof.
  induction l as [|a l IH]; intros Hf; simpl.
  - reflexivity.
  - rewrite (Hf a (or_introl eq_refl)). simpl.
    rewrite IH by (intros; apply Hf; now right). reflexivity.
Qed.

Lemma tuple_get_2d (s : list nat) (k : nat) :
  length s = 2%nat -> (k < 2)%nat -> tuple_get s k = Return (nth k s 0%nat).
Proof.
  intros Hs Hk. destruct s as [|h [|w [|? ?]]]; try discriminate.
  destruct k as [|[|k]]; try lia; reflexivity.
Qed.

(** ** Grids of 2-dimensional slots *)

Lemma slot_2d_ndim (b : block) : slot_2d b -> block_ndim b = 2%nat.
Proof. destruct b; simpl; auto. Qed.

Lemma rest_same_extent_2d (axis : nat) (b0 : block) (rest : list block) :
  (axis < 2)%nat -> Forall slot_2d rest ->
  rest_same_extent axis (extent axis b0) rest
  = Return (forallb (fun b => Nat.eqb (extent axis b) (extent axis b0)) rest).
Proof.
  intros Hax. induction 1 as [|b rest Hb _ IH]; simpl.
  - reflexivity.
  - rewrite (tuple_get_2d _ Hb Hax). simpl. fold (extent axis b).
    destruct (Nat.eqb (extent axis b) (extent axis b0)); simpl; auto.
Qed.

Lemma line_same_extent_2d (axis : nat) (line : list block) :
  (axis < 2)%nat -> line <> [] -> Forall slot_2d line ->
  line_same_extent axis line = Return (uniformb axis line).
Proof.
  intros Hax Hne Hl. destruct line as [|b0 rest]; [congruence|].
  inversion Hl; subst. simpl.
  rewrite (tuple_get_2d (k := axis) (block_shape b0)) by assumption. simpl.
  now apply rest_same_extent_2d.
Qed.

Lemma lines_same_extent_2d (axis : nat) (ls : list (list block)) :
  (axis < 2)%nat -> Forall (fun l => l <> [] /\ Forall slot_2d l) ls ->
  lines_same_extent axis ls = Return (forallb (uniformb axis) ls).
Proof.
  intros Hax. induction 1 as [|l ls [Hne Hl] _ IH]; simpl.
  - reflexivity.
  - rewrite line_same_extent_2d by assumption. simpl.
    destruct (uniformb axis l); simpl; auto.
Qed.


Lemma forallb_false_in (A : Type) (p : A -> bool) (l : list A) (a : A) :
  In a l -> p a = false -> forallb p l = false.
Proof.
  intros Hin Hp. destruct (forallb p l) eqn:E; [|reflexivity].
  rewrite forallb_forall in E. rewrite (E a Hin) in Hp. discriminate.
Qed.



Lemma column_members (g : list (list block)) (j : nat) (b : block) :
  In b (flat_map (fun l => match nth_error l j with Some x => [x] | None => [] end) g) ->
  exists line, In line g /\ In b line.
Proof.
  intros H. apply in_flat_map in H as [line [Hl Hb]].
  exists line. split; [assumption|].
  destruct (nth_error line j) as [x|] eqn:E; simpl in Hb; [|tauto].
  destruct Hb as [<-|[]]. eapply nth_error_In; eauto.
Qed.

Lemma moveaxis_lines_2d (g : list (list block)) :
  rectangular g -> grid_2d g ->
  Forall (fun l => l <> [] /\ Forall slot_2d l) (moveaxis_1_0 g).
Proof.
  intros [Hne [Hn Hrect]] H2d. unfold moveaxis_1_0.
  apply Forall_forall. intros col Hcol.
  apply in_map_iff in Hcol as [j [<- Hj]]. apply in_seq in Hj.
  split.
  - destruct g as [|l0 g']; [congruence|]. simpl in *.
    destruct (nth_error l0 j) eqn:E; simpl; [discriminate|].
    apply nth_error_None in E. lia.
  - apply Forall_forall. intros b Hb.
    apply column_members in Hb as [line [Hl Hb]].
    unfold grid_2d in H2d. rewrite Forall_forall in H2d.
    specialize (H2d line Hl). rewrite Forall_forall in H2d. auto.
Qed.

Lemma rows_lines_2d (g : list (list block)) :
  rectangular g -> grid_2d g ->
  Forall (fun l => l <> [] /\ Forall slot_2d l) g.
Proof.
  intros [Hne [Hn Hrect]] H2d. unfold grid_2d in H2d.
  rewrite Forall_forall in *. intros l Hl. split; [|auto].
  specialize (Hrect l Hl). destruct l; simpl in *; [lia|discriminate].
Qed.

Lemma check_dimensions_2d (g : list (list block)) :
  rectangular g -> grid_2d g ->
  _check_dimensions_of_blocks g
  = Return (forallb (uniformb 0) g && forallb (uniformb 1) (moveaxis_1_0 g)).
Proof.
  intros Hr H2. unfold _check_dimensions_of_blocks.
  rewrite lines_same_extent_2d by (auto using rows_lines_2d). simpl.
  destruct (forallb (uniformb 0) g); simpl; [|reflexivity].
  apply lines_same_extent_2d; auto using moveaxis_lines_2d.
Qed.


(** ** Lists related slot by slot *)

Lemma all2_length (A B : Type) (R : A -> B -> Prop) (l : list A) :
  forall l', all2 R l l' -> length l = length l'.
Proof.
  induction l as [|x l IH]; intros [|y l'] H; simpl in *; try contradiction.
  - reflexivity.
  - f_equal. apply IH. tauto.
Qed.


Lemma all3_impl (A B C : Type) (R R' : A -> B -> C -> Prop) :
  (forall x y z, R x y z -> R' x y z) ->
  forall l l' l'', all3 R l l' l'' -> all3 R' l l' l''.
Proof.
  intros HR. induction l as [|x l IH]; intros [|y l'] [|z l''] H; simpl in *;
    try contradiction; [exact I|].
  destruct H as [H1 H2]. split; [now apply HR|now apply IH].
Qed.

Lemma all_of_forall (A : Type) (P : A -> Prop) (l : list A) :
  (forall x, P x) -> all P l.
Proof. intros H. induction l; simpl; auto. Qed.

(** ** The array of slots *)

Lemma forallb_ext_in (A : Type) (p q : A -> bool) (l : list A) :
  (forall a, In a l -> p a = q a) -> forallb p l = forallb q l.
Proof.
  induction l as [|a l IH]; intros H; simpl; [reflexivity|].
  rewrite (H a (or_introl eq_refl)), IH; [reflexivity|].
  intros; apply H; now right.
Qed.

Lemma forallb_of_map (A B : Type) (f : A -> B) (p : B -> bool) (l : list A) :
  forallb p (map f l) = forallb (fun x => p (f x)) l.
Proof. induction l as [|a l IH]; simpl; [reflexivity|]. now rewrite IH. Qed.

Lemma common_prefix_nil_l (s : list nat) : common_prefix [] s = [].
Proof. reflexivity. Qed.

Lemma fold_prefix_nil (ss : list (list nat)) : fold_left common_prefix ss [] = [].
Proof. induction ss as [|s ss IH]; simpl; auto. Qed.

Lemma list_nat_eqb_refl (l : list nat) : list_nat_eqb l l = true.
Proof. induction l; simpl; [reflexivity|]. now rewrite Nat.eqb_refl. Qed.

Lemma list_nat_eqb_eq (l l' : list nat) : list_nat_eqb l l' = true <-> l = l'.
Proof.
  split; [|intros ->; apply list_nat_eqb_refl].
  revert l'. induction l as [|x l IH]; intros [|y l']; simpl; try discriminate; auto.
  intros H. apply andb_true_iff in H as [H1 H2].
  apply Nat.eqb_eq in H1. apply IH in H2. congruence.
Qed.

Lemma common_prefix_hd (s0 s : list nat) :
  hd_error (common_prefix s0 s) = if heads_eqb s s0 then hd_error s0 else None.
Proof.
  destruct s0 as [|y s0], s as [|x s]; simpl; try reflexivity.
  rewrite (Nat.eqb_sym x y). destruct (Nat.eqb y x); reflexivity.
Qed.

Lemma heads_eqb_same_hd (s s0 s1 : list nat) :
  hd_error s0 = hd_error s1 -> heads_eqb s s0 = heads_eqb s s1.
Proof.
  destruct s0, s1, s; simpl; try discriminate; try reflexivity.
  intros [= ->]. reflexivity.
Qed.

(** The shape that numpy keeps starts with an extent exactly when all the
    shapes start with that extent. *)
Lemma fold_prefix_hd (ss : list (list nat)) (s0 : list nat) :
  hd_error (fold_left common_prefix ss s0)
  = if forallb (fun s => heads_eqb s s0) ss then hd_error s0 else None.
Proof.
  revert s0. induction ss as [|s ss IH]; intros s0; simpl; [reflexivity|].
  rewrite IH. pose proof (common_prefix_hd s0 s) as H.
  destruct (heads_eqb s s0) eqn:E; simpl.
  - assert (Hh : hd_error (common_prefix s0 s) = hd_error s0) by exact H.
    rewrite (@forallb_ext_in _ (fun s' => heads_eqb s' (common_prefix s0 s))
                             (fun s' => heads_eqb s' s0) ss)
      by (intros s' _; now apply heads_eqb_same_hd).
    now rewrite Hh.
  - destruct (common_prefix s0 s); [|discriminate].
    destruct (forallb _ ss); reflexivity.
Qed.

(** An array that [np.asarray] is handed is returned as it is. *)
Lemma asarray_stored (g : list (list block)) : np_asarray (stored_array g) = Return g.
Proof. reflexivity. Qed.






(** ** Grids that [np.asarray] does not tell apart *)

Lemma all2_impl (A B : Type) (R R' : A -> B -> Prop) :
  (forall x y, R x y -> R' x y) ->
  forall l l', all2 R l l' -> all2 R' l l'.
Proof.
  intros HR. induction l as [|x l IH]; intros [|y l'] H; simpl in *;
    try contradiction; [exact I|].
  destruct H as [H1 H2]. split; [now apply HR|now apply IH].
Qed.



Lemma all2_concat (A B : Type) (R : A -> B -> Prop) :
  forall g g', all2 (all2 R) g g' -> all2 R (concat g) (concat g').
Proof.
  induction g as [|l g IH]; intros [|l' g'] H; simpl in *; try contradiction;
    [exact I|].
  destruct H as [Hl Hg]. specialize (IH g' Hg).
  revert l' Hl. induction l as [|x l IHl]; intros [|y l'] Hl; simpl in *;
    try contradiction; [assumption|].
  destruct Hl as [Hxy Hl]. split; [assumption|now apply IHl].
Qed.

Lemma all2_forallb (A B : Type) (R : A -> B -> Prop) (p : A -> bool) (q : B -> bool) :
  (forall x y, R x y -> p x = q y) ->
  forall l l', all2 R l l' -> forallb p l = forallb q l'.
Proof.
  intros HR. induction l as [|x l IH]; intros [|y l'] H; simpl in *;
    try contradiction; [reflexivity|].
  destruct H as [H1 H2]. now rewrite (HR x y H1), (IH l' H2).
Qed.

Lemma all2_map (A B C : Type) (R : A -> B -> Prop) (f : A -> C) (f' : B -> C) :
  (forall x y, R x y -> f x = f' y) ->
  forall l l', all2 R l l' -> map f l = map f' l'.
Proof.
  intros HR. induction l as [|x l IH]; intros [|y l'] H; simpl in *;
    try contradiction; [reflexivity|].
  destruct H as [H1 H2]. now rewrite (HR x y H1), (IH l' H2).
Qed.

Lemma all_concat (A : Type) (P : A -> Prop) :
  forall g, all (all P) g -> all P (concat g).
Proof.
  induction g as [|l g IH]; simpl; [auto|]. intros [Hl Hg].
  specialize (IH Hg). induction l as [|x l IHl]; simpl in *; [assumption|].
  destruct Hl as [Hx Hl]. split; [assumption|now apply IHl].
Qed.

Lemma alike_seen (b b' : block) :
  alike b b' -> seen_shape b = seen_shape b' /\ is_array b = is_array b'.
Proof. destruct b, b'; simpl; intros H; try contradiction; auto. Qed.

Lemma result_type_same (d : dtype) : result_type d d = d.
Proof. destruct d; reflexivity. Qed.

Lemma promoted_same (d : dtype) (l : list block) :
  all (fun b => block_dtype b = d) l -> promoted d l = d.
Proof.
  unfold promoted. induction l as [|b l IH]; simpl; [reflexivity|].
  intros [Hb Hl]. rewrite Hb, result_type_same. now apply IH.
Qed.

Lemma cast_slot_same (d : dtype) (b : block) : block_dtype b = d -> cast_slot d b = b.
Proof. destruct b as [[s d0 f]|]; simpl; [intros ->|]; reflexivity. Qed.

Lemma cast_grid_same (d : dtype) (g : list (list block)) :
  all (all (fun b => block_dtype b = d)) g -> map (map (cast_slot d)) g = g.
Proof.
  induction g as [|l g IH]; simpl; [reflexivity|]. intros [Hl Hg].
  rewrite (IH Hg). f_equal. clear - Hl.
  induction l as [|b l IHl]; simpl in *; [reflexivity|].
  destruct Hl as [Hb Hl]. now rewrite (cast_slot_same _ Hb), (IHl Hl).
Qed.

Lemma all2_same_lengths (R : block -> block -> Prop) (g g' : list (list block)) :
  all2 (all2 R) g g' -> same_lengths g' = same_lengths g.
Proof.
  destruct g as [|r0 g], g' as [|r0' g']; simpl; try contradiction; [reflexivity|].
  intros [H0 Hg]. pose proof (all2_length _ _ _ H0) as L0.
  symmetry. eapply all2_forallb; [|exact Hg].
  intros r r' Hr. simpl. now rewrite (all2_length _ _ _ Hr), L0.
Qed.

(** A grid of slots of one element type, alike slot by slot to a grid that
    [np.asarray] accepts, is accepted and kept as it is. *)
Lemma asarray_keeps_alike (d' : dtype) (g g' : list (list block)) :
  all2 (all2 alike) g g' ->
  (exists stored, np_asarray (nested_list g) = Return stored) ->
  all (all (fun b => block_dtype b = d')) g' ->
  np_asarray (nested_list g') = Return g'.
Proof.
  intros Hal [stored Hg] Hd.
  pose proof (all2_concat _ _ _ Hal) as Hc.
  pose proof (all_concat _ _ Hd) as Hdc.
  unfold np_asarray in *. rewrite (all2_same_lengths _ _ _ Hal).
  destruct (negb (same_lengths g)); [discriminate|].
  destruct (concat g) as [|b0 others], (concat g') as [|b0' others'];
    simpl in Hc; try contradiction; [reflexivity|].
  destruct Hc as [H0 Hc]. destruct (alike_seen _ _ H0) as [Hs0 Ha0].
  destruct Hdc as [Hd0 Hdo].
  assert (Hsame : forallb (fun b => list_nat_eqb (seen_shape b) (seen_shape b0')) others'
                  = forallb (fun b => list_nat_eqb (seen_shape b) (seen_shape b0)) others).
  { symmetry. eapply all2_forallb; [|exact Hc]. intros x y Hxy. simpl.
    destruct (alike_seen _ _ Hxy) as [-> _]. now rewrite Hs0. }
  assert (Hmap : map seen_shape others' = map seen_shape others).
  { symmetry. eapply all2_map; [|exact Hc]. intros x y Hxy.
    now destruct (alike_seen _ _ Hxy). }
  rewrite Hsame, Hmap.
  rewrite <- Hs0.
  assert (Harr : forallb is_array (b0' :: others') = forallb is_array (b0 :: others)).
  { simpl. rewrite Ha0. f_equal. symmetry.
    eapply all2_forallb; [|exact Hc]. intros x y Hxy.
    now destruct (alike_seen _ _ Hxy). }
  rewrite Harr.
  destruct (forallb _ others).
  - destruct (forallb is_array (b0 :: others)); [|reflexivity].
    rewrite Hd0, (promoted_same _ _ Hdo), (cast_grid_same _ _ Hd). reflexivity.
  - destruct (fold_left _ _ _); [reflexivity|discriminate].
Qed.

(** ** Construction *)




Lemma grid_first_rectangular (g : list (list block)) :
  rectangular g -> exists b line rows, g = (b :: line) :: rows.
Proof.
  intros [Hne [Hn _]]. destruct g as [|[|b line] rows]; simpl in *;
    try congruence. eauto.
Qed.

Lemma derived_shapes_2d (g : list (list block)) :
  rectangular g -> grid_2d g ->
  mapM (fun line => b <- grid_first [line] ;; tuple_get (block_shape b) 0) g
  = Return (map (fun line => extent 0 (hd (Leaf py_False) line)) g) /\
  mapM (fun b => tuple_get (block_shape b) 1) (hd [] g)
  = Return (map (extent 1) (hd [] g)).
Proof.
  intros Hr H2. pose proof (rows_lines_2d Hr H2) as Hl.
  rewrite Forall_forall in Hl. split.
  - apply mapM_Return. intros line Hin. destruct (Hl line Hin) as [Hne Hs].
    destruct line as [|b rest]; [congruence|]. simpl.
    inversion Hs; subst. apply tuple_get_2d; [assumption|lia].
  - apply mapM_Return. intros b Hb.
    destruct (grid_first_rectangular Hr) as (b0 & line & rows & ->). simpl in *.
    destruct (Hl (b0 :: line) (or_introl eq_refl)) as [_ Hs].
    rewrite Forall_forall in Hs. apply tuple_get_2d; [now apply Hs|lia].
Qed.



Lemma rectangular_same_lengths (g : list (list block)) :
  rectangular g -> same_lengths g = true.
Proof.
  intros (Hne & _ & Hall). destruct g as [|r0 rest]; [congruence|].
  simpl in *. inversion Hall; subst. apply forallb_forall.
  intros r Hr. apply Nat.eqb_eq. rewrite Forall_forall in H2. now apply H2.
Qed.

Lemma rectangular_concat (g : list (list block)) :
  rectangular g -> exists b0 others, concat g = b0 :: others.
Proof.
  intros Hr. destruct (grid_first_rectangular Hr) as (b & line & rows & ->).
  simpl. eauto.
Qed.


Lemma forallb_In (A : Type) (p : A -> bool) (l : list A) (a : A) :
  forallb p l = true -> In a l -> p a = true.
Proof. intros H. rewrite forallb_forall in H. auto. Qed.

(** A tree among the slots: [np.asarray] keeps the slots as objects. *)
Lemma asarray_with_tree (g : list (list block)) :
  same_lengths g = true ->
  forallb is_array (concat g) = false ->
  np_asarray (nested_list g) = Return g.
Proof.
  intros Hs Ht. unfold np_asarray. rewrite Hs. cbn [negb].
  destruct (concat g) as [|b0 others] eqn:E; [reflexivity|].
  destruct (forallb _ others) eqn:Esame.
  - now rewrite Ht.
  - assert (Hhd : hd_error (fold_left common_prefix (map seen_shape others)
                                      (seen_shape b0)) = None).
    { rewrite fold_prefix_hd.
      destruct (forallb (fun s => heads_eqb s (seen_shape b0)) (map seen_shape others))
        eqn:Eh; [|reflexivity].
      destruct b0 as [a0|? ? ? ? ?]; [|reflexivity].
      cbn [forallb is_array andb] in Ht.
      destruct (forallb is_array others) eqn:Ea; [discriminate|].
      exfalso. clear - Eh Ea.
      induction others as [|b others IH]; simpl in *; [discriminate|].
      apply andb_true_iff in Eh as [Eb Eh].
      destruct b as [a|? ? ? ? ?]; simpl in *; [auto|discriminate]. }
    destruct (fold_left _ _ _); [reflexivity|discriminate].
Qed.

Lemma one_height_arrays (g : list (list block)) :
  one_height g = true -> forallb is_array (concat g) = true.
Proof.
  unfold one_height. destruct (concat g) as [|b0 others]; [discriminate|].
  intros H. apply forallb_forall. intros b Hb.
  pose proof (forallb_In _ _ _ H Hb) as Hp. now apply andb_true_iff in Hp as [-> _].
Qed.

(** On a rectangular grid of 2-dimensional slots that do not all have one
    shape, [np.asarray] refuses the arrays of one height and keeps the
    other grids as they are. *)
Lemma asarray_disagree (g : list (list block)) :
  rectangular g -> grid_2d g ->
  (exists b b', In b (concat g) /\ In b' (concat g) /\ block_shape b <> block_shape b') ->
  np_asarray (nested_list g) = if one_height g then Raise ValueError else Return g.
Proof.
  intros Hr H2 (b & b' & Hb & Hb' & Hne).
  pose proof (rectangular_same_lengths Hr) as Hs.
  destruct (forallb is_array (concat g)) eqn:Ea.
  2:{ rewrite (asarray_with_tree _ Hs Ea).
      destruct (one_height g) eqn:E; [|reflexivity].
      apply one_height_arrays in E. congruence. }
  assert (H2c : Forall slot_2d (concat g)) by (now apply Forall_concat).
  assert (Hleaf : forall x, In x (concat g) ->
                            seen_shape x = block_shape x /\
                            exists h w, block_shape x = [h; w]).
  { intros x Hx. pose proof (forallb_In _ _ _ Ea Hx) as Hxa.
    rewrite Forall_forall in H2c. pose proof (H2c x Hx) as Hx2.
    destruct x as [a|? ? ? ? ?]; [|discriminate]. split; [reflexivity|].
    unfold slot_2d in Hx2. simpl in *.
    destruct (nd_shape a) as [|h [|w [|? ?]]]; try discriminate. eauto. }
  unfold np_asarray, one_height. rewrite Hs. cbn [negb].
  destruct (concat g) as [|b0 others] eqn:E; [destruct Hb|].
  assert (Hsame : forallb (fun x => list_nat_eqb (seen_shape x) (seen_shape b0)) others
                  = false).
  { destruct (forallb _ others) eqn:Ef; [|reflexivity]. exfalso. apply Hne.
    assert (H0 : forall x, In x (b0 :: others) -> block_shape x = block_shape b0).
    { intros x [<-|Hx]; [reflexivity|].
      pose proof (forallb_In _ _ _ Ef Hx) as Hp. apply list_nat_eqb_eq in Hp.
      destruct (Hleaf x (or_intror Hx)) as [<- _].
      destruct (Hleaf b0 (or_introl eq_refl)) as [<- _]. exact Hp. }
    rewrite (H0 b Hb), (H0 b' Hb'). reflexivity. }
  rewrite Hsame.
  pose proof (fold_prefix_hd (map seen_shape others) (seen_shape b0)) as Hhd.
  assert (Hheads : forallb (fun s => heads_eqb s (seen_shape b0)) (map seen_shape others)
                   = forallb (fun x => is_array x && Nat.eqb (extent 0 x) (extent 0 b0))
                             others).
  { rewrite forallb_of_map. apply forallb_ext_in. intros x Hx.
    pose proof (forallb_In _ _ _ Ea (or_intror Hx)) as Hxa. rewrite Hxa.
    destruct (Hleaf x (or_intror Hx)) as (Ex & h & w & Ex').
    destruct (Hleaf b0 (or_introl eq_refl)) as (E0 & h0 & w0 & E0').
    unfold extent. rewrite Ex, E0, Ex', E0'. reflexivity. }
  rewrite Hheads in Hhd. cbn [forallb].
  pose proof (forallb_In _ _ _ Ea (or_introl eq_refl)) as H0a. rewrite H0a.
  rewrite Nat.eqb_refl. cbn [andb].
  destruct (Hleaf b0 (or_introl eq_refl)) as (E0 & h0 & w0 & E0').
  set (t := fold_left common_prefix (map seen_shape others) (seen_shape b0)) in *.
  rewrite E0, E0' in Hhd. clear Hsame Hheads.
  destruct (forallb (fun x => is_array x && Nat.eqb (extent 0 x) (extent 0 b0)) others);
    simpl in Hhd.
  - destruct t; [discriminate|reflexivity].
  - destruct t; [reflexivity|discriminate].
Qed.

Lemma forallb_false_witness (A : Type) (p : A -> bool) (l : list A) :
  forallb p l = false -> exists a, In a l /\ p a = false.
Proof.
  induction l as [|x l IH]; simpl; [discriminate|].
  destruct (p x) eqn:E; simpl.
  - intros H. destruct (IH H) as (a & Ha & Hp). eauto.
  - intros _. eauto.
Qed.

(** A rectangular grid of 2-dimensional slots that are not all arrays of one
    height is stored as a 2-dimensional array of objects: [np.asarray]
    keeps the slots as they are, and the array is not numeric. *)
Lemma asarray_objects (g : list (list block)) :
  rectangular g -> grid_2d g -> one_height g = false ->
  np_asarray (nested_list g) = Return g /\ one_shape g = None.
Proof.
  intros Hr H2 Hone.
  pose proof (rectangular_same_lengths Hr) as Hs.
  destruct (rectangular_concat Hr) as (b0 & others & E).
  assert (H2c : Forall slot_2d (concat g)) by (now apply Forall_concat).
  destruct (forallb is_array (concat g)) eqn:Ea.
  - unfold one_height in Hone. rewrite E in Hone.
    destruct (forallb_false_witness _ _ Hone) as (b & Hb & Hp).
    rewrite <- E in Hb. pose proof (forallb_In _ _ _ Ea Hb) as Hba.
    rewrite Hba in Hp. cbn [andb] in Hp. apply Nat.eqb_neq in Hp.
    assert (Hne : block_shape b <> block_shape b0).
    { intros Heq. apply Hp. unfold extent. now rewrite Heq. }
    assert (Hb0 : In b0 (concat g)) by (rewrite E; now left).
    split.
    + rewrite (@asarray_disagree g Hr H2 (ex_intro _ b (ex_intro _ b0 (conj Hb (conj Hb0 Hne))))).
      unfold one_height. rewrite E.
      destruct (forallb _ (b0 :: others)) eqn:F; [|reflexivity].
      pose proof (forallb_In _ _ b F ltac:(rewrite <- E; exact Hb)) as Hq.
      cbv beta in Hq. rewrite Hba in Hq. cbn [andb] in Hq. apply Nat.eqb_eq in Hq. contradiction.
    + unfold one_shape. rewrite E.
      destruct b0 as [a0|? ? ? ? ?]; [|reflexivity].
      destruct (nd_shape a0) as [|h [|w [|? ?]]] eqn:Ea0; try reflexivity.
      rewrite E in Hb. destruct Hb as [<-|Hb]; [contradiction|].
      rewrite (@forallb_false_in _ _ others b Hb); [reflexivity|].
      rewrite Hba. cbn [andb].
      destruct (list_nat_eqb (seen_shape b) [h; w]) eqn:F; [|reflexivity].
      apply list_nat_eqb_eq in F. exfalso. apply Hne.
      destruct b as [a|? ? ? ? ?]; [|discriminate]. simpl in *. congruence.
  - split; [now apply asarray_with_tree|].
    unfold one_shape. rewrite E in *.
    destruct b0 as [a0|? ? ? ? ?]; [|reflexivity].
    destruct (nd_shape a0) as [|h [|w [|? ?]]]; try reflexivity.
    cbn [forallb is_array andb] in Ea.
    destruct (forallb_false_witness _ _ Ea) as (b & Hb & Hp).
    rewrite (@forallb_false_in _ _ others b Hb); [reflexivity|].
    now rewrite Hp.
Qed.




(** ** Transpose *)

Lemma init_unchecked_attributes (blocks : array_like) (bs : list nat * list nat)
    (m : BlockMatrix) :
  BlockMatrix_init blocks (Some bs) false = Return m ->
  np_asarray blocks = Return (_stored_blocks m) /\ _stored_block_shapes m = bs /\
  shape m = _compute_shape bs.
Proof.
  unfold BlockMatrix_init.
  destruct (np_asarray blocks) as [stored| | |e]; simpl; try discriminate.
  destruct (grid_first stored) as [b| | |e]; simpl; try discriminate.
  destruct (Nat.eqb (block_ndim b) 2); simpl; try discriminate.
  intros [= <-]. auto.
Qed.

(** Whenever [T] returns, its result carries the partition of its input,
    and the total shape computed from it: nothing is swapped. *)
Lemma T_keeps_partition (B t : BlockMatrix) :
  T B = Return t ->
  block_shapes t = block_shapes B /\ shape t = _compute_shape (block_shapes B).
Proof.
  unfold T, _apply_unary_op.
  destruct (mapM (mapM block_T) (_stored_blocks B)) as [r| | |e]; simpl;
    try discriminate.
  destruct (BlockMatrix_init (nested_list r) (Some (_stored_block_shapes B)) false)
    as [m| | |e] eqn:E; simpl; try discriminate.
  intros [= <-]. apply init_unchecked_attributes in E as (_ & Hbs & Hs).
  unfold block_shapes. simpl. auto.
Qed.

(** C1 (the code departs from the claim).  On the tree made of one 1 x 2
    leaf, a tree the validating constructor accepts, [T] returns a tree
    whose [block_shapes] are still ([1], [2]) and whose [shape] is still
    (1, 2): the roles are not swapped. *)
Theorem T_block_shapes_not_swapped :
  BlockMatrix_init (nested_list [[Leaf Samples.A12]]) None true = Return Samples.wide /\
  exists t, T Samples.wide = Return t /\
            block_shapes t = ([1], [2])%nat /\
            block_shapes t <> (snd (block_shapes Samples.wide),
                               fst (block_shapes Samples.wide)) /\
            shape t = (1, 2)%nat /\
            shape t <> (snd (shape Samples.wide), fst (shape Samples.wide)).
Proof.
  split; [run|].
  eexists. split; [run|].
  split; [run|]. split; [differ|]. split; [run|differ].
Qed.

(** C4 (the code departs from the claim).  On the same tree, flattening
    gives [[5; 7]], whose transpose is the 2 x 1 array [[5]; [7]].  The
    transposed leaf is merged by [np.asarray] into an array of extents
    (1, 1, 2, 1), which [.T] turns into one of extents (1, 2, 1, 1): a row
    of two 1 x 1 slots.  The transposed tree still announces the shape
    (1, 2) and the partition ([1], [2]), which has one position: flattening
    it raises nothing and returns a 1 x 2 array, whose first entry is 5 and
    whose second entry is never written: it is what the memory held. *)
Theorem flatten_T_fails_on_wide (junk : nat -> nat -> Z) :
  BlockMatrix_init (nested_list [[Leaf Samples.A12]]) None true = Return Samples.wide /\
  (exists f, full_matrix junk Samples.wide = Return f /\
             nd_view f = ([1; 2]%nat, [[5; 7]]) /\
             nd_view (nd_T f) = ([2; 1]%nat, [[5]; [7]])) /\
  (exists t fT, T Samples.wide = Return t /\
                shape t = (1, 2)%nat /\
                full_matrix junk t = Return fT /\
                nd_view fT = ([1; 2]%nat, [[5; junk 0%nat 1%nat]]) /\
                nd_shape fT <> [2; 1]%nat).
Proof.
  split; [run|]. split.
  - eexists. split; [run|]. split; run.
  - eexists. eexists. split; [run|]. split; [run|]. split; [reflexivity|].
    split; [reflexivity|]. discriminate.
Qed.

(** ** Unsupported operands *)

(** The elementwise binary map answers [NotImplemented], whatever the
    operator, when the right operand is not a tree or when the two grids
    differ. *)
Lemma _apply_binary_op_NotImplemented
    (op : block -> block -> outcome block) (self : BlockMatrix) (other : block) :
  match other with
  | Leaf _ => True
  | Node _ onb _ _ _ => nb_blocks self <> onb
  end ->
  _apply_binary_op op self other = NotImplemented.
Proof.
  destruct other as [a|og onb obs os od]; simpl; [reflexivity|].
  intros Hnb. destruct (nb_eqb (nb_blocks self) onb) eqn:E; [|reflexivity].
  exfalso. apply Hnb. unfold nb_eqb in E.
  apply andb_true_iff in E as [E1 E2].
  apply Nat.eqb_eq in E1, E2.
  destruct (nb_blocks self), onb; simpl in *; congruence.
Qed.

(** C6 (the code departs from the claim).  [square] has column widths
    [2; 1] and [strip] has row heights [2]: the partitions are
    incompatible, and [matmat] falls through both of its branches and
    returns [None], which is not the [NotImplemented] signal; the
    elementwise operations on the same pair (their grids differ) do answer
    [NotImplemented]. *)
Theorem matmat_incompatible_returns_None (junk : nat -> nat -> Z) :
  BlockMatrix_init (nested_list (all_blocks Samples.square)) None true = Return Samples.square /\
  BlockMatrix_init (nested_list (all_blocks Samples.strip)) None true = Return Samples.strip /\
  snd (block_shapes Samples.square) <> fst (block_shapes Samples.strip) /\
  matmat junk Samples.square (as_block Samples.strip) = ReturnNone /\
  matmat junk Samples.square (as_block Samples.strip) <> NotImplemented /\
  __add__ Samples.square (as_block Samples.strip) = NotImplemented /\
  __eq__ Samples.square (as_block Samples.strip) = NotImplemented.
Proof.
  split; [run|]. split; [run|]. split; [differ|]. split; [run|].
  split; [differ|]. split; run.
Qed.

(** C8 (the code departs from the claim).  [nested] is a valid tree whose
    single slot is the tree [square]; its partitions are compatible with
    themselves at both levels, so the product of [nested] by itself is
    defined; but the inner product is a tree, Python's [sum] adds it to the
    integer 0, and [matmat] raises a [TypeError].  One level up, on trees
    of leaves, the same product is returned. *)
Theorem matmat_nested_raises (junk : nat -> nat -> Z) :
  BlockMatrix_init (nested_list (all_blocks Samples.nested)) None true = Return Samples.nested /\
  snd (block_shapes Samples.nested) = fst (block_shapes Samples.nested) /\
  snd (block_shapes Samples.square) = fst (block_shapes Samples.square) /\
  matmat junk Samples.nested (as_block Samples.nested) = Raise TypeError /\
  (r <- matmat junk Samples.square (as_block Samples.square) ;;
   p <- as_BlockMatrix r ;;
   f <- full_matrix junk p ;;
   Return (nd_view f))
  = Return ([3; 3]%nat, [[42; 50; 62]; [57; 70; 93]; [94; 118; 164]]).
Proof.
  split; [run|]. split; [run|]. split; [run|]. split; run.
Qed.

(** ** The checks of the batched spectral transform *)

(** With two trees or more, the three assertions hold whatever the trees. *)
Lemma fft_of_list_checks_vacuous (m0 m1 : BlockMatrix) (others : list BlockMatrix)
    (check : bool) :
  fft_of_list_checks (m0 :: m1 :: others) check = Return tt.
Proof. destruct check; reflexivity. Qed.

(** C3 (the code departs from the claim).  [complex_one] and [square]
    disagree in element type, in number of blocks and in shape, and the
    checks of [fft_of_list] let the pair through; on a single tree, which
    disagrees with nothing, the same checks fail. *)
Theorem fft_checks_accept_mismatch :
  dtype_of Samples.complex_one <> dtype_of Samples.square /\
  nb_blocks Samples.complex_one <> nb_blocks Samples.square /\
  shape Samples.complex_one <> shape Samples.square /\
  fft_of_list_checks [Samples.complex_one; Samples.square] true = Return tt /\
  fft_of_list_checks [Samples.complex_one; Samples.square] false = Return tt /\
  fft_of_list_checks [Samples.square] true = Raise AssertionError.
Proof.
  split; [differ|]. split; [differ|]. split; [differ|].
  split; [run|]. split; run.
Qed.

(** ** Flattening a valid tree *)

Lemma clip_inside (n lo len : nat) :
  (lo + len <= n)%nat -> clip n lo (lo + len) = (lo, (lo + len)%nat).
Proof. intros H. unfold clip. f_equal; lia. Qed.

Lemma starts_from_offsets (l : list nat) (acc : nat) :
  l <> [] -> starts_from acc l = offsets acc l.
Proof.
  revert acc. induction l as [|x l IH]; intros acc Hne; [congruence|].
  destruct l as [|y l']; [reflexivity|].
  change (acc :: starts_from (acc + x) (y :: l') = acc :: offsets (acc + x) (y :: l')).
  f_equal. apply IH. discriminate.
Qed.

Lemma in_frame_true (r c h w i j : nat) :
  in_frame r c h w i j = true <->
  (r <= i < r + h /\ c <= j < c + w)%nat.
Proof.
  unfold in_frame. rewrite !andb_true_iff, !Nat.leb_le, !Nat.ltb_lt. lia.
Qed.

Lemma in_frame_false (r c h w i j : nat) :
  in_frame r c h w i j = false <->
  ~ (r <= i < r + h /\ c <= j < c + w)%nat.
Proof.
  rewrite <- in_frame_true. destruct (in_frame r c h w i j); split; congruence.
Qed.

Lemma assign_frame_updated (full src : ndarray) (r c h w Hf Wf : nat) :
  nd_shape full = [Hf; Wf] -> nd_shape src = [h; w] ->
  (r + h <= Hf)%nat -> (c + w <= Wf)%nat ->
  exists full', assign_frame full r c h w src = Return full' /\
                updated full full' r c h w (nd_at src).
Proof.
  intros Hfull Hsrc Hr Hc. unfold assign_frame, tuple_get.
  rewrite Hfull, Hsrc. cbn [nth_error bind].
  rewrite !clip_inside by assumption.
  replace (r + h - r)%nat with h by lia. replace (c + w - c)%nat with w by lia.
  unfold broadcastable. rewrite !Nat.eqb_refl. simpl.
  eexists. split; [reflexivity|].
  split; [simpl; congruence|]. split; [reflexivity|].
  intros i j. simpl. fold (in_frame r c h w i j).
  destruct (in_frame r c h w i j) eqn:E; [|reflexivity].
  apply in_frame_true in E.
  destruct (Nat.eqb_spec h 1), (Nat.eqb_spec w 1); f_equal; lia.
Qed.

(** Two frames side by side make one frame. *)
Lemma updated_join_cols (f0 f1 f2 : ndarray) (r c h w1 w2 : nat)
    (v1 v2 v : nat -> nat -> Z) :
  updated f0 f1 r c h w1 v1 ->
  updated f1 f2 r (c + w1) h w2 v2 ->
  (forall i j, (i < h)%nat -> (j < w1)%nat -> v i j = v1 i j) ->
  (forall i j, (i < h)%nat -> (w1 <= j < w1 + w2)%nat -> v i j = v2 i (j - w1)%nat) ->
  updated f0 f2 r c h (w1 + w2) v.
Proof.
  intros (S1 & D1 & E1) (S2 & D2 & E2) Hv1 Hv2.
  split; [congruence|]. split; [congruence|].
  intros i j. rewrite E2, E1.
  destruct (in_frame r (c + w1) h w2 i j) eqn:F2;
    destruct (in_frame r c h w1 i j) eqn:F1;
    destruct (in_frame r c h (w1 + w2) i j) eqn:F;
    rewrite ?in_frame_true, ?in_frame_false in *; try lia.
  - rewrite Hv2 by lia. f_equal; lia.
  - rewrite Hv1 by lia. reflexivity.
Qed.

(** Two frames one above the other make one frame. *)
Lemma updated_join_rows (f0 f1 f2 : ndarray) (r c h1 h2 w : nat)
    (v1 v2 v : nat -> nat -> Z) :
  updated f0 f1 r c h1 w v1 ->
  updated f1 f2 (r + h1) c h2 w v2 ->
  (forall i j, (i < h1)%nat -> (j < w)%nat -> v i j = v1 i j) ->
  (forall i j, (h1 <= i < h1 + h2)%nat -> (j < w)%nat -> v i j = v2 (i - h1)%nat j) ->
  updated f0 f2 r c (h1 + h2) w v.
Proof.
  intros (S1 & D1 & E1) (S2 & D2 & E2) Hv1 Hv2.
  split; [congruence|]. split; [congruence|].
  intros i j. rewrite E2, E1.
  destruct (in_frame (r + h1) c h2 w i j) eqn:F2;
    destruct (in_frame r c h1 w i j) eqn:F1;
    destruct (in_frame r c (h1 + h2) w i j) eqn:F;
    rewrite ?in_frame_true, ?in_frame_false in *; try lia.
  - rewrite Hv2 by lia. f_equal; lia.
  - rewrite Hv1 by lia. reflexivity.
Qed.

Lemma updated_empty_cols (f : ndarray) (r c h : nat) (v : nat -> nat -> Z) :
  updated f f r c h 0 v.
Proof.
  split; [reflexivity|]. split; [reflexivity|]. intros i j.
  destruct (in_frame r c h 0 i j) eqn:F; [|reflexivity].
  apply in_frame_true in F. lia.
Qed.

Lemma updated_empty_rows (f : ndarray) (r c w : nat) (v : nat -> nat -> Z) :
  updated f f r c 0 w v.
Proof.
  split; [reflexivity|]. split; [reflexivity|]. intros i j.
  destruct (in_frame r c 0 w i j) eqn:F; [|reflexivity].
  apply in_frame_true in F. lia.
Qed.

Lemma valid_Node_unfold g nb bs s d :
  valid (Node g nb bs s d) <->
  fst bs <> [] /\ snd bs <> [] /\
  nb = (length (fst bs), length (snd bs)) /\
  s = _compute_shape bs /\
  all2 (fun line h => all2 (slot_ok d h) line (snd bs)) g (fst bs).
Proof. reflexivity. Qed.

Section PutLoops.
Variables (d : dtype) (Hf Wf : nat).

Lemma put_line (rr c h : nat) (line : list block) :
  forall ws,
    all (fun b => valid b -> puts b) line ->
    all2 (slot_ok d h) line ws ->
    forall y0 full rest,
      nd_shape full = [Hf; Wf] ->
      (rr + h <= Hf)%nat -> (c + y0 + sum_nat ws <= Wf)%nat ->
      exists full',
        zip_fold_line put_slot line
          (map (fun y => [(rr, (c + y)%nat)]) (offsets y0 ws) ++ rest) full
        = Return (rest, full') /\
        updated full full' rr (c + y0) h (sum_nat ws)
                (fun i j => pick (fun b' j' => entry b' i j') line ws j).
Proof.
  induction line as [|b line IH]; intros [|w ws] Hall Hfit y0 full rest Hs Hr Hc;
    simpl in Hfit; try contradiction.
  - exists full. split; [reflexivity|]. apply updated_empty_cols.
  - destruct Hall as [Hb Hall]. destruct Hfit as [(Hshape & _ & Hv) Hfit].
    simpl in Hc.
    destruct (Hb Hv full rr (c + y0)%nat h w Hf Wf Hshape Hs Hr ltac:(lia))
      as (full1 & E1 & U1).
    assert (Hs1 : nd_shape full1 = [Hf; Wf]) by (destruct U1 as [-> _]; exact Hs).
    destruct (IH ws Hall Hfit (y0 + w)%nat full1 rest Hs1 Hr ltac:(lia))
      as (full2 & E2 & U2).
    exists full2. split.
    + simpl. rewrite E1. simpl. exact E2.
    + replace (c + (y0 + w))%nat with (c + y0 + w)%nat in U2 by lia.
      eapply updated_join_cols; [exact U1|exact U2| |].
      * intros i j _ Hj. simpl. apply Nat.ltb_lt in Hj. now rewrite Hj.
      * intros i j _ Hj. simpl.
        destruct (Nat.ltb_spec j w); [lia|reflexivity].
Qed.

Lemma put_grid (r c : nat) (ws : list nat) (g : list (list block)) :
  forall hs,
    all (all (fun b => valid b -> puts b)) g ->
    all2 (fun line h => all2 (slot_ok d h) line ws) g hs ->
    forall x0 full,
      nd_shape full = [Hf; Wf] ->
      (r + x0 + sum_nat hs <= Hf)%nat -> (c + sum_nat ws <= Wf)%nat ->
      exists full',
        zip_fold_grid put_slot g
          (flat_map (fun x => map (fun y => [((r + x)%nat, (c + y)%nat)])
                                  (offsets 0 ws))
                    (offsets x0 hs)) full
        = Return full' /\
        updated full full' (r + x0) c (sum_nat hs) (sum_nat ws)
                (fun i j => pick (fun line i' =>
                                    pick (fun b' j' => entry b' i' j') line ws j)
                                 g hs i).
Proof.
  induction g as [|line g IH]; intros [|h hs] Hall Hfit x0 full Hs Hr Hc;
    simpl in Hfit; try contradiction.
  - exists full. split; [reflexivity|]. apply updated_empty_rows.
  - destruct Hall as [Hline Hall]. destruct Hfit as [Hlfit Hfit]. simpl in Hr.
    destruct (@put_line (r + x0) c h line ws Hline Hlfit 0%nat full
                (flat_map (fun x => map (fun y => [((r + x)%nat, (c + y)%nat)])
                                        (offsets 0 ws))
                          (offsets (x0 + h) hs))
                Hs ltac:(lia) ltac:(lia))
      as (full1 & E1 & U1).
    assert (Hs1 : nd_shape full1 = [Hf; Wf]) by (destruct U1 as [-> _]; exact Hs).
    destruct (IH hs Hall Hfit (x0 + h)%nat full1 Hs1 ltac:(lia) Hc)
      as (full2 & E2 & U2).
    exists full2. split.
    + simpl. rewrite E1. simpl. exact E2.
    + replace (c + 0)%nat with c in U1 by lia.
      replace (r + (x0 + h))%nat with (r + x0 + h)%nat in U2 by lia.
      eapply updated_join_rows; [exact U1|exact U2| |].
      * intros i j Hi _. simpl. apply Nat.ltb_lt in Hi. now rewrite Hi.
      * intros i j Hi _. simpl.
        destruct (Nat.ltb_spec i h); [lia|reflexivity].
Qed.
End PutLoops.

(** Every valid slot is assembled as the assembler owes. *)
Lemma valid_puts (b : block) : valid b -> puts b.
Proof.
  induction b as [a|g nb bs s d IH] using block_ind'; intros Hv.
  - intros full r c h w Hf Wf Hshape Hs Hr Hc. simpl in Hshape.
    destruct (@assign_frame_updated full a r c h w Hf Wf Hs Hshape Hr Hc)
      as (full' & E & U).
    exists full'. split; [|exact U].
    simpl. unfold tuple_get. rewrite Hshape. simpl. rewrite E. reflexivity.
  - apply valid_Node_unfold in Hv as (Hh & Hw & _ & -> & Hfit).
    intros full r c h w Hf Wf Hshape Hs Hr Hc.
    simpl in Hshape. injection Hshape as <- <-.
    destruct (@put_grid d Hf Wf r c (snd bs) g (fst bs) IH Hfit 0%nat full Hs
                ltac:(lia) Hc) as (full' & E & U).
    exists full'. split.
    + simpl. unfold _stored_block_positions. simpl.
      rewrite !starts_from_offsets by assumption.
      rewrite E. reflexivity.
    + replace (r + 0)%nat with r in U by lia. exact U.
Qed.

(** Flattening a valid tree returns an array of the declared shape and
    element type whose entries are those of the tree. *)
Lemma full_matrix_valid (junk : nat -> nat -> Z) (m : BlockMatrix) :
  valid_tree m ->
  exists f, full_matrix junk m = Return f /\
            nd_shape f = [fst (shape m); snd (shape m)] /\
            nd_dtype f = dtype_of m /\
            forall i j, (i < fst (shape m))%nat -> (j < snd (shape m))%nat ->
                        nd_at f i j = entry (as_block m) i j.
Proof.
  intros Hv.
  set (full := mk_ndarray [fst (shape m); snd (shape m)] (dtype_of m) junk).
  destruct (@valid_puts (as_block m) Hv full 0%nat 0%nat
              (fst (shape m)) (snd (shape m)) (fst (shape m)) (snd (shape m))
              eq_refl eq_refl ltac:(lia) ltac:(lia)) as (f & E & (S1 & D1 & E1)).
  exists f. split; [|split; [exact S1|split; [exact D1|]]].
  - unfold full_matrix, _put_in_full_matrix. fold full.
    simpl in E.
    destruct (zip_fold_grid put_slot (_stored_blocks m)
                (_stored_block_positions (_stored_block_shapes m) (0%nat, 0%nat)) full)
      as [x| | |e]; simpl in E; congruence.
  - intros i j Hi Hj. rewrite E1.
    replace (in_frame 0 0 (fst (shape m)) (snd (shape m)) i j) with true.
    + now rewrite !Nat.sub_0_r.
    + symmetry. apply in_frame_true. lia.
Qed.

(** ** The matrix-vector product of a valid tree *)

Lemma kind_result_type (a b : dtype) :
  kind (result_type a b) = Nat.max (kind a) (kind b).
Proof. destruct a, b; reflexivity. Qed.

Lemma can_cast_kind (a b : dtype) :
  can_cast_same_kind a b = true <-> (kind a <= kind b)%nat.
Proof. unfold can_cast_same_kind. apply Nat.leb_le. Qed.

Lemma big_sum_ext (n : nat) (f g : nat -> Z) :
  (forall k, (k < n)%nat -> f k = g k) -> big_sum n f = big_sum n g.
Proof.
  induction n as [|n IH]; intros H; simpl; [reflexivity|].
  rewrite IH by (intros; apply H; lia). rewrite H by lia. reflexivity.
Qed.

Lemma big_sum_app (m n : nat) (f : nat -> Z) :
  big_sum (m + n) f = big_sum m f + big_sum n (fun k => f (m + k)%nat).
Proof.
  induction n as [|n IH].
  - rewrite Nat.add_0_r. simpl. lia.
  - rewrite Nat.add_succ_r. simpl. rewrite IH. lia.
Qed.

Lemma vec_slice_inside (v : vector) (y0 w : nat) :
  (y0 + w <= vec_len v)%nat ->
  vec_len (vec_slice v y0 (y0 + w)) = w /\
  vec_dtype (vec_slice v y0 (y0 + w)) = vec_dtype v /\
  forall k, vec_at (vec_slice v y0 (y0 + w)) k = vec_at v (y0 + k)%nat.
Proof.
  intros H. unfold vec_slice. rewrite clip_inside by assumption. simpl.
  split; [lia|]. split; reflexivity.
Qed.

Lemma iadd_slice_added (res x : vector) (lo len : nat) :
  (lo + len <= vec_len res)%nat -> vec_len x = len ->
  (kind (vec_dtype x) <= kind (vec_dtype res))%nat ->
  exists res', iadd_slice res lo (lo + len) x = Return res' /\
               added res res' lo len (vec_at x).
Proof.
  intros Hlo Hx Hk. unfold iadd_slice.
  replace (can_cast_same_kind (result_type (vec_dtype res) (vec_dtype x))
                              (vec_dtype res)) with true
    by (symmetry; apply can_cast_kind; rewrite kind_result_type; lia).
  rewrite clip_inside by assumption.
  replace (lo + len - lo)%nat with len by lia.
  unfold broadcastable. rewrite Hx, Nat.eqb_refl. simpl.
  eexists. split; [reflexivity|].
  split; [reflexivity|]. split; [reflexivity|].
  intros i. simpl.
  destruct ((lo <=? i)%nat && (i <? lo + len)%nat) eqn:E; [|lia].
  apply andb_true_iff in E as [E1 E2].
  apply Nat.leb_le in E1. apply Nat.ltb_lt in E2.
  destruct (Nat.eqb_spec len 1); do 2 f_equal; lia.
Qed.

Lemma added_nothing (res : vector) (lo len : nat) (val : nat -> Z) :
  (forall i, (i < len)%nat -> val i = 0) -> added res res lo len val.
Proof.
  intros H. split; [reflexivity|]. split; [reflexivity|]. intros i.
  destruct ((lo <=? i)%nat && (i <? lo + len)%nat) eqn:E; [|lia].
  apply andb_true_iff in E as [E1 E2].
  apply Nat.leb_le in E1. apply Nat.ltb_lt in E2.
  rewrite H by lia. lia.
Qed.

(** Two additions on one segment add up. *)
Lemma added_twice (r0 r1 r2 : vector) (lo len : nat) (v1 v2 v : nat -> Z) :
  added r0 r1 lo len v1 -> added r1 r2 lo len v2 ->
  (forall i, (i < len)%nat -> v i = v1 i + v2 i) ->
  added r0 r2 lo len v.
Proof.
  intros (L1 & D1 & E1) (L2 & D2 & E2) Hv.
  split; [congruence|]. split; [congruence|].
  intros i. rewrite E2, E1.
  destruct ((lo <=? i)%nat && (i <? lo + len)%nat) eqn:E; [|lia].
  apply andb_true_iff in E as [F1 F2].
  apply Nat.leb_le in F1. apply Nat.ltb_lt in F2.
  rewrite Hv by lia. lia.
Qed.

(** Additions on two consecutive segments make one addition. *)
Lemma added_join (r0 r1 r2 : vector) (lo len1 len2 : nat) (v1 v2 v : nat -> Z) :
  added r0 r1 lo len1 v1 -> added r1 r2 (lo + len1) len2 v2 ->
  (forall i, (i < len1)%nat -> v i = v1 i) ->
  (forall i, (len1 <= i < len1 + len2)%nat -> v i = v2 (i - len1)%nat) ->
  added r0 r2 lo (len1 + len2) v.
Proof.
  intros (L1 & D1 & E1) (L2 & D2 & E2) Hv1 Hv2.
  split; [congruence|]. split; [congruence|].
  intros i. rewrite E2, E1.
  destruct (Nat.leb_spec lo i), (Nat.ltb_spec i (lo + len1)),
    (Nat.leb_spec (lo + len1) i), (Nat.ltb_spec i (lo + len1 + len2)),
    (Nat.ltb_spec i (lo + (len1 + len2))); simpl; try lia.
  - rewrite Hv1 by lia. lia.
  - rewrite Hv2 by lia. replace (i - lo - len1)%nat with (i - (lo + len1))%nat by lia.
    lia.
Qed.

Section MatvecLoops.
Variables (d : dtype) (other : vector).
Hypothesis castable : can_cast_same_kind d (vec_dtype other) = true.

Lemma product_dtype_kind (b : block) :
  block_dtype b = d ->
  (kind (product_dtype b (vec_dtype other)) <= kind (vec_dtype other))%nat.
Proof.
  intros Hd. apply can_cast_kind in castable.
  destruct b; simpl in *; [|lia]. rewrite kind_result_type. subst d. lia.
Qed.

Lemma matvec_line (lp lh : nat) (line : list block) :
  forall ws,
    all (fun b => valid b -> multiplies b) line ->
    all2 (slot_ok d lh) line ws ->
    forall y0 res,
      (lp + lh <= vec_len res)%nat -> (y0 + sum_nat ws <= vec_len other)%nat ->
      vec_dtype res = vec_dtype other ->
      exists res',
        zip_fold_acc
          (fun block col_position col_width result =>
             x <- block_matvec block
                    (vec_slice other col_position (col_position + col_width)) ;;
             iadd_slice result lp (lp + lh) x)
          line y0 ws res
        = Return res' /\
        added res res' lp lh
              (fun i => big_sum (sum_nat ws)
                          (fun k => pick (fun b' k' => entry b' i k') line ws k
                                    * vec_at other (y0 + k)%nat)).
Proof.
  induction line as [|b line IH]; intros [|w ws] Hall Hfit y0 res Hl Hc Hd;
    simpl in Hfit; try contradiction.
  - exists res. split; [reflexivity|]. apply added_nothing. reflexivity.
  - destruct Hall as [Hb Hall]. destruct Hfit as [(Hshape & Hdt & Hv) Hfit].
    simpl in Hc.
    destruct (@vec_slice_inside other y0 w ltac:(lia)) as (Sl & Sd & Se).
    destruct (Hb Hv (vec_slice other y0 (y0 + w)) lh w Hshape Sl
                ltac:(rewrite Hdt, Sd; exact castable))
      as (x & Ex & Lx & Dx & Vx).
    destruct (@iadd_slice_added res x lp lh Hl Lx) as (res1 & E1 & A1).
    { rewrite Dx, Sd, Hd. now apply product_dtype_kind. }
    assert (Hl1 : (lp + lh <= vec_len res1)%nat) by (destruct A1 as [-> _]; exact Hl).
    assert (Hd1 : vec_dtype res1 = vec_dtype other)
      by (destruct A1 as (_ & -> & _); exact Hd).
    destruct (IH ws Hall Hfit (y0 + w)%nat res1 Hl1 ltac:(lia) Hd1)
      as (res2 & E2 & A2).
    exists res2. split.
    + simpl. rewrite Ex. simpl. rewrite E1. simpl. exact E2.
    + eapply added_twice; [exact A1|exact A2|].
      intros i Hi. simpl sum_nat. rewrite big_sum_app. f_equal.
      * rewrite Vx by assumption. apply big_sum_ext. intros k Hk.
        rewrite Se. simpl. apply Nat.ltb_lt in Hk. now rewrite Hk.
      * apply big_sum_ext. intros k Hk. simpl.
        destruct (Nat.ltb_spec (w + k) w); [lia|].
        replace (w + k - w)%nat with k by lia.
        replace (y0 + (w + k))%nat with (y0 + w + k)%nat by lia. reflexivity.
Qed.

Lemma matvec_grid (ws : list nat) (g : list (list block)) :
  forall hs,
    all (all (fun b => valid b -> multiplies b)) g ->
    all2 (fun line h => all2 (slot_ok d h) line ws) g hs ->
    forall x0 res,
      (x0 + sum_nat hs <= vec_len res)%nat -> (sum_nat ws <= vec_len other)%nat ->
      vec_dtype res = vec_dtype other ->
      exists res',
        zip_fold_acc
          (fun line line_position line_height result =>
             zip_fold_acc
               (fun block col_position col_width result =>
                  x <- block_matvec block
                         (vec_slice other col_position (col_position + col_width)) ;;
                  iadd_slice result line_position (line_position + line_height) x)
               line 0%nat ws result)
          g x0 hs res
        = Return res' /\
        added res res' x0 (sum_nat hs)
              (fun i => big_sum (sum_nat ws)
                          (fun k => pick (fun line i' =>
                                            pick (fun b' k' => entry b' i' k') line ws k)
                                         g hs i
                                    * vec_at other k)).
Proof.
  induction g as [|line g IH]; intros [|h hs] Hall Hfit x0 res Hl Hc Hd;
    simpl in Hfit; try contradiction.
  - exists res. split; [reflexivity|]. apply added_nothing.
    intros i _. simpl. clear. induction (sum_nat ws); simpl; lia.
  - destruct Hall as [Hline Hall]. destruct Hfit as [Hlfit Hfit]. simpl in Hl.
    destruct (@matvec_line x0 h line ws Hline Hlfit 0%nat res ltac:(lia) ltac:(lia) Hd)
      as (res1 & E1 & A1).
    assert (Hl1 : (x0 + h + sum_nat hs <= vec_len res1)%nat)
      by (destruct A1 as [-> _]; lia).
    assert (Hd1 : vec_dtype res1 = vec_dtype other)
      by (destruct A1 as (_ & -> & _); exact Hd).
    destruct (IH hs Hall Hfit (x0 + h)%nat res1 Hl1 Hc Hd1) as (res2 & E2 & A2).
    exists res2. split.
    + simpl. rewrite E1. simpl. exact E2.
    + eapply added_join; [exact A1|exact A2| |].
      * intros i Hi. apply big_sum_ext. intros k _. simpl.
        apply Nat.ltb_lt in Hi. now rewrite Hi.
      * intros i Hi. apply big_sum_ext. intros k _. simpl.
        destruct (Nat.ltb_spec i h); [lia|reflexivity].
Qed.
End MatvecLoops.

(** Every valid slot is multiplied as the product owes. *)
Lemma valid_multiplies (b : block) : valid b -> multiplies b.
Proof.
  induction b as [a|g nb bs s d IH] using block_ind'; intros Hv.
  - intros v h w Hshape Hlen Hcast. simpl in Hshape.
    simpl. unfold nd_matvec. rewrite Hshape, Hlen, Nat.eqb_refl.
    eexists. split; [reflexivity|]. simpl.
    split; [reflexivity|]. split; [reflexivity|]. intros i _. reflexivity.
  - apply valid_Node_unfold in Hv as (Hh & Hw & _ & -> & Hfit).
    intros v h w Hshape Hlen Hcast. simpl in Hshape, Hcast.
    injection Hshape as <- <-.
    destruct (@matvec_grid d v Hcast (snd bs) g (fst bs) IH Hfit 0%nat
                (vec_zeros (sum_nat (fst bs)) (vec_dtype v))
                ltac:(simpl; lia) ltac:(lia) eq_refl)
      as (res & E & (L & D & V)).
    exists res. split; [exact E|]. split; [exact L|]. split; [exact D|].
    intros i Hi. rewrite V. simpl.
    destruct (Nat.ltb_spec i (sum_nat (fst bs))); [|lia].
    now rewrite Nat.sub_0_r.
Qed.

(** When the element type of the vector does not accept that of the tree,
    the first accumulation [result[...] += ...] is refused. *)
Lemma uncastable_raises (b : block) :
  valid b ->
  forall v h w,
    block_shape b = [h; w] -> vec_len v = w ->
    can_cast_same_kind (block_dtype b) (vec_dtype v) = false ->
    match b with
    | Leaf _ => True
    | Node _ _ _ _ _ => block_matvec b v = Raise TypeError
    end.
Proof.
  induction b as [a|g nb bs s d IH] using block_ind'; intros Hv; [trivial|].
  apply valid_Node_unfold in Hv as (Hh & Hw & _ & -> & Hfit).
  intros v h w Hshape Hlen Hcast. simpl in Hshape, Hcast.
  injection Hshape as <- <-.
  destruct bs as [[|h0 hs] [|w0 ws]]; simpl in Hh, Hw; try congruence.
  destruct g as [|line0 g']; simpl in Hfit; [contradiction|].
  destruct Hfit as [Hl0 _]. destruct IH as [IHl _].
  destruct line0 as [|b0 line0]; simpl in Hl0; [contradiction|].
  destruct Hl0 as [(Hshape0 & Hd0 & Hv0) _].
  destruct IHl as [IH0 _]. simpl in Hlen.
  destruct (@vec_slice_inside v 0 w0 ltac:(lia)) as (Sl & Sd & _).
  change (0 + w0)%nat with w0 in Sl, Sd. simpl. destruct b0 as [a0|g0 nb0 bs0 s0 d0].
  - simpl in Hshape0, Hd0. simpl. unfold nd_matvec.
    rewrite Hshape0, Sl, Nat.eqb_refl, Sd. simpl.
    unfold iadd_slice. simpl.
    replace (can_cast_same_kind
               (result_type (vec_dtype v) (result_type (nd_dtype a0) (vec_dtype v)))
               (vec_dtype v)) with false; [reflexivity|].
    symmetry. subst d. revert Hcast. clear.
    destruct (nd_dtype a0), (vec_dtype v); cbv; congruence.
  - specialize (IH0 Hv0 (vec_slice v 0 w0) h0 w0 Hshape0 Sl).
    rewrite Sd in IH0. simpl in Hd0. subst d. cbn [block_dtype] in IH0.
    specialize (IH0 Hcast).
    rewrite IH0. reflexivity.
Qed.

(** C7, as the code has it.  For a valid tree [B] and a vector [v] of
    length [B.shape[1]] whose element type accepts that of [B] (same-kind
    cast), [B.matvec(v)] returns, its length is [B.shape[0]], and it is the
    conventional product of the flattened tree by [v]: each block-row adds
    the contributions of its blocks into its own segment of the output. *)
Theorem matvec_is_dense_product (junk : nat -> nat -> Z) (B : BlockMatrix) (v : vector) :
  valid_tree B ->
  vec_len v = snd (shape B) ->
  can_cast_same_kind (dtype_of B) (vec_dtype v) = true ->
  exists r f, matvec B v = Return r /\
              full_matrix junk B = Return f /\
              vec_len r = fst (shape B) /\
              vec_list r = dense_matvec f v.
Proof.
  intros Hv Hlen Hcast.
  destruct (@valid_multiplies (as_block B) Hv v (fst (shape B)) (snd (shape B))
              eq_refl Hlen Hcast) as (r & Er & Lr & _ & Vr).
  destruct (full_matrix_valid junk Hv) as (f & Ef & Sf & _ & Vf).
  exists r, f. split; [exact Er|]. split; [exact Ef|]. split; [exact Lr|].
  unfold vec_list, dense_matvec. rewrite Lr, Sf. simpl.
  apply map_ext_in. intros i Hi. apply in_seq in Hi.
  rewrite Vr by lia. apply big_sum_ext. intros k Hk.
  rewrite Vf by lia. reflexivity.
Qed.

Lemma matvec_is_dense_product_witness :
  exists r f, matvec Samples.square SampleVectors.real3 = Return r /\
              full_matrix SampleVectors.no_junk Samples.square = Return f /\
              vec_len r = fst (shape Samples.square) /\
              vec_list r = dense_matvec f SampleVectors.real3.
Proof.
  apply (@matvec_is_dense_product SampleVectors.no_junk Samples.square
           SampleVectors.real3).
  - prove_valid.
  - reflexivity.
  - reflexivity.
Defined.

(** The claim C7 as stated fails on a complex tree and a real vector:
    the flattened product exists (it is [[6]]), the call raises. *)
Lemma matvec_complex_tree_real_vector :
  valid_tree Samples.complex_one /\
  vec_len SampleVectors.real1 = snd (shape Samples.complex_one) /\
  matvec Samples.complex_one SampleVectors.real1 = Raise TypeError /\
  (exists f, full_matrix SampleVectors.no_junk Samples.complex_one = Return f /\
             dense_matvec f SampleVectors.real1 = [6]) /\
  ~ (exists r f, matvec Samples.complex_one SampleVectors.real1 = Return r /\
                 full_matrix SampleVectors.no_junk Samples.complex_one = Return f /\
                 vec_list r = dense_matvec f SampleVectors.real1).
Proof.
  split; [prove_valid|]. split; [reflexivity|]. split; [run|].
  split; [eexists; split; run|].
  intros (r & f & Hr & _). vm_compute in Hr. discriminate Hr.
Qed.

(** C2, as the code has it.  For a valid tree [B] and a vector [v] of
    length [B.shape[1]]: when the element type of [v] accepts that of [B]
    (same-kind cast), [B.matvec(v)] returns a vector that has the element
    type of [v]; otherwise the call raises a [TypeError]. *)
Theorem matvec_dtype_is_vector_dtype (B : BlockMatrix) (v : vector) :
  valid_tree B ->
  vec_len v = snd (shape B) ->
  match matvec B v with
  | Return r => can_cast_same_kind (dtype_of B) (vec_dtype v) = true /\
                vec_dtype r = vec_dtype v
  | Raise e => can_cast_same_kind (dtype_of B) (vec_dtype v) = false /\
               e = TypeError
  | _ => False
  end.
Proof.
  intros Hv Hlen.
  destruct (can_cast_same_kind (dtype_of B) (vec_dtype v)) eqn:Hcast.
  - destruct (@valid_multiplies (as_block B) Hv v (fst (shape B)) (snd (shape B))
                eq_refl Hlen Hcast) as (r & Er & _ & Dr & _).
    unfold matvec. rewrite Er. split; [reflexivity|exact Dr].
  - pose proof (@uncastable_raises (as_block B) Hv v (fst (shape B)) (snd (shape B))
                  eq_refl Hlen Hcast) as E.
    change (block_matvec (as_block B) v = Raise TypeError) in E.
    unfold matvec. rewrite E. split; reflexivity.
Qed.

Lemma matvec_dtype_is_vector_dtype_witness :
  match matvec Samples.square SampleVectors.single3 with
  | Return r => can_cast_same_kind (dtype_of Samples.square)
                                   (vec_dtype SampleVectors.single3) = true /\
                vec_dtype r = vec_dtype SampleVectors.single3
  | Raise e => can_cast_same_kind (dtype_of Samples.square)
                                  (vec_dtype SampleVectors.single3) = false /\
               e = TypeError
  | _ => False
  end.
Proof.
  apply (@matvec_dtype_is_vector_dtype Samples.square SampleVectors.single3).
  - prove_valid.
  - reflexivity.
Defined.

(** The claim C2 as stated fails on its own example, a complex tree and a
    real vector: no result comes back, of the promoted type or of any. *)
Lemma matvec_complex_by_real_not_promoted :
  valid_tree Samples.complex_one /\
  vec_len SampleVectors.real1 = snd (shape Samples.complex_one) /\
  result_type (dtype_of Samples.complex_one) (vec_dtype SampleVectors.real1)
  = complex128 /\
  ~ (exists r, matvec Samples.complex_one SampleVectors.real1 = Return r /\
               vec_dtype r = result_type (dtype_of Samples.complex_one)
                                         (vec_dtype SampleVectors.real1)).
Proof.
  split; [prove_valid|]. split; [reflexivity|]. split; [reflexivity|].
  intros (r & Hr & _). vm_compute in Hr. discriminate Hr.
Qed.

(** A result that is returned need not have the promoted type either: a
    double-precision tree times a single-precision vector is returned in
    single precision. *)
Lemma matvec_single_vector_not_promoted :
  valid_tree Samples.square /\
  result_type (dtype_of Samples.square) (vec_dtype SampleVectors.single3) = float64 /\
  exists r, matvec Samples.square SampleVectors.single3 = Return r /\
            vec_dtype r = float32.
Proof.
  split; [prove_valid|]. split; [reflexivity|].
  eexists. split; [run|reflexivity].
Qed.

(** ** Inequality *)


Lemma nb_eqb_refl (nb : nat * nat) : nb_eqb nb nb = true.
Proof. unfold nb_eqb. now rewrite !Nat.eqb_refl. Qed.


Section NeLoops.
Variable d : dtype.


End NeLoops.

Lemma all_of_all2_l (A B : Type) (R : A -> B -> Prop) (P : A -> Prop) :
  (forall x y, R x y -> P x) ->
  forall l l', all2 R l l' -> all P l.
Proof.
  intros HR. induction l as [|x l IH]; intros [|y l'] H; simpl in *;
    try contradiction; [exact I|].
  destruct H as [H1 H2]. split; [eapply HR; eauto|eapply IH; eauto].
Qed.






(** The differences of [square] and [square_bis], flattened. *)
Lemma ne_square_flattened (junk : nat -> nat -> Z) :
  (r <- __ne__ Samples.square (as_block Samples.square_bis) ;;
   m <- as_BlockMatrix r ;;
   f <- full_matrix junk m ;;
   Return (nd_view f))
  = Return ([3; 3]%nat, [[0; 1; 0]; [0; 1; 0]; [0; 0; 0]]).
Proof. run. Qed.


(** Why the tree has to be one that nested lists give.  [one_row] holds a
    2 x 2 leaf beside a 2 x 1 leaf: it is valid, and it can only be stored
    from an array of objects built by hand, since [np.asarray] refuses the
    nested list of its slots.  [==] and [!=] hand such a nested list to the
    constructor, and raise. *)
Lemma ne_one_height_raises :
  valid_tree Samples.one_row /\
  same_layout (as_block Samples.one_row) (as_block Samples.one_row) /\
  BlockMatrix_init (stored_array (all_blocks Samples.one_row)) None true
  = Return Samples.one_row /\
  BlockMatrix_init (nested_list (all_blocks Samples.one_row)) None true
  = Raise ValueError /\
  __eq__ Samples.one_row (as_block Samples.one_row) = Raise ValueError /\
  __ne__ Samples.one_row (as_block Samples.one_row) = Raise ValueError.
Proof.
  split; [prove_valid|]. split; [prove_valid|]. split; [run|]. split; [run|].
  split; run.
Qed.

(** * Further properties of the class *)

(** ** What the validating constructor establishes *)

Lemma all_In (A : Type) (P : A -> Prop) (l : list A) (x : A) :
  all P l -> In x l -> P x.
Proof.
  induction l as [|y l IH]; simpl; [tauto|].
  intros [Hy Hl] [<-|Hx]; auto.
Qed.



Lemma valid_slot_2d (b : block) : valid b -> slot_2d b.
Proof. destruct b; simpl; [auto|reflexivity]. Qed.



Lemma dtype_eqb_eq (a b : dtype) : dtype_eqb a b = true <-> a = b.
Proof. destruct a, b; simpl; split; congruence. Qed.









(** ** Rebuilding a valid tree *)

Lemma all2_nth (A B : Type) (R : A -> B -> Prop) (l : list A) :
  forall l' j x, all2 R l l' -> nth_error l j = Some x ->
                 exists y, nth_error l' j = Some y /\ R x y.
Proof.
  induction l as [|a l IH]; intros [|b l'] j x H Hj; simpl in H; try contradiction.
  - destruct j; discriminate.
  - destruct H as [Hab H]. destruct j as [|j]; simpl in *.
    + injection Hj as <-. eauto.
    + eapply IH; eauto.
Qed.

Lemma all2_In (A B : Type) (R : A -> B -> Prop) (l : list A) :
  forall l' x, all2 R l l' -> In x l -> exists y, In y l' /\ R x y.
Proof.
  intros l' x H Hx. apply In_nth_error in Hx as [j Hj].
  destruct (all2_nth _ _ _ _ H Hj) as (y & Hy & Hxy).
  exists y. split; [eapply nth_error_In; eauto|assumption].
Qed.

Lemma column_members_nth (g : list (list block)) (j : nat) (b : block) :
  In b (flat_map (fun l => match nth_error l j with Some x => [x] | None => [] end) g) ->
  exists line, In line g /\ nth_error line j = Some b.
Proof.
  intros H. apply in_flat_map in H as [line [Hl Hb]].
  exists line. split; [assumption|].
  destruct (nth_error line j) as [x|] eqn:E; simpl in Hb; [|tauto].
  destruct Hb as [<-|[]]. reflexivity.
Qed.

Lemma uniformb_const (axis e : nat) (line : list block) :
  (forall b, In b line -> extent axis b = e) -> uniformb axis line = true.
Proof.
  intros H. destruct line as [|b0 rest]; [reflexivity|]. simpl.
  apply forallb_forall. intros b Hb. apply Nat.eqb_eq.
  rewrite (H b0 (or_introl eq_refl)). apply H. now right.
Qed.

Lemma slot_ok_extents d h b w :
  slot_ok d h b w -> extent 0 b = h /\ extent 1 b = w /\ slot_2d b.
Proof.
  intros (Hs & _ & _). unfold extent, slot_2d. rewrite Hs. auto.
Qed.

Section FittedGrid.
Variables (d : dtype) (ws : list nat).
Hypothesis ws_not_empty : ws <> [].

Lemma fitted_line_not_empty h (line : list block) :
  all2 (slot_ok d h) line ws -> line <> [].
Proof. destruct line, ws; simpl; congruence || tauto. Qed.

Lemma fitted_widths h (line : list block) :
  forall l, all2 (slot_ok d h) line l -> map (extent 1) line = l.
Proof.
  induction line as [|b line IH]; intros [|w l] H; simpl in H; try contradiction.
  - reflexivity.
  - destruct H as [Hb H]. simpl. f_equal; [apply (slot_ok_extents Hb)|now apply IH].
Qed.

Lemma fitted_heights (g : list (list block)) :
  forall hs, all2 (fun line h => all2 (slot_ok d h) line ws) g hs ->
             map (fun line => extent 0 (hd (Leaf py_False) line)) g = hs.
Proof.
  induction g as [|line g IH]; intros [|h hs] H; simpl in H; try contradiction.
  - reflexivity.
  - destruct H as [Hl H]. simpl. f_equal; [|now apply IH].
    destruct line as [|b line]; [exfalso; eapply fitted_line_not_empty; eauto|].
    destruct ws as [|w ws']; [contradiction|]. simpl in Hl.
    apply (slot_ok_extents (proj1 Hl)).
Qed.

Lemma fitted_rectangular (g : list (list block)) (hs : list nat) :
  hs <> [] -> all2 (fun line h => all2 (slot_ok d h) line ws) g hs ->
  rectangular g /\ grid_2d g /\ length (hd [] g) = length ws.
Proof.
  intros Hhs H.
  assert (Hlen : forall line, In line g -> length line = length ws).
  { intros line Hl. destruct (all2_In _ _ _ _ H Hl) as (h & _ & Hfit).
    eapply all2_length; eauto. }
  destruct g as [|line0 g]; [destruct hs; simpl in H; [congruence|contradiction]|].
  assert (L0 : length line0 = length ws) by (apply Hlen; now left).
  split; [|split; [|exact L0]].
  - split; [discriminate|]. simpl. split.
    + rewrite L0. destruct ws; simpl; congruence.
    + apply Forall_forall. intros line Hl. rewrite L0. now apply Hlen.
  - apply Forall_forall. intros line Hl. apply Forall_forall. intros b Hb.
    destruct (all2_In _ _ _ _ H Hl) as (h & _ & Hfit).
    destruct (all2_In _ _ _ _ Hfit Hb) as (w & _ & Hok).
    apply (slot_ok_extents Hok).
Qed.

Lemma fitted_checks (g : list (list block)) (hs : list nat) :
  all2 (fun line h => all2 (slot_ok d h) line ws) g hs ->
  forallb (uniformb 0) g = true /\
  forallb (uniformb 1) (moveaxis_1_0 g) = true /\
  _check_dtype g d = true.
Proof.
  intros H. split; [|split].
  - apply forallb_forall. intros line Hl.
    destruct (all2_In _ _ _ _ H Hl) as (h & _ & Hfit).
    apply uniformb_const with (e := h). intros b Hb.
    destruct (all2_In _ _ _ _ Hfit Hb) as (w & _ & Hok).
    apply (slot_ok_extents Hok).
  - apply forallb_forall. intros col Hcol. unfold moveaxis_1_0 in Hcol.
    apply in_map_iff in Hcol as [j [<- _]].
    apply uniformb_const with (e := nth j ws 0%nat). intros b Hb.
    apply column_members_nth in Hb as (line & Hl & Hj).
    destruct (all2_In _ _ _ _ H Hl) as (h & _ & Hfit).
    destruct (all2_nth _ _ _ _ Hfit Hj) as (w & Hw & Hok).
    rewrite (nth_error_nth _ _ _ Hw). apply (slot_ok_extents Hok).
  - unfold _check_dtype. apply forallb_forall. intros line Hl.
    apply forallb_forall. intros b Hb.
    destruct (all2_In _ _ _ _ H Hl) as (h & _ & Hfit).
    destruct (all2_In _ _ _ _ Hfit Hb) as (w & _ & (_ & Hd & _)).
    now apply dtype_eqb_eq.
Qed.
End FittedGrid.

(** X2.  A valid tree is a fixed point of the validating constructor:
    rebuilt from its own grid, with the partition derived again from the
    first block-column and the first block-row and with every check run,
    it comes back attribute for attribute. *)
Theorem valid_tree_rebuilt (m : BlockMatrix) :
  valid_tree m ->
  BlockMatrix_init (stored_array (all_blocks m)) None true = Return m.
Proof.
  destruct m as [g nb [hs ws] s d]. unfold valid_tree, as_block, all_blocks. simpl.
  intros (Hh & Hw & -> & -> & Hfit).
  destruct (@fitted_rectangular d ws Hw g hs Hh Hfit) as (Hr & H2 & L0).
  destruct (@fitted_checks d ws g hs Hfit) as (Ur & Uc & Ud).
  destruct (derived_shapes_2d Hr H2) as [Eh Ew].
  destruct (grid_first_rectangular Hr) as (b0 & line0 & rows & E).
  assert (Hb0 : slot_ok d (hd 0%nat hs) b0 (hd 0%nat ws)).
  { subst g. destruct hs as [|h0 hs]; [contradiction|]. destruct Hfit as [Hl _].
    destruct ws as [|w0 ws]; [contradiction|]. apply Hl. }
  destruct Hb0 as (Hs0 & Hd0 & Hv0).
  unfold BlockMatrix_init. cbn [np_asarray bind].
  rewrite Eh, Ew, (check_dimensions_2d Hr H2), Ur, Uc.
  rewrite (@fitted_heights d ws Hw g hs Hfit).
  assert (Hg0 : grid_first g = Return b0) by (subst g; reflexivity).
  rewrite Hg0. simpl.
  rewrite (slot_2d_ndim (valid_slot_2d b0 Hv0)). simpl.
  rewrite Hd0, Ud. simpl.
  assert (Ews : map (extent 1) (hd [] g) = ws).
  { subst g. destruct hs as [|h0 hs]; [contradiction|]. destruct Hfit as [Hl _].
    exact (@fitted_widths d h0 (b0 :: line0) ws Hl). }
  rewrite Ews, L0, (all2_length _ _ _ Hfit). reflexivity.
Qed.

Lemma valid_tree_rebuilt_witness :
  BlockMatrix_init (stored_array (all_blocks Samples.nested)) None true = Return Samples.nested.
Proof.
  apply (@valid_tree_rebuilt Samples.nested). prove_valid.
Defined.

(** ** Flattening, again *)

(** X3.  Flattening a valid tree overwrites every entry of the array that
    [np.empty] hands out: whatever the memory held, the result has the
    declared shape and element type and the same entries. *)
Theorem full_matrix_ignores_uninitialised_memory
    (junk junk' : nat -> nat -> Z) (m : BlockMatrix) :
  valid_tree m ->
  exists f f', full_matrix junk m = Return f /\
               full_matrix junk' m = Return f' /\
               nd_shape f = [fst (shape m); snd (shape m)] /\
               nd_dtype f = dtype_of m /\
               nd_view f = nd_view f'.
Proof.
  intros Hv.
  destruct (full_matrix_valid junk Hv) as (f & Ef & Sf & Df & Vf).
  destruct (full_matrix_valid junk' Hv) as (f' & Ef' & Sf' & _ & Vf').
  exists f, f'. repeat (split; [assumption|]).
  unfold nd_view, nd_rows. rewrite Sf, Sf'. f_equal. simpl.
  apply map_ext_in. intros i Hi. apply in_seq in Hi.
  apply map_ext_in. intros j Hj. apply in_seq in Hj.
  rewrite Vf, Vf' by lia. reflexivity.
Qed.

Lemma full_matrix_ignores_uninitialised_memory_witness :
  exists f f', full_matrix (fun _ _ => 0) Samples.nested = Return f /\
               full_matrix (fun i j => Z.of_nat (i + j)) Samples.nested = Return f' /\
               nd_shape f = [fst (shape Samples.nested); snd (shape Samples.nested)] /\
               nd_dtype f = dtype_of Samples.nested /\
               nd_view f = nd_view f'.
Proof.
  apply (@full_matrix_ignores_uninitialised_memory
           (fun _ _ => 0) (fun i j => Z.of_nat (i + j)) Samples.nested).
  prove_valid.
Defined.

(** X4.  Nesting commutes with flattening.  Written by
    [_put_in_full_matrix] at an anchor [(r, c)] of an array of its own
    element type in which it fits, a valid tree overwrites its own frame
    with exactly the entries of its own [full_matrix()], and leaves every
    other entry as it was. *)
Theorem put_in_full_matrix_writes_own_frame
    (junk : nat -> nat -> Z) (m : BlockMatrix) (full : ndarray) (r c Hf Wf : nat) :
  valid_tree m ->
  nd_dtype full = dtype_of m ->
  nd_shape full = [Hf; Wf] ->
  (r + fst (shape m) <= Hf)%nat -> (c + snd (shape m) <= Wf)%nat ->
  exists full' f,
    _put_in_full_matrix m full (r, c) = Return full' /\
    full_matrix junk m = Return f /\
    nd_shape full' = nd_shape full /\
    nd_dtype full' = nd_dtype full /\
    forall i j, nd_at full' i j
                = if in_frame r c (fst (shape m)) (snd (shape m)) i j
                  then nd_at f (i - r)%nat (j - c)%nat
                  else nd_at full i j.
Proof.
  intros Hv _ Hs Hr Hc.
  destruct (full_matrix_valid junk Hv) as (f & Ef & _ & _ & Vf).
  destruct (@valid_puts (as_block m) Hv full r c (fst (shape m)) (snd (shape m))
              Hf Wf eq_refl Hs Hr Hc) as (full' & E & (S1 & D1 & E1)).
  exists full', f. split; [|split; [exact Ef|split; [exact S1|split; [exact D1|]]]].
  - unfold _put_in_full_matrix.
    change (full'0 <- zip_fold_grid put_slot (_stored_blocks m)
                        (_stored_block_positions (_stored_block_shapes m) (r, c)) full ;;
            copy_first_appearance (r, c) (fst (shape m)) (snd (shape m)) [] full'0
            = Return full') in E.
    destruct (zip_fold_grid put_slot (_stored_blocks m)
                (_stored_block_positions (_stored_block_shapes m) (r, c)) full)
      as [x| | |e]; simpl in E; congruence.
  - intros i j. rewrite E1.
    destruct (in_frame r c (fst (shape m)) (snd (shape m)) i j) eqn:F; [|reflexivity].
    apply in_frame_true in F. rewrite Vf by lia. reflexivity.
Qed.

Lemma put_in_full_matrix_writes_own_frame_witness :
  exists full' f,
    _put_in_full_matrix Samples.square
      (mk_ndarray [5; 4]%nat float64 (fun _ _ => 0)) (2, 1)%nat = Return full' /\
    full_matrix (fun _ _ => 0) Samples.square = Return f /\
    nd_shape full' = [5; 4]%nat /\
    nd_dtype full' = float64 /\
    forall i j, nd_at full' i j
                = if in_frame 2 1 (fst (shape Samples.square))
                              (snd (shape Samples.square)) i j
                  then nd_at f (i - 2)%nat (j - 1)%nat
                  else 0.
Proof.
  apply (@put_in_full_matrix_writes_own_frame (fun _ _ => 0) Samples.square
           (mk_ndarray [5; 4]%nat float64 (fun _ _ => 0)) 2 1 5 4).
  - prove_valid.
  - reflexivity.
  - reflexivity.
  - simpl. lia.
  - simpl. lia.
Defined.

(** ** The position enumerator *)

Lemma offsets_length (l : list nat) (acc : nat) : length (offsets acc l) = length l.
Proof. revert acc. induction l; intros; simpl; auto. Qed.

Lemma offsets_nth (l : list nat) :
  forall acc i, (i < length l)%nat ->
                nth_error (offsets acc l) i = Some (acc + sum_nat (firstn i l))%nat.
Proof.
  induction l as [|x l IH]; intros acc i Hi; simpl in Hi; [lia|].
  destruct i as [|i]; simpl.
  - f_equal. lia.
  - rewrite IH by lia. f_equal. lia.
Qed.

Lemma flat_map_length_const (A B : Type) (f : A -> list B) (n : nat) (l : list A) :
  (forall x, length (f x) = n) -> length (flat_map f l) = (length l * n)%nat.
Proof.
  intros Hf. induction l as [|x l IH]; simpl; [reflexivity|].
  rewrite length_app, Hf, IH. reflexivity.
Qed.

Lemma flat_map_nth_const (A B : Type) (f : A -> list B) (n : nat) (l : list A) :
  (forall x, length (f x) = n) ->
  forall i j x, nth_error l i = Some x -> (j < n)%nat ->
                nth_error (flat_map f l) (i * n + j) = nth_error (f x) j.
Proof.
  intros Hf. induction l as [|y l IH]; intros i j x Hi Hj.
  - destruct i; discriminate.
  - destruct i as [|i]; simpl in Hi.
    + injection Hi as ->. simpl. apply nth_error_app1. now rewrite Hf.
    + simpl flat_map. rewrite nth_error_app2 by (rewrite Hf; simpl; lia).
      rewrite Hf. replace (S i * n + j - n)%nat with (i * n + j)%nat by (simpl; lia).
      now apply IH.
Qed.

(** X5.  Over a non-empty partition, [_stored_block_positions] yields one
    list per slot, in row-major order, and each list holds one anchor: the
    frame origin moved by the heights of the block-rows above and by the
    widths of the block-columns to the left. *)
Theorem stored_block_positions_are_prefix_sums
    (hs ws : list nat) (r c i j : nat) :
  hs <> [] -> ws <> [] ->
  (i < length hs)%nat -> (j < length ws)%nat ->
  length (_stored_block_positions (hs, ws) (r, c)) = (length hs * length ws)%nat /\
  nth_error (_stored_block_positions (hs, ws) (r, c)) (i * length ws + j)
  = Some [((r + sum_nat (firstn i hs))%nat, (c + sum_nat (firstn j ws))%nat)].
Proof.
  intros Hh Hw Hi Hj. unfold _stored_block_positions. simpl.
  rewrite !starts_from_offsets by assumption.
  set (f := fun x : nat => map (fun y : nat => [((r + x)%nat, (c + y)%nat)]) (offsets 0 ws)).
  assert (Hf : forall x, length (f x) = length ws).
  { intros x. unfold f. now rewrite length_map, offsets_length. }
  split.
  - rewrite (flat_map_length_const f _ Hf), offsets_length. reflexivity.
  - rewrite (flat_map_nth_const f _ Hf i (x := sum_nat (firstn i hs)))
      by (rewrite ?offsets_nth by assumption; auto).
    unfold f. rewrite nth_error_map, offsets_nth by assumption. reflexivity.
Qed.

Lemma stored_block_positions_are_prefix_sums_witness :
  length (_stored_block_positions ([2; 1], [4; 2; 3])%nat (10, 20)%nat) = (2 * 3)%nat /\
  nth_error (_stored_block_positions ([2; 1], [4; 2; 3])%nat (10, 20)%nat) (1 * 3 + 2)
  = Some [((10 + sum_nat (firstn 1 [2; 1]))%nat, (20 + sum_nat (firstn 2 [4; 2; 3]))%nat)].
Proof.
  apply (@stored_block_positions_are_prefix_sums [2; 1]%nat [4; 2; 3]%nat 10 20 1 2).
  - discriminate.
  - discriminate.
  - simpl. lia.
  - simpl. lia.
Defined.

(** ** The matrix-vector product and the length of the vector *)

(** X6.  [matvec] never checks the length of its operand.  On a valid tree
    and a vector at least as long as [shape[1]] (of an element type that
    accepts the tree's), it returns the product of the flattened tree by
    the first [shape[1]] entries of the vector: the entries beyond are
    never read. *)
Theorem matvec_ignores_tail (junk : nat -> nat -> Z) (B : BlockMatrix) (v : vector) :
  valid_tree B ->
  (snd (shape B) <= vec_len v)%nat ->
  can_cast_same_kind (dtype_of B) (vec_dtype v) = true ->
  exists r f, matvec B v = Return r /\
              full_matrix junk B = Return f /\
              vec_len r = fst (shape B) /\
              vec_dtype r = vec_dtype v /\
              vec_list r = dense_matvec f (vec_slice v 0 (snd (shape B))).
Proof.
  intros Hv Hlen Hcast.
  destruct (full_matrix_valid junk Hv) as (f & Ef & Sf & _ & Vf).
  destruct B as [g nb bs s d]. unfold valid_tree, as_block in Hv. simpl in *.
  pose proof Hv as Hv'.
  apply valid_Node_unfold in Hv as (Hh & Hw & _ & -> & Hfit).
  simpl in *.
  destruct (@matvec_grid d v Hcast (snd bs) g (fst bs)
              (all_of_forall _ _ (fun l => all_of_forall _ l
                                             (fun b Hb => valid_multiplies b Hb)))
              Hfit 0%nat (vec_zeros (sum_nat (fst bs)) (vec_dtype v))
              ltac:(simpl; lia) Hlen eq_refl)
    as (res & E & (L & D & V)).
  exists res, f. split; [exact E|]. split; [exact Ef|].
  split; [exact L|]. split; [exact D|].
  assert (Se : forall k, vec_at (vec_slice v 0 (sum_nat (snd bs))) k = vec_at v k).
  { destruct (@vec_slice_inside v 0 (sum_nat (snd bs)) ltac:(lia)) as (_ & _ & Se).
    exact Se. }
  unfold vec_list, dense_matvec. rewrite L, Sf. cbn [nth].
  apply map_ext_in. intros i Hi. apply in_seq in Hi.
  rewrite V. cbn [vec_zeros vec_at].
  destruct (Nat.leb_spec 0 i); [|lia].
  destruct (Nat.ltb_spec i (0 + sum_nat (fst bs))); [|lia].
  cbn [andb]. rewrite Nat.sub_0_r, Z.add_0_l.
  apply big_sum_ext. intros k Hk.
  rewrite Vf by (simpl; lia). rewrite Se. reflexivity.
Qed.

Lemma matvec_ignores_tail_witness :
  exists r f,
    matvec Samples.square (vec_of_list float64 [1; 10; 100; 7; 7]) = Return r /\
    full_matrix SampleVectors.no_junk Samples.square = Return f /\
    vec_len r = fst (shape Samples.square) /\
    vec_dtype r = float64 /\
    vec_list r = dense_matvec f (vec_slice (vec_of_list float64 [1; 10; 100; 7; 7]) 0
                                           (snd (shape Samples.square))).
Proof.
  apply (@matvec_ignores_tail SampleVectors.no_junk Samples.square
           (vec_of_list float64 [1; 10; 100; 7; 7])).
  - prove_valid.
  - simpl. lia.
  - reflexivity.
Defined.

Lemma vec_slice_clipped (v : vector) (y0 w : nat) :
  (y0 <= vec_len v < y0 + w)%nat ->
  vec_len (vec_slice v y0 (y0 + w)) = (vec_len v - y0)%nat /\
  vec_dtype (vec_slice v y0 (y0 + w)) = vec_dtype v.
Proof.
  intros H. unfold vec_slice, clip.
  replace (Nat.min y0 (vec_len v)) with y0 by lia.
  replace (Nat.max y0 (Nat.min (y0 + w) (vec_len v))) with (vec_len v) by lia.
  simpl. auto.
Qed.

Section ShortVector.
Variables (d : dtype) (other : vector).
Hypothesis castable : can_cast_same_kind d (vec_dtype other) = true.

Lemma short_line (lp lh : nat) (line : list block) :
  forall ws,
    all refuses_short line ->
    all2 (slot_ok d lh) line ws ->
    forall y0 res,
      (lp + lh <= vec_len res)%nat -> vec_dtype res = vec_dtype other ->
      (y0 <= vec_len other < y0 + sum_nat ws)%nat ->
      zip_fold_acc
        (fun block col_position col_width result =>
           x <- block_matvec block
                  (vec_slice other col_position (col_position + col_width)) ;;
           iadd_slice result lp (lp + lh) x)
        line y0 ws res
      = Raise ValueError.
Proof.
  induction line as [|b line IH]; intros [|w ws] Hall Hfit y0 res Hl Hd Hy;
    simpl in Hfit; try contradiction.
  - simpl in Hy. lia.
  - destruct Hall as [Hb Hall]. destruct Hfit as [(Hshape & Hdt & Hv) Hfit].
    simpl in Hy. cbn [zip_fold_acc].
    destruct (Nat.le_gt_cases (y0 + w) (vec_len other)) as [Hin|Hout].
    + destruct (@vec_slice_inside other y0 w Hin) as (Sl & Sd & _).
      destruct (@valid_multiplies b Hv (vec_slice other y0 (y0 + w)) lh w Hshape Sl
                  ltac:(rewrite Hdt, Sd; exact castable))
        as (x & Ex & Lx & Dx & _).
      destruct (@iadd_slice_added res x lp lh Hl Lx) as (res1 & E1 & A1).
      { rewrite Dx, Sd, Hd. now apply product_dtype_kind with (d := d). }
      rewrite Ex. cbn [bind]. rewrite E1. cbn [bind].
      apply IH; try assumption.
      * destruct A1 as [-> _]. exact Hl.
      * destruct A1 as (_ & -> & _). exact Hd.
      * lia.
    + destruct (@vec_slice_clipped other y0 w ltac:(lia)) as (Sl & Sd).
      rewrite (Hb Hv (vec_slice other y0 (y0 + w)) lh w Hshape ltac:(lia)
                  ltac:(rewrite Hdt, Sd; exact castable)).
      reflexivity.
Qed.
End ShortVector.

Lemma valid_refuses_short (b : block) : refuses_short b.
Proof.
  induction b as [a|g nb bs s d IH] using block_ind'; intros Hv v h w Hshape Hlen Hcast.
  - simpl in Hshape. simpl. unfold nd_matvec. rewrite Hshape.
    destruct (Nat.eqb_spec w (vec_len v)); [lia|reflexivity].
  - apply valid_Node_unfold in Hv as (Hh & Hw & _ & -> & Hfit).
    simpl in Hshape, Hcast. injection Hshape as <- <-.
    destruct bs as [[|h0 hs] ws]; simpl in Hh; [congruence|].
    destruct g as [|line0 g']; simpl in Hfit; [contradiction|].
    destruct Hfit as [Hl0 _]. destruct IH as [IHl _].
    unfold _compute_shape. cbn [block_matvec fst snd zip_fold_acc].
    rewrite (@short_line d v Hcast 0 h0 line0 ws IHl Hl0 0%nat
               (vec_zeros (sum_nat (h0 :: hs)) (vec_dtype v))
               ltac:(simpl; lia) eq_refl ltac:(simpl in Hlen; lia)).
    reflexivity.
Qed.

(** X7.  On a valid tree and a vector shorter than [shape[1]] (of an
    element type that accepts the tree's), [matvec] raises the [ValueError]
    of numpy's product on the first leaf whose segment of the vector is cut
    short. *)
Theorem matvec_short_vector_raises (B : BlockMatrix) (v : vector) :
  valid_tree B ->
  (vec_len v < snd (shape B))%nat ->
  can_cast_same_kind (dtype_of B) (vec_dtype v) = true ->
  matvec B v = Raise ValueError.
Proof.
  intros Hv Hlen Hcast.
  exact (@valid_refuses_short (as_block B) Hv v (fst (shape B)) (snd (shape B))
           eq_refl Hlen Hcast).
Qed.

Lemma matvec_short_vector_raises_witness :
  matvec Samples.nested (vec_of_list float64 [1; 10]) = Raise ValueError.
Proof.
  apply (@matvec_short_vector_raises Samples.nested (vec_of_list float64 [1; 10])).
  - prove_valid.
  - simpl. lia.
  - reflexivity.
Defined.

(** ** Elementwise unary operations on a valid tree *)

Lemma pick_related (A : Type) (cont cont' : A -> nat -> Z) (phi : Z -> Z)
    (l : list A) :
  forall l' exts,
    all3 (fun x x' e => forall k, (k < e)%nat -> cont' x' k = phi (cont x k)) l l' exts ->
    forall k, (k < sum_nat exts)%nat ->
              pick cont' l' exts k = phi (pick cont l exts k).
Proof.
  induction l as [|x l IH]; intros [|x' l'] [|e exts] H k Hk; simpl in H;
    try contradiction.
  - simpl in Hk. lia.
  - destruct H as [Hx H]. simpl in *.
    destruct (Nat.ltb_spec k e); [now apply Hx|].
    apply IH; [assumption|lia].
Qed.

Section UnaryMapProof.
Variables (leaf_op : ndarray -> outcome ndarray) (phi : Z -> Z) (d d' : dtype).

Lemma map_line (h : nat) (line : list block) :
  forall ws,
    all (maps_slot leaf_op phi d d') line ->
    all2 (slot_ok d h) line ws ->
    all (fun b => from_lists b) line ->
    exists line',
      mapM (block_map leaf_op) line = Return line' /\
      all2 (slot_ok d' h) line' ws /\
      all3 (fun b b' w => alike b b' /\ from_lists b' /\
                          forall i j, (i < h)%nat -> (j < w)%nat ->
                                      entry b' i j = phi (entry b i j))
           line line' ws.
Proof.
  induction line as [|b line IH]; intros [|w ws] Hall Hfit Hfl; simpl in Hfit;
    try contradiction.
  - exists []. simpl. auto.
  - destruct Hall as [Hb Hall]. destruct Hfit as [Hok Hfit]. destruct Hfl as [Hfb Hfl].
    destruct (slot_ok_extents Hok) as (E0 & E1 & _).
    destruct Hok as (Hshape & Hd & Hv).
    destruct (Hb Hv Hfb Hd) as (b' & Eb & Hv' & Hf' & Ha' & Hs' & Hd' & He).
    destruct (IH ws Hall Hfit Hfl) as (line' & El & Hfit' & Hrel).
    exists (b' :: line'). simpl. rewrite Eb. simpl. rewrite El. simpl.
    split; [reflexivity|]. split; [split; [|assumption]|split; [|assumption]].
    + split; [congruence|]. split; assumption.
    + split; [assumption|]. split; [assumption|].
      intros i j Hi Hj. apply He; lia.
Qed.

Lemma map_grid (ws : list nat) (g : list (list block)) :
  forall hs,
    all (all (maps_slot leaf_op phi d d')) g ->
    all2 (fun line h => all2 (slot_ok d h) line ws) g hs ->
    all (all (fun b => from_lists b)) g ->
    exists g',
      mapM (mapM (block_map leaf_op)) g = Return g' /\
      all2 (fun line h => all2 (slot_ok d' h) line ws) g' hs /\
      all3 (fun line line' h =>
              all3 (fun b b' w => alike b b' /\ from_lists b' /\
                                  forall i j, (i < h)%nat -> (j < w)%nat ->
                                              entry b' i j = phi (entry b i j))
                   line line' ws)
           g g' hs.
Proof.
  induction g as [|line g IH]; intros [|h hs] Hall Hfit Hfl; simpl in Hfit;
    try contradiction.
  - exists []. simpl. auto.
  - destruct Hall as [Hline Hall]. destruct Hfit as [Hlfit Hfit].
    destruct Hfl as [Hfline Hfl].
    destruct (@map_line h line ws Hline Hlfit Hfline) as (line' & El & Hfit' & Hrel).
    destruct (IH hs Hall Hfit Hfl) as (g' & Eg & Hgfit & Hgrel).
    exists (line' :: g'). simpl. rewrite El. simpl. rewrite Eg. simpl.
    split; [reflexivity|]. split; split; assumption.
Qed.

Lemma all2_of_all3_12 (A B C : Type) (R : A -> B -> C -> Prop) (R' : A -> B -> Prop) :
  (forall x y z, R x y z -> R' x y) ->
  forall l l' l'', all3 R l l' l'' -> all2 R' l l'.
Proof.
  intros HR. induction l as [|x l IH]; intros [|y l'] [|z l''] H; simpl in *;
    try contradiction; [exact I|].
  destruct H as [H1 H2]. split; [eapply HR; eauto|eapply IH; eauto].
Qed.

Lemma all_of_all3_m (A B C : Type) (R : A -> B -> C -> Prop) (P : B -> Prop) :
  (forall x y z, R x y z -> P y) ->
  forall l l' l'', all3 R l l' l'' -> all P l'.
Proof.
  intros HR. induction l as [|x l IH]; intros [|y l'] [|z l''] H; simpl in *;
    try contradiction; [exact I|].
  destruct H as [H1 H2]. split; [eapply HR; eauto|eapply IH; eauto].
Qed.

(** The grid of a valid partition, rebuilt from the nested list of its
    slots when [np.asarray] keeps that list. *)
Lemma init_unchecked_kept (d0 : dtype) (g' : list (list block)) (bs : list nat * list nat) :
  fst bs <> [] -> snd bs <> [] ->
  all2 (fun line h => all2 (slot_ok d0 h) line (snd bs)) g' (fst bs) ->
  np_asarray (nested_list g') = Return g' ->
  BlockMatrix_init (nested_list g') (Some bs) false
  = Return (mk_BlockMatrix g' (length (fst bs), length (snd bs)) bs
                           (_compute_shape bs) d0).
Proof.
  intros Hh Hw Hfit' Harr.
  destruct (@fitted_rectangular d0 (snd bs) Hw g' (fst bs) Hh Hfit') as (Hr & H2 & L0).
  destruct (grid_first_rectangular Hr) as (b0 & line0 & rows & E).
  assert (Hb0 : slot_ok d0 (hd 0%nat (fst bs)) b0 (hd 0%nat (snd bs))).
  { subst g'. destruct (fst bs) as [|h0 hs]; [contradiction|]. destruct Hfit' as [Hl _].
    destruct (snd bs) as [|w0 ws]; [contradiction|]. apply Hl. }
  destruct Hb0 as (_ & Hd0 & Hv0).
  unfold BlockMatrix_init. rewrite Harr. cbn [bind].
  rewrite <- L0, <- (all2_length _ _ _ Hfit').
  subst g'. simpl.
  rewrite (slot_2d_ndim (valid_slot_2d b0 Hv0)). simpl. now rewrite Hd0.
Qed.

Lemma map_node g nb bs s :
  all (all (maps_slot leaf_op phi d d')) g ->
  valid (Node g nb bs s d) ->
  from_lists (Node g nb bs s d) ->
  exists m',
    _apply_unary_op (block_map leaf_op) (mk_BlockMatrix g nb bs s d) = Return m' /\
    valid_tree m' /\ from_lists (as_block m') /\
    all2 (all2 alike) g (_stored_blocks m') /\
    _stored_nb_blocks m' = nb /\ _stored_block_shapes m' = bs /\
    shape m' = s /\ dtype_of m' = d' /\
    forall i j, (i < fst s)%nat -> (j < snd s)%nat ->
                entry (as_block m') i j = phi (entry (Node g nb bs s d) i j).
Proof.
  intros IH Hv Hfl.
  apply valid_Node_unfold in Hv as (Hh & Hw & Hnb & Hs & Hfit).
  assert (Hfl' : np_asarray (nested_list g) = Return g /\
                 all (all (fun b => from_lists b)) g) by exact Hfl.
  destruct Hfl' as [Harr Hflg].
  destruct (@map_grid (snd bs) g (fst bs) IH Hfit Hflg) as (g' & Eg & Hfit' & Hrel).
  assert (Hal : all2 (all2 alike) g g').
  { revert Hrel. apply all2_of_all3_12. intros l l' h. apply all2_of_all3_12. tauto. }
  assert (Hfl2 : all (all (fun b => from_lists b)) g').
  { revert Hrel. apply all_of_all3_m. intros l l' h. apply all_of_all3_m. tauto. }
  assert (Harr' : np_asarray (nested_list g') = Return g').
  { apply asarray_keeps_alike with (d' := d') (g := g); [exact Hal|eauto|].
    revert Hfit'. apply all_of_all2_l. intros l h. apply all_of_all2_l.
    intros b w (_ & Hd & _). exact Hd. }
  exists (mk_BlockMatrix g' (length (fst bs), length (snd bs)) bs (_compute_shape bs) d').
  split.
  { unfold _apply_unary_op. simpl _stored_blocks. rewrite Eg. cbn [bind].
    simpl _stored_block_shapes. now apply init_unchecked_kept. }
  split.
  { unfold valid_tree, as_block. simpl.
    split; [assumption|]. split; [assumption|].
    split; [congruence|]. split; [reflexivity|exact Hfit']. }
  split; [split; assumption|]. split; [exact Hal|].
  simpl. split; [congruence|]. split; [reflexivity|]. split; [congruence|].
  split; [reflexivity|].
  intros i j Hi Hj. subst s. simpl in Hi, Hj.
  apply pick_related with (cont := fun line i' =>
                             pick (fun b j' => entry b i' j') line (snd bs) j);
    [|exact Hi].
  eapply all3_impl; [|exact Hrel]. intros line line' h Hl k Hk.
  apply pick_related with (cont := fun b j' => entry b k j'); [|exact Hj].
  eapply all3_impl; [|exact Hl]. intros b b' w (_ & _ & Hb) k' Hk'. now apply Hb.
Qed.

(** When every leaf of element type [d] is mapped as [phi] says, so is
    every valid slot. *)
Lemma map_valid_slots :
  (forall a, nd_dtype a = d ->
             exists a', leaf_op a = Return a' /\
                        nd_shape a' = nd_shape a /\ nd_dtype a' = d' /\
                        forall i j, nd_at a' i j = phi (nd_at a i j)) ->
  forall b, maps_slot leaf_op phi d d' b.
Proof.
  intros Hleaf.
  induction b as [a|g nb bs s d0 IH] using block_ind'; intros Hv Hfl Hd.
  - simpl in Hd. destruct (Hleaf a Hd) as (a' & Ea & Sa & Da & Va).
    exists (Leaf a'). simpl. rewrite Ea. simpl in *.
    split; [reflexivity|]. split; [congruence|]. split; [exact I|].
    split; [congruence|].
    split; [exact Sa|]. split; [exact Da|]. intros i j _ _. apply Va.
  - simpl in Hd. subst d0.
    destruct (@map_node g nb bs s IH Hv Hfl)
      as (m' & Em & Vm & Fm & _ & Nm & Bm & Sm & Dm & Em').
    exists (as_block m').
    change (block_map leaf_op (Node g nb bs s d))
      with (r <- _apply_unary_op (block_map leaf_op) (mk_BlockMatrix g nb bs s d) ;;
            Return (as_block r)).
    rewrite Em. split; [reflexivity|]. split; [exact Vm|].
    split; [exact Fm|]. split; [exact I|].
    split; [simpl; now rewrite Sm|]. split; [exact Dm|].
    intros i j Hi Hj. apply Em'; assumption.
Qed.

(** When every leaf of element type [d] is refused, so is every valid
    slot of that type: the error comes from the first leaf reached. *)
Lemma map_refused (e : exn) :
  (forall a, nd_dtype a = d -> leaf_op a = Raise e) ->
  forall b, valid b -> block_dtype b = d -> block_map leaf_op b = Raise e.
Proof.
  intros Hleaf.
  induction b as [a|g nb bs s d0 IH] using block_ind'; intros Hv Hd.
  - simpl in *. now rewrite (Hleaf a Hd).
  - simpl in Hd. subst d0.
    apply valid_Node_unfold in Hv as (Hh & Hw & _ & _ & Hfit).
    destruct (fst bs) as [|h0 hs]; [contradiction|].
    destruct (snd bs) as [|w0 ws]; [contradiction|].
    destruct g as [|line0 g']; simpl in Hfit; [contradiction|].
    destruct Hfit as [Hl0 _]. destruct IH as [IHl _].
    destruct line0 as [|b0 line0]; simpl in Hl0; [contradiction|].
    destruct Hl0 as [(_ & Hd0 & Hv0) _]. destruct IHl as [IH0 _].
    change (block_map leaf_op (Node ((b0 :: line0) :: g') nb bs s d))
      with (r <- _apply_unary_op (block_map leaf_op)
                   (mk_BlockMatrix ((b0 :: line0) :: g') nb bs s d) ;;
            Return (as_block r)).
    unfold _apply_unary_op. simpl. rewrite (IH0 Hv0 Hd0). reflexivity.
Qed.
End UnaryMapProof.

Lemma nd_neg_leaf (d : dtype) :
  d <> bool_ ->
  forall a, nd_dtype a = d ->
            exists a', nd_neg a = Return a' /\
                       nd_shape a' = nd_shape a /\ nd_dtype a' = d /\
                       forall i j, nd_at a' i j = neg_entry d (nd_at a i j).
Proof.
  intros Hd a Ha. unfold nd_neg. rewrite Ha.
  destruct d; try contradiction; eexists; (split; [reflexivity|]); simpl; auto.
Qed.

(** The flattened images of a tree and of its image under an elementwise
    map. *)
Lemma flattened_map (junk : nat -> nat -> Z) (phi : Z -> Z) (B N : BlockMatrix) :
  valid_tree B -> valid_tree N -> shape N = shape B ->
  (forall i j, (i < fst (shape B))%nat -> (j < snd (shape B))%nat ->
               entry (as_block N) i j = phi (entry (as_block B) i j)) ->
  exists f fN, full_matrix junk B = Return f /\
               full_matrix junk N = Return fN /\
               nd_shape fN = nd_shape f /\
               forall i j, (i < fst (shape B))%nat -> (j < snd (shape B))%nat ->
                           nd_at fN i j = phi (nd_at f i j).
Proof.
  intros HB HN Hs He.
  destruct (full_matrix_valid junk HB) as (f & Ef & Sf & _ & Vf).
  destruct (full_matrix_valid junk HN) as (fN & EfN & SfN & _ & VfN).
  exists f, fN. split; [exact Ef|]. split; [exact EfN|].
  split; [rewrite Sf, SfN, Hs; reflexivity|].
  intros i j Hi Hj. rewrite VfN, Vf by (rewrite ?Hs; assumption).
  now apply He.
Qed.

(** X8.  On a valid tree stored from nested lists, [-B] raises a
    [TypeError] when the tree is boolean (numpy refuses to negate
    booleans); otherwise it returns a valid tree, stored the same way, with
    the grid, partition, shape and element type of [B], whose flattening
    is the opposite of the flattening of [B], entry by entry (64-bit
    integers wrap around). *)
Theorem neg_negates_every_entry (junk : nat -> nat -> Z) (B : BlockMatrix) :
  valid_tree B -> from_lists (as_block B) ->
  match __neg__ B with
  | Return N =>
      dtype_of B <> bool_ /\ valid_tree N /\ from_lists (as_block N) /\
      nb_blocks N = nb_blocks B /\ block_shapes N = block_shapes B /\
      shape N = shape B /\ dtype_of N = dtype_of B /\
      exists f fN, full_matrix junk B = Return f /\
                   full_matrix junk N = Return fN /\
                   nd_shape fN = nd_shape f /\
                   forall i j, (i < fst (shape B))%nat -> (j < snd (shape B))%nat ->
                               nd_at fN i j = neg_entry (dtype_of B) (nd_at f i j)
  | Raise e => dtype_of B = bool_ /\ e = TypeError
  | _ => False
  end.
Proof.
  intros Hv Hfl. destruct B as [g nb bs s d]. unfold __neg__.
  destruct (dtype_eqb d bool_) eqn:Hd.
  - apply dtype_eqb_eq in Hd. subst d.
    pose proof (@map_refused nd_neg bool_ TypeError
                  ltac:(intros a Ha; unfold nd_neg; now rewrite Ha)
                  (Node g nb bs s bool_) Hv eq_refl) as E.
    change (r <- _apply_unary_op (block_map nd_neg) (mk_BlockMatrix g nb bs s bool_) ;;
            Return (as_block r) = Raise TypeError) in E.
    destruct (_apply_unary_op (block_map nd_neg) (mk_BlockMatrix g nb bs s bool_))
      as [x| | |e]; simpl in E; try discriminate.
    injection E as ->. auto.
  - assert (Hne : d <> bool_).
    { intros ->. discriminate. }
    assert (IH : all (all (maps_slot nd_neg (neg_entry d) d d)) g).
    { apply all_of_forall. intros l. apply all_of_forall.
      apply map_valid_slots. now apply nd_neg_leaf. }
    destruct (@map_node nd_neg (neg_entry d) d d g nb bs s IH Hv Hfl)
      as (N & EN & VN & FN & _ & Nn & Bn & Sn & Dn & En).
    rewrite EN. split; [exact Hne|]. split; [exact VN|]. split; [exact FN|].
    split; [exact Nn|]. split; [exact Bn|]. split; [exact Sn|]. split; [exact Dn|].
    apply flattened_map with (phi := neg_entry d); try assumption.
Qed.

Lemma neg_negates_every_entry_witness :
  match __neg__ Samples.nested with
  | Return N =>
      dtype_of Samples.nested <> bool_ /\ valid_tree N /\ from_lists (as_block N) /\
      nb_blocks N = nb_blocks Samples.nested /\
      block_shapes N = block_shapes Samples.nested /\
      shape N = shape Samples.nested /\ dtype_of N = dtype_of Samples.nested /\
      exists f fN, full_matrix SampleVectors.no_junk Samples.nested = Return f /\
                   full_matrix SampleVectors.no_junk N = Return fN /\
                   nd_shape fN = nd_shape f /\
                   forall i j, (i < fst (shape Samples.nested))%nat ->
                               (j < snd (shape Samples.nested))%nat ->
                               nd_at fN i j
                               = neg_entry (dtype_of Samples.nested) (nd_at f i j)
  | Raise e => dtype_of Samples.nested = bool_ /\ e = TypeError
  | _ => False
  end.
Proof.
  apply (@neg_negates_every_entry SampleVectors.no_junk Samples.nested).
  - prove_valid.
  - prove_valid.
Defined.

(** ** The sum of two trees *)

Lemma layout_shapes_line d1 d2 h1 h2 (line1 : list block) :
  forall line2 ws1 ws2,
    all same_shape_slot line1 ->
    all2 (slot_ok d1 h1) line1 ws1 -> all2 (slot_ok d2 h2) line2 ws2 ->
    all2 (fun x y => same_layout x y) line1 line2 ->
    (line1 <> [] -> h1 = h2) /\ ws1 = ws2.
Proof.
  induction line1 as [|b1 line1 IH]; intros [|b2 line2] [|w1 ws1] [|w2 ws2]
    Hall H1 H2 Hlay; simpl in H1, H2, Hlay; try contradiction.
  - split; [congruence|reflexivity].
  - destruct Hall as [Hb Hall]. destruct H1 as [(S1 & _ & V1) H1].
    destruct H2 as [(S2 & _ & V2) H2]. destruct Hlay as [Hl Hlay].
    pose proof (Hb b2 V1 V2 Hl) as E. rewrite S1, S2 in E. injection E as -> ->.
    destruct (IH line2 ws1 ws2 Hall H1 H2 Hlay) as [_ ->]. auto.
Qed.

Lemma layout_shapes_grid d1 d2 ws1 ws2 (g1 : list (list block)) :
  ws1 <> [] ->
  forall g2 hs1 hs2,
    all (all same_shape_slot) g1 ->
    all2 (fun line h => all2 (slot_ok d1 h) line ws1) g1 hs1 ->
    all2 (fun line h => all2 (slot_ok d2 h) line ws2) g2 hs2 ->
    all2 (all2 (fun x y => same_layout x y)) g1 g2 ->
    hs1 = hs2 /\ (g1 <> [] -> ws1 = ws2).
Proof.
  intros Hw.
  induction g1 as [|line1 g1 IH]; intros [|line2 g2] [|h1 hs1] [|h2 hs2]
    Hall H1 H2 Hlay; simpl in H1, H2, Hlay; try contradiction.
  - split; [reflexivity|congruence].
  - destruct Hall as [Hline Hall]. destruct H1 as [Hl1 H1].
    destruct H2 as [Hl2 H2]. destruct Hlay as [Hl Hlay].
    destruct (@layout_shapes_line d1 d2 h1 h2 line1 line2 ws1 ws2 Hline Hl1 Hl2 Hl)
      as [Eh Ew].
    destruct (IH g2 hs1 hs2 Hall H1 H2 Hlay) as [-> _].
    rewrite Eh by (eapply fitted_line_not_empty; eauto). auto.
Qed.

Lemma same_layout_same_shape (b : block) : same_shape_slot b.
Proof.
  induction b as [a|g nb bs s d IH] using block_ind'; intros b2 Hv1 Hv2 Hlay.
  - destruct b2; simpl in Hlay; [exact Hlay|contradiction].
  - destruct b2 as [c|g2 nb2 bs2 s2 d2]; simpl in Hlay; [contradiction|].
    destruct Hlay as [_ Hlay].
    apply valid_Node_unfold in Hv1 as (Hh1 & Hw1 & _ & -> & H1).
    apply valid_Node_unfold in Hv2 as (Hh2 & Hw2 & _ & -> & H2).
    destruct (@layout_shapes_grid d d2 (snd bs) (snd bs2) g Hw1 g2 (fst bs) (fst bs2)
                IH H1 H2 Hlay) as [Eh Ew].
    assert (Hg : g <> []).
    { intros ->. destruct (fst bs); simpl in H1; [congruence|contradiction]. }
    simpl. unfold _compute_shape. simpl. rewrite Eh, (Ew Hg). reflexivity.
Qed.

(** Two valid trees of the same layout have the same partition. *)
Lemma same_layout_same_partition g1 nb1 bs1 s1 d1 g2 nb2 bs2 s2 d2 :
  valid (Node g1 nb1 bs1 s1 d1) -> valid (Node g2 nb2 bs2 s2 d2) ->
  same_layout (Node g1 nb1 bs1 s1 d1) (Node g2 nb2 bs2 s2 d2) ->
  bs1 = bs2.
Proof.
  intros Hv1 Hv2 [_ Hlay].
  apply valid_Node_unfold in Hv1 as (Hh1 & Hw1 & _ & _ & H1).
  apply valid_Node_unfold in Hv2 as (Hh2 & Hw2 & _ & _ & H2).
  destruct (@layout_shapes_grid d1 d2 (snd bs1) (snd bs2) g1 Hw1 g2 (fst bs1) (fst bs2)
              (all_of_forall _ _ (fun l => all_of_forall _ l same_layout_same_shape))
              H1 H2 Hlay) as [Eh Ew].
  assert (Hg : g1 <> []).
  { intros ->. destruct (fst bs1); simpl in H1; [congruence|contradiction]. }
  destruct bs1, bs2. simpl in *. rewrite Eh, (Ew Hg). reflexivity.
Qed.

Lemma nd_map2_same_shape (d : dtype) (f : Z -> Z -> Z) (a c : ndarray) (h w : nat) :
  nd_shape a = [h; w] -> nd_shape c = [h; w] ->
  exists r, nd_map2 d f a c = Some r /\
            nd_shape r = [h; w] /\ nd_dtype r = d /\
            forall i j, (i < h)%nat -> (j < w)%nat ->
                        nd_at r i j = f (nd_at a i j) (nd_at c i j).
Proof.
  intros Ha Hc. unfold nd_map2, nd_ndim. rewrite Ha, Hc. simpl.
  unfold compatible. rewrite !Nat.eqb_refl. simpl.
  eexists. split; [reflexivity|]. simpl. split; [|split; [reflexivity|]].
  - unfold broadcast_extent.
    destruct (Nat.eqb_spec h 1), (Nat.eqb_spec w 1); congruence.
  - intros i j Hi Hj.
    replace (broadcast_index h i) with i
      by (unfold broadcast_index; destruct (Nat.eqb_spec h 1); lia).
    replace (broadcast_index w j) with j
      by (unfold broadcast_index; destruct (Nat.eqb_spec w 1); lia).
    reflexivity.
Qed.

Lemma add_entry_zero (d : dtype) : add_entry d 0 0 = 0.
Proof. destruct d; reflexivity. Qed.

Lemma pick_add (A B C : Type) (f : Z -> Z -> Z) (c1 : A -> nat -> Z) (c2 : B -> nat -> Z)
    (cs : C -> nat -> Z) (l1 : list A) :
  f 0 0 = 0 ->
  forall l2 ls exts,
    all4 (fun x y s e => forall k, (k < e)%nat -> cs s k = f (c1 x k) (c2 y k))
         l1 l2 ls exts ->
    forall k, pick cs ls exts k = f (pick c1 l1 exts k) (pick c2 l2 exts k).
Proof.
  intros Hf.
  induction l1 as [|x l1 IH]; intros [|y l2] [|s ls] [|e exts] H k; simpl in H;
    try contradiction.
  - simpl. now rewrite Hf.
  - destruct H as [Hx H]. simpl.
    destruct (Nat.ltb_spec k e); [now apply Hx|now apply IH].
Qed.

Lemma all4_impl (A B C D : Type) (R R' : A -> B -> C -> D -> Prop) :
  (forall x y z t, R x y z t -> R' x y z t) ->
  forall l1 l2 l3 l4, all4 R l1 l2 l3 l4 -> all4 R' l1 l2 l3 l4.
Proof.
  intros HR. induction l1 as [|x l1 IH]; intros [|y l2] [|z l3] [|t l4] H;
    simpl in *; try contradiction; [exact I|].
  destruct H as [H1 H2]. split; [now apply HR|now apply IH].
Qed.

Lemma all2_of_all4_13 (A B C D : Type) (R : A -> B -> C -> D -> Prop)
    (R' : A -> C -> Prop) :
  (forall x y z t, R x y z t -> R' x z) ->
  forall l1 l2 l3 l4, all4 R l1 l2 l3 l4 -> all2 R' l1 l3.
Proof.
  intros HR. induction l1 as [|x l1 IH]; intros [|y l2] [|z l3] [|t l4] H;
    simpl in *; try contradiction; [exact I|].
  destruct H as [H1 H2]. split; [eapply HR; eauto|eapply IH; eauto].
Qed.

Lemma all_of_all4_3 (A B C D : Type) (R : A -> B -> C -> D -> Prop) (P : C -> Prop) :
  (forall x y z t, R x y z t -> P z) ->
  forall l1 l2 l3 l4, all4 R l1 l2 l3 l4 -> all P l3.
Proof.
  intros HR. induction l1 as [|x l1 IH]; intros [|y l2] [|z l3] [|t l4] H;
    simpl in *; try contradiction; [exact I|].
  destruct H as [H1 H2]. split; [eapply HR; eauto|eapply IH; eauto].
Qed.

Section AddLoops.
Variables d1 d2 : dtype.

Lemma add_line (h : nat) (line1 : list block) :
  forall line2 ws,
    all adds_slot line1 ->
    all2 (slot_ok d1 h) line1 ws -> all2 (slot_ok d2 h) line2 ws ->
    all (fun b => from_lists b) line1 ->
    all2 (fun x y => same_layout x y) line1 line2 ->
    exists ls,
      zipM block_add line1 line2 = Return ls /\
      all2 (slot_ok (result_type d1 d2) h) ls ws /\
      all4 (fun b1 b2 s w => alike b1 s /\ from_lists s /\
                             forall i j, (i < h)%nat -> (j < w)%nat ->
                                         entry s i j
                                         = add_entry (result_type d1 d2)
                                                     (entry b1 i j) (entry b2 i j))
           line1 line2 ls ws.
Proof.
  induction line1 as [|b1 line1 IH]; intros [|b2 line2] [|w ws] Hall H1 H2 Hfl Hlay;
    simpl in H1, H2, Hlay; try contradiction.
  - exists []. simpl. auto.
  - destruct Hall as [Hb Hall]. destruct H1 as [Hok1 H1].
    destruct H2 as [(S2 & D2 & V2) H2]. destruct Hlay as [Hl Hlay].
    destruct Hfl as [Hfb Hfl].
    destruct (slot_ok_extents Hok1) as (E0 & E1 & _).
    destruct Hok1 as (S1 & D1 & V1).
    destruct (Hb b2 V1 Hfb V2 Hl) as (s & Es & Vs & Fs & As & Ss & Ds & Vals).
    destruct (IH line2 ws Hall H1 H2 Hfl Hlay) as (ls & Els & Hfit & Hrel).
    exists (s :: ls). simpl. rewrite Es. simpl. rewrite Els. simpl.
    split; [reflexivity|]. split; [split; [|assumption]|split; [|assumption]].
    + split; [congruence|]. split; [congruence|assumption].
    + split; [assumption|]. split; [assumption|].
      intros i j Hi Hj. rewrite <- D1, <- D2. apply Vals; lia.
Qed.

Lemma add_grid (ws : list nat) (g1 : list (list block)) :
  forall g2 hs,
    all (all adds_slot) g1 ->
    all2 (fun line h => all2 (slot_ok d1 h) line ws) g1 hs ->
    all2 (fun line h => all2 (slot_ok d2 h) line ws) g2 hs ->
    all (all (fun b => from_lists b)) g1 ->
    all2 (all2 (fun x y => same_layout x y)) g1 g2 ->
    exists gs,
      zipM (zipM block_add) g1 g2 = Return gs /\
      all2 (fun line h => all2 (slot_ok (result_type d1 d2) h) line ws) gs hs /\
      all4 (fun line1 line2 ls h =>
              all4 (fun b1 b2 s w => alike b1 s /\ from_lists s /\
                                     forall i j, (i < h)%nat -> (j < w)%nat ->
                                                 entry s i j
                                                 = add_entry (result_type d1 d2)
                                                             (entry b1 i j) (entry b2 i j))
                   line1 line2 ls ws)
           g1 g2 gs hs.
Proof.
  induction g1 as [|line1 g1 IH]; intros [|line2 g2] [|h hs] Hall H1 H2 Hfl Hlay;
    simpl in H1, H2, Hlay; try contradiction.
  - exists []. simpl. auto.
  - destruct Hall as [Hline Hall]. destruct H1 as [Hl1 H1].
    destruct H2 as [Hl2 H2]. destruct Hlay as [Hl Hlay]. destruct Hfl as [Hfline Hfl].
    destruct (@add_line h line1 line2 ws Hline Hl1 Hl2 Hfline Hl)
      as (ls & Els & Hfit & Hrel).
    destruct (IH g2 hs Hall H1 H2 Hfl Hlay) as (gs & Egs & Hgfit & Hgrel).
    exists (ls :: gs). simpl. rewrite Els. simpl. rewrite Egs. simpl.
    split; [reflexivity|]. split; split; assumption.
Qed.
End AddLoops.

Lemma add_node g1 nb1 bs1 s1 d1 g2 nb2 bs2 s2 d2 :
  all (all adds_slot) g1 ->
  valid (Node g1 nb1 bs1 s1 d1) -> from_lists (Node g1 nb1 bs1 s1 d1) ->
  valid (Node g2 nb2 bs2 s2 d2) ->
  same_layout (Node g1 nb1 bs1 s1 d1) (Node g2 nb2 bs2 s2 d2) ->
  exists m,
    _apply_binary_op block_add (mk_BlockMatrix g1 nb1 bs1 s1 d1)
                     (Node g2 nb2 bs2 s2 d2) = Return m /\
    valid_tree m /\ from_lists (as_block m) /\
    _stored_nb_blocks m = nb1 /\ _stored_block_shapes m = bs1 /\
    shape m = s1 /\ dtype_of m = result_type d1 d2 /\
    forall i j, (i < fst s1)%nat -> (j < snd s1)%nat ->
                entry (as_block m) i j
                = add_entry (result_type d1 d2)
                            (entry (Node g1 nb1 bs1 s1 d1) i j)
                            (entry (Node g2 nb2 bs2 s2 d2) i j).
Proof.
  intros IH Hv1 Hfl Hv2 Hlay.
  pose proof (same_layout_same_partition Hv1 Hv2 Hlay) as <-.
  destruct Hlay as [<- Hlay].
  apply valid_Node_unfold in Hv1 as (Hh & Hw & Hnb & Hs & H1).
  apply valid_Node_unfold in Hv2 as (_ & _ & _ & _ & H2).
  assert (Hfl' : np_asarray (nested_list g1) = Return g1 /\
                 all (all (fun b => from_lists b)) g1) by exact Hfl.
  destruct Hfl' as [Harr Hflg].
  destruct (@add_grid d1 d2 (snd bs1) g1 g2 (fst bs1) IH H1 H2 Hflg Hlay)
    as (gs & Egs & Hfit & Hrel).
  assert (Hal : all2 (all2 alike) g1 gs).
  { revert Hrel. apply all2_of_all4_13. intros l1 l2 l3 h.
    apply all2_of_all4_13. tauto. }
  assert (Hfl2 : all (all (fun b => from_lists b)) gs).
  { revert Hrel. apply all_of_all4_3. intros l1 l2 l3 h. apply all_of_all4_3. tauto. }
  assert (Harr' : np_asarray (nested_list gs) = Return gs).
  { apply asarray_keeps_alike with (d' := result_type d1 d2) (g := g1);
      [exact Hal|eauto|].
    revert Hfit. apply all_of_all2_l. intros l h. apply all_of_all2_l.
    intros b w (_ & Hd & _). exact Hd. }
  exists (mk_BlockMatrix gs (length (fst bs1), length (snd bs1)) bs1 (_compute_shape bs1)
                         (result_type d1 d2)).
  split.
  { unfold _apply_binary_op, nb_blocks. simpl _stored_nb_blocks.
    rewrite nb_eqb_refl. simpl _stored_blocks. rewrite Egs. cbn [bind].
    simpl _stored_block_shapes. now apply init_unchecked_kept. }
  split.
  { unfold valid_tree, as_block. simpl.
    split; [assumption|]. split; [assumption|].
    split; [congruence|]. split; [reflexivity|exact Hfit]. }
  split; [split; assumption|].
  simpl. split; [congruence|]. split; [reflexivity|]. split; [congruence|].
  split; [reflexivity|].
  intros i j Hi Hj. subst s1. simpl in Hi, Hj.
  apply pick_add; [apply add_entry_zero|]. eapply all4_impl; [|exact Hrel].
  intros line1 line2 ls h Hl k Hk.
  apply pick_add; [apply add_entry_zero|]. eapply all4_impl; [|exact Hl].
  intros b1 b2 s w (_ & _ & Hb) k' Hk'. apply Hb; [exact Hk|exact Hk'].
Qed.

Lemma valid_adds (b : block) : adds_slot b.
Proof.
  induction b as [a|g nb bs s d IH] using block_ind'; intros b2 Hv1 Hfl Hv2 Hlay.
  - destruct b2 as [c|]; simpl in Hlay; [|contradiction].
    simpl in Hv1. destruct (nd_shape a) as [|h [|w [|? ?]]] eqn:Ha; try discriminate.
    destruct (@nd_map2_same_shape (result_type (nd_dtype a) (nd_dtype c))
                (add_entry (result_type (nd_dtype a) (nd_dtype c)))
                a c h w Ha ltac:(congruence)) as (r & Er & Sr & Dr & Vr).
    exists (Leaf r). simpl. rewrite Er.
    split; [reflexivity|]. split; [now rewrite Sr|]. split; [exact I|].
    split; [congruence|].
    split; [congruence|]. split; [exact Dr|].
    unfold extent. simpl. rewrite Ha. simpl. exact Vr.
  - destruct b2 as [c|g2 nb2 bs2 s2 d2]; [simpl in Hlay; contradiction|].
    destruct (@add_node g nb bs s d g2 nb2 bs2 s2 d2 IH Hv1 Hfl Hv2 Hlay)
      as (m & Em & Vm & Fm & Nm & Bm & Sm & Dm & Em').
    exists (as_block m).
    change (block_add (Node g nb bs s d) (Node g2 nb2 bs2 s2 d2))
      with (match _apply_binary_op block_add (mk_BlockMatrix g nb bs s d)
                    (Node g2 nb2 bs2 s2 d2) with
            | Return r => Return (as_block r)
            | NotImplemented => Raise TypeError
            | ReturnNone => ReturnNone
            | Raise e => Raise e
            end).
    rewrite Em. split; [reflexivity|]. split; [exact Vm|].
    split; [exact Fm|]. split; [exact I|].
    split; [simpl; now rewrite Sm|]. split; [exact Dm|].
    intros i j Hi Hj. apply Em'; assumption.
Qed.

(** X10.  The sum of a valid tree stored from nested lists and a valid tree
    of the same layout is returned, is a valid tree, stored the same way,
    with the grid, partition and shape of the operands and the promoted
    element type, and flattening is additive:
    [flatten(B1 + B2) = flatten(B1) + flatten(B2)], entry by entry, the sum
    of two entries being taken in the promoted type (truth values for
    booleans, wrap-around for 64-bit integers). *)
Theorem add_is_elementwise_sum (junk : nat -> nat -> Z) (B1 B2 : BlockMatrix) :
  valid_tree B1 -> from_lists (as_block B1) -> valid_tree B2 ->
  same_layout (as_block B1) (as_block B2) ->
  exists S f1 f2 fS,
    __add__ B1 (as_block B2) = Return S /\
    valid_tree S /\ from_lists (as_block S) /\
    nb_blocks S = nb_blocks B1 /\ block_shapes S = block_shapes B1 /\
    shape S = shape B1 /\
    dtype_of S = result_type (dtype_of B1) (dtype_of B2) /\
    full_matrix junk B1 = Return f1 /\
    full_matrix junk B2 = Return f2 /\
    full_matrix junk S = Return fS /\
    nd_shape fS = nd_shape f1 /\ nd_shape f2 = nd_shape f1 /\
    forall i j, (i < fst (shape B1))%nat -> (j < snd (shape B1))%nat ->
                nd_at fS i j
                = add_entry (result_type (dtype_of B1) (dtype_of B2))
                            (nd_at f1 i j) (nd_at f2 i j).
Proof.
  intros Hv1 Hfl Hv2 Hlay.
  destruct B1 as [g1 nb1 bs1 s1 d1]. destruct B2 as [g2 nb2 bs2 s2 d2].
  assert (IH : all (all adds_slot) g1).
  { apply all_of_forall. intros l. apply all_of_forall. exact valid_adds. }
  pose proof (same_layout_same_shape (Node g1 nb1 bs1 s1 d1) (Node g2 nb2 bs2 s2 d2)
                Hv1 Hv2 Hlay) as Eshape.
  simpl in Eshape. injection Eshape as E1 E2.
  destruct (@add_node g1 nb1 bs1 s1 d1 g2 nb2 bs2 s2 d2 IH Hv1 Hfl Hv2 Hlay)
    as (S & ES & VS & FS & NS & BS & SS & DS & EntS).
  destruct (full_matrix_valid junk Hv1) as (f1 & Ef1 & Sf1 & _ & Vf1).
  destruct (full_matrix_valid junk Hv2) as (f2 & Ef2 & Sf2 & _ & Vf2).
  destruct (full_matrix_valid junk VS) as (fS & EfS & SfS & _ & VfS).
  exists S, f1, f2, fS. unfold __add__. simpl in *.
  split; [exact ES|]. split; [exact VS|]. split; [exact FS|].
  split; [exact NS|]. split; [exact BS|]. split; [exact SS|]. split; [exact DS|].
  split; [exact Ef1|]. split; [exact Ef2|]. split; [exact EfS|].
  split; [rewrite SfS, Sf1, SS; reflexivity|].
  split; [rewrite Sf2, Sf1, E1, E2; reflexivity|].
  intros i j Hi Hj.
  rewrite VfS, Vf1, Vf2 by (rewrite ?SS, <- ?E1, <- ?E2; assumption).
  now apply EntS.
Qed.

Lemma add_is_elementwise_sum_witness :
  exists S f1 f2 fS,
    __add__ Samples.square (as_block Samples.square_bis) = Return S /\
    valid_tree S /\ from_lists (as_block S) /\
    nb_blocks S = nb_blocks Samples.square /\
    block_shapes S = block_shapes Samples.square /\
    shape S = shape Samples.square /\
    dtype_of S = result_type (dtype_of Samples.square) (dtype_of Samples.square_bis) /\
    full_matrix SampleVectors.no_junk Samples.square = Return f1 /\
    full_matrix SampleVectors.no_junk Samples.square_bis = Return f2 /\
    full_matrix SampleVectors.no_junk S = Return fS /\
    nd_shape fS = nd_shape f1 /\ nd_shape f2 = nd_shape f1 /\
    forall i j, (i < fst (shape Samples.square))%nat ->
                (j < snd (shape Samples.square))%nat ->
                nd_at fS i j
                = add_entry (result_type (dtype_of Samples.square)
                                         (dtype_of Samples.square_bis))
                            (nd_at f1 i j) (nd_at f2 i j).
Proof.
  apply (@add_is_elementwise_sum SampleVectors.no_junk Samples.square Samples.square_bis).
  - prove_valid.
  - prove_valid.
  - prove_valid.
  - prove_valid.
Defined.

(** ** Reductions *)

Lemma nd_all_2d (a : ndarray) (h w : nat) :
  nd_shape a = [h; w] ->
  (nd_all a = true <-> forall i j, (i < h)%nat -> (j < w)%nat -> nd_at a i j <> 0).
Proof.
  intros Ha. unfold nd_all. rewrite Ha. simpl. rewrite forallb_forall. split.
  - intros H i j Hi Hj.
    specialize (H i ltac:(apply in_seq; lia)). rewrite forallb_forall in H.
    specialize (H j ltac:(apply in_seq; lia)).
    apply negb_true_iff, Z.eqb_neq in H. exact H.
  - intros H i Hi. apply in_seq in Hi. apply forallb_forall. intros j Hj.
    apply in_seq in Hj. apply negb_true_iff, Z.eqb_neq. apply H; lia.
Qed.

Lemma nd_any_2d (a : ndarray) (h w : nat) :
  nd_shape a = [h; w] ->
  (nd_any a = true <->
   exists i j, (i < h)%nat /\ (j < w)%nat /\ nd_at a i j <> 0).
Proof.
  intros Ha. unfold nd_any. rewrite Ha. simpl. rewrite existsb_exists. split.
  - intros (i & Hi & H). apply existsb_exists in H as (j & Hj & H).
    apply in_seq in Hi, Hj. apply negb_true_iff, Z.eqb_neq in H.
    exists i, j. repeat split; (lia || assumption).
  - intros (i & j & Hi & Hj & H). exists i. split; [apply in_seq; lia|].
    apply existsb_exists. exists j. split; [apply in_seq; lia|].
    now apply negb_true_iff, Z.eqb_neq.
Qed.

Section ReductionLoops.
Variable d : dtype.

Lemma all_line (h : nat) (line : list block) :
  forall ws,
    all all_slot line -> all2 (slot_ok d h) line ws ->
    (forallb block_all line = true <->
     forall i j, (i < h)%nat -> (j < sum_nat ws)%nat ->
                 pick (fun b j' => entry b i j') line ws j <> 0).
Proof.
  induction line as [|b line IH]; intros [|w ws] Hall Hfit; simpl in Hfit;
    try contradiction.
  - simpl. split; [intros _ i j _ Hj; lia|reflexivity].
  - destruct Hall as [Hb Hall]. destruct Hfit as [Hok Hfit].
    destruct (slot_ok_extents Hok) as (E0 & E1 & _). destruct Hok as (_ & _ & Hv).
    specialize (Hb Hv). rewrite E0, E1 in Hb. specialize (IH ws Hall Hfit).
    cbn [forallb]. change (sum_nat (w :: ws)) with (w + sum_nat ws)%nat. rewrite andb_true_iff, Hb, IH. split.
    + intros [H1 H2] i j Hi Hj. simpl.
      destruct (Nat.ltb_spec j w); [now apply H1|apply H2; lia].
    + intros H. split; intros i j Hi Hj.
      * specialize (H i j Hi ltac:(lia)). simpl in H.
        destruct (Nat.ltb_spec j w); [exact H|lia].
      * specialize (H i (w + j)%nat Hi ltac:(lia)). simpl in H.
        destruct (Nat.ltb_spec (w + j) w); [lia|].
        now replace (w + j - w)%nat with j in H by lia.
Qed.

Lemma all_grid (ws : list nat) (g : list (list block)) :
  forall hs,
    all (all all_slot) g ->
    all2 (fun line h => all2 (slot_ok d h) line ws) g hs ->
    (forallb (forallb block_all) g = true <->
     forall i j, (i < sum_nat hs)%nat -> (j < sum_nat ws)%nat ->
                 pick (fun line i' => pick (fun b j' => entry b i' j') line ws j)
                      g hs i <> 0).
Proof.
  induction g as [|line g IH]; intros [|h hs] Hall Hfit; simpl in Hfit;
    try contradiction.
  - simpl. split; [intros _ i j Hi; lia|reflexivity].
  - destruct Hall as [Hline Hall]. destruct Hfit as [Hlfit Hfit].
    specialize (IH hs Hall Hfit).
    cbn [forallb]. change (sum_nat (h :: hs)) with (h + sum_nat hs)%nat.
    rewrite andb_true_iff, (@all_line h line ws Hline Hlfit), IH. split.
    + intros [H1 H2] i j Hi Hj. simpl.
      destruct (Nat.ltb_spec i h); [now apply H1|apply H2; lia].
    + intros H. split; intros i j Hi Hj.
      * specialize (H i j ltac:(lia) Hj). simpl in H.
        destruct (Nat.ltb_spec i h); [exact H|lia].
      * specialize (H (h + i)%nat j ltac:(lia) Hj). simpl in H.
        destruct (Nat.ltb_spec (h + i) h); [lia|].
        now replace (h + i - h)%nat with i in H by lia.
Qed.

Lemma any_line (h : nat) (line : list block) :
  forall ws,
    all any_slot line -> all2 (slot_ok d h) line ws ->
    (existsb block_any line = true <->
     exists i j, (i < h)%nat /\ (j < sum_nat ws)%nat /\
                 pick (fun b j' => entry b i j') line ws j <> 0).
Proof.
  induction line as [|b line IH]; intros [|w ws] Hall Hfit; simpl in Hfit;
    try contradiction.
  - simpl. split; [discriminate|intros (i & j & _ & Hj & _); lia].
  - destruct Hall as [Hb Hall]. destruct Hfit as [Hok Hfit].
    destruct (slot_ok_extents Hok) as (E0 & E1 & _). destruct Hok as (_ & _ & Hv).
    specialize (Hb Hv). rewrite E0, E1 in Hb. specialize (IH ws Hall Hfit).
    cbn [existsb]. change (sum_nat (w :: ws)) with (w + sum_nat ws)%nat. rewrite orb_true_iff, Hb, IH. split.
    + intros [(i & j & Hi & Hj & H)|(i & j & Hi & Hj & H)].
      * exists i, j. split; [exact Hi|]. split; [lia|]. simpl.
        destruct (Nat.ltb_spec j w); [exact H|lia].
      * exists i, (w + j)%nat. split; [exact Hi|]. split; [lia|]. simpl.
        destruct (Nat.ltb_spec (w + j) w); [lia|].
        now replace (w + j - w)%nat with j by lia.
    + intros (i & j & Hi & Hj & H). simpl in H.
      destruct (Nat.ltb_spec j w).
      * left. exists i, j. auto.
      * right. exists i, (j - w)%nat. split; [exact Hi|]. split; [lia|exact H].
Qed.

Lemma any_grid (ws : list nat) (g : list (list block)) :
  forall hs,
    all (all any_slot) g ->
    all2 (fun line h => all2 (slot_ok d h) line ws) g hs ->
    (existsb (existsb block_any) g = true <->
     exists i j, (i < sum_nat hs)%nat /\ (j < sum_nat ws)%nat /\
                 pick (fun line i' => pick (fun b j' => entry b i' j') line ws j)
                      g hs i <> 0).
Proof.
  induction g as [|line g IH]; intros [|h hs] Hall Hfit; simpl in Hfit;
    try contradiction.
  - simpl. split; [discriminate|intros (i & j & Hi & _); lia].
  - destruct Hall as [Hline Hall]. destruct Hfit as [Hlfit Hfit].
    specialize (IH hs Hall Hfit).
    cbn [existsb]. change (sum_nat (h :: hs)) with (h + sum_nat hs)%nat.
    rewrite orb_true_iff, (@any_line h line ws Hline Hlfit), IH. split.
    + intros [(i & j & Hi & Hj & H)|(i & j & Hi & Hj & H)].
      * exists i, j. split; [lia|]. split; [exact Hj|]. simpl.
        destruct (Nat.ltb_spec i h); [exact H|lia].
      * exists (h + i)%nat, j. split; [lia|]. split; [exact Hj|]. simpl.
        destruct (Nat.ltb_spec (h + i) h); [lia|].
        now replace (h + i - h)%nat with i by lia.
    + intros (i & j & Hi & Hj & H). simpl in H.
      destruct (Nat.ltb_spec i h).
      * left. exists i, j. auto.
      * right. exists (i - h)%nat, j. split; [lia|]. split; [exact Hj|exact H].
Qed.
End ReductionLoops.

Lemma valid_all_slot (b : block) : all_slot b.
Proof.
  induction b as [a|g nb bs s d IH] using block_ind'; intros Hv.
  - simpl in Hv. destruct (nd_shape a) as [|h [|w [|? ?]]] eqn:Ha; try discriminate.
    unfold extent. simpl. rewrite Ha. simpl. now apply nd_all_2d.
  - apply valid_Node_unfold in Hv as (_ & _ & _ & -> & Hfit).
    unfold extent. simpl. now apply all_grid with (d := d).
Qed.

Lemma valid_any_slot (b : block) : any_slot b.
Proof.
  induction b as [a|g nb bs s d IH] using block_ind'; intros Hv.
  - simpl in Hv. destruct (nd_shape a) as [|h [|w [|? ?]]] eqn:Ha; try discriminate.
    unfold extent. simpl. rewrite Ha. simpl. now apply nd_any_2d.
  - apply valid_Node_unfold in Hv as (_ & _ & _ & -> & Hfit).
    unfold extent. simpl. now apply any_grid with (d := d).
Qed.

(** X11.  On a valid tree, [all()] is true exactly when no entry of the
    flattened matrix is zero, and [any()] is true exactly when some entry
    of the flattened matrix is not zero. *)
Theorem all_any_of_flattened (junk : nat -> nat -> Z) (B : BlockMatrix) :
  valid_tree B ->
  exists f, full_matrix junk B = Return f /\
            (BlockMatrix_all B = true <->
             forall i j, (i < fst (shape B))%nat -> (j < snd (shape B))%nat ->
                         nd_at f i j <> 0) /\
            (BlockMatrix_any B = true <->
             exists i j, (i < fst (shape B))%nat /\ (j < snd (shape B))%nat /\
                         nd_at f i j <> 0).
Proof.
  intros Hv. destruct (full_matrix_valid junk Hv) as (f & Ef & _ & _ & Vf).
  exists f. split; [exact Ef|].
  assert (Ha : BlockMatrix_all B = true <->
               forall i j, (i < fst (shape B))%nat -> (j < snd (shape B))%nat ->
                           entry (as_block B) i j <> 0)
    by exact (valid_all_slot (as_block B) Hv).
  assert (Hany : BlockMatrix_any B = true <->
                 exists i j, (i < fst (shape B))%nat /\ (j < snd (shape B))%nat /\
                             entry (as_block B) i j <> 0)
    by exact (valid_any_slot (as_block B) Hv).
  rewrite Ha, Hany. split; split.
  - intros H i j Hi Hj. rewrite Vf by assumption. now apply H.
  - intros H i j Hi Hj. rewrite <- Vf by assumption. now apply H.
  - intros (i & j & Hi & Hj & H). exists i, j. rewrite Vf by assumption. auto.
  - intros (i & j & Hi & Hj & H). exists i, j. rewrite <- Vf by assumption. auto.
Qed.

Lemma all_any_of_flattened_witness :
  exists f, full_matrix SampleVectors.no_junk Samples.nested = Return f /\
            (BlockMatrix_all Samples.nested = true <->
             forall i j, (i < fst (shape Samples.nested))%nat ->
                         (j < snd (shape Samples.nested))%nat ->
                         nd_at f i j <> 0) /\
            (BlockMatrix_any Samples.nested = true <->
             exists i j, (i < fst (shape Samples.nested))%nat /\
                         (j < snd (shape Samples.nested))%nat /\
                         nd_at f i j <> 0).
Proof.
  apply (@all_any_of_flattened SampleVectors.no_junk Samples.nested). prove_valid.
Defined.

(** ** The transpose of a tree of symmetric partition *)

Lemma pick_locate (A : Type) (cont : A -> nat -> Z) (l : list A) :
  forall exts k,
    length l = length exts ->
    pick cont l exts k
    = match locate exts k with
      | Some (n, k') => match nth_error l n with
                        | Some x => cont x k'
                        | None => 0
                        end
      | None => 0
      end.
Proof.
  induction l as [|x l IH]; intros [|e exts] k Hlen; simpl in Hlen; try discriminate.
  - reflexivity.
  - simpl. destruct (Nat.ltb_spec k e); [reflexivity|].
    rewrite IH by congruence.
    destruct (locate exts (k - e)) as [[n k']|]; reflexivity.
Qed.

Lemma locate_Some_lt (exts : list nat) :
  forall k n k', locate exts k = Some (n, k') -> (n < length exts)%nat.
Proof.
  induction exts as [|e exts IH]; intros k n k' H; simpl in H; [discriminate|].
  destruct (Nat.ltb_spec k e).
  - injection H as <- <-. simpl. lia.
  - destruct (locate exts (k - e)) as [[m k'']|] eqn:E; [|discriminate].
    injection H as <- <-. simpl. apply IH in E. lia.
Qed.

Lemma all2_of_nth (A B : Type) (R : A -> B -> Prop) (l : list A) :
  forall l',
    length l = length l' ->
    (forall n x y, nth_error l n = Some x -> nth_error l' n = Some y -> R x y) ->
    all2 R l l'.
Proof.
  induction l as [|x l IH]; intros [|y l'] Hlen H; simpl in *; try discriminate.
  - exact I.
  - split; [apply (H 0%nat); reflexivity|].
    apply IH; [congruence|]. intros n a b Ha Hb. apply (H (S n)); assumption.
Qed.

Lemma all_of_In (A : Type) (P : A -> Prop) (l : list A) :
  (forall x, In x l -> P x) -> all P l.
Proof.
  induction l as [|x l IH]; intros H; simpl; [exact I|].
  split; [apply H; now left|apply IH; intros; apply H; now right].
Qed.

Lemma mapM_all2 (A B : Type) (f : A -> outcome B) (Q : A -> B -> Prop) (l : list A) :
  all (fun x => exists y, f x = Return y /\ Q x y) l ->
  exists l', mapM f l = Return l' /\ all2 Q l l'.
Proof.
  induction l as [|x l IH]; intros H; simpl in *.
  - exists []. auto.
  - destruct H as [(y & Ey & Hy) H]. destruct (IH H) as (l' & El & Hl).
    exists (y :: l'). rewrite Ey. simpl. rewrite El. simpl. auto.
Qed.

(** The columns of a grid whose lines all have [n] slots. *)
Lemma column_is_map (g : list (list block)) (c n : nat) :
  Forall (fun line => length line = n) g -> (c < n)%nat ->
  flat_map (fun l => match nth_error l c with Some x => [x] | None => [] end) g
  = map (fun l => nth c l (Leaf py_False)) g.
Proof.
  intros Hg Hc. induction Hg as [|line g Hl _ IH]; simpl; [reflexivity|].
  rewrite IH. destruct (nth_error line c) as [x|] eqn:E.
  - simpl. f_equal. symmetry. now apply nth_error_nth.
  - apply nth_error_None in E. lia.
Qed.

Lemma moveaxis_nth (g : list (list block)) (n r c : nat) (b : block) :
  Forall (fun line => length line = n) g -> length (hd [] g) = n ->
  (match nth_error (moveaxis_1_0 g) c with
   | Some col => nth_error col r
   | None => None
   end = Some b)
  <-> (exists line, nth_error g r = Some line /\ nth_error line c = Some b).
Proof.
  intros Hg Hn. unfold moveaxis_1_0. rewrite Hn.
  rewrite nth_error_map.
  destruct (Nat.lt_ge_cases c n) as [Hc|Hc].
  - rewrite (nth_error_nth' _ 0%nat) by (rewrite length_seq; exact Hc).
    rewrite seq_nth by exact Hc. simpl.
    rewrite (column_is_map Hg Hc), nth_error_map.
    rewrite Forall_forall in Hg. split.
    + destruct (nth_error g r) as [line|] eqn:E; simpl; [|discriminate].
      intros [= <-]. exists line. split; [reflexivity|].
      apply nth_error_nth'. rewrite (Hg line (nth_error_In _ _ E)). exact Hc.
    + intros (line & -> & Hb). simpl. f_equal. now apply nth_error_nth.
  - replace (nth_error (seq 0 n) c) with (@None nat)
      by (symmetry; apply nth_error_None; rewrite length_seq; exact Hc).
    simpl. split; [discriminate|].
    intros (line & Hl & Hb). rewrite Forall_forall in Hg.
    assert (c < length line)%nat by (apply nth_error_Some; congruence).
    rewrite (Hg line (nth_error_In _ _ Hl)) in H. lia.
Qed.

Lemma moveaxis_length (g : list (list block)) :
  length (moveaxis_1_0 g) = length (hd [] g).
Proof. unfold moveaxis_1_0. now rewrite length_map, length_seq. Qed.

Lemma moveaxis_line_length (g : list (list block)) (n : nat) (col : list block) :
  Forall (fun line => length line = n) g -> length (hd [] g) = n ->
  In col (moveaxis_1_0 g) -> length col = length g.
Proof.
  intros Hg Hn Hcol. unfold moveaxis_1_0 in Hcol.
  apply in_map_iff in Hcol as (c & <- & Hc). apply in_seq in Hc.
  rewrite (@column_is_map g c n Hg ltac:(lia)). apply length_map.
Qed.

Lemma all2_nth_r (A B : Type) (R : A -> B -> Prop) (l : list A) :
  forall l' n y, all2 R l l' -> nth_error l' n = Some y ->
                 exists x, nth_error l n = Some x /\ R x y.
Proof.
  induction l as [|a l IH]; intros [|b l'] n y H Hn; simpl in H; try contradiction.
  - destruct n; discriminate.
  - destruct H as [Hab H]. destruct n as [|n]; simpl in *.
    + injection Hn as <-. eauto.
    + eapply IH; eauto.
Qed.

Lemma nth_error_lt (A : Type) (l : list A) (n : nat) :
  (n < length l)%nat -> exists x, nth_error l n = Some x.
Proof.
  intros H. destruct (nth_error l n) eqn:E; [eauto|].
  apply nth_error_None in E. lia.
Qed.

Lemma fitted_line_lengths d ws (g : list (list block)) (hs : list nat) :
  all2 (fun line h => all2 (slot_ok d h) line ws) g hs ->
  Forall (fun line => length line = length ws) g.
Proof.
  intros H. apply Forall_forall. intros line Hl.
  destruct (all2_In _ _ _ _ H Hl) as (h & _ & Hfit).
  eapply all2_length; eauto.
Qed.

(** The entry of a tree, through the positions of its row and column in
    the partition. *)
Lemma entry_node_locate g nb hs ws s d (i j : nat) :
  length g = length hs -> Forall (fun line => length line = length ws) g ->
  entry (Node g nb (hs, ws) s d) i j
  = match locate hs i, locate ws j with
    | Some (r, i'), Some (c, j') =>
        match nth_error g r with
        | Some line => match nth_error line c with
                       | Some b => entry b i' j'
                       | None => 0
                       end
        | None => 0
        end
    | _, _ => 0
    end.
Proof.
  intros Hg Hl. simpl. rewrite pick_locate by assumption.
  destruct (locate hs i) as [[r i']|]; [|reflexivity].
  destruct (nth_error g r) as [line|] eqn:E.
  - rewrite Forall_forall in Hl.
    rewrite pick_locate by (apply Hl; eapply nth_error_In; eauto).
    destruct (locate ws j) as [[c j']|]; reflexivity.
  - destruct (locate ws j) as [[c j']|]; reflexivity.
Qed.

Lemma transposed_extents (b b' : block) :
  transposed_of b b' ->
  is_array b' = is_array b /\ extent 0 b' = extent 1 b.
Proof.
  intros (Vb' & _ & Sb' & _ & _ & Ab'). split; [exact Ab'|].
  pose proof (valid_slot_2d b' Vb') as H2. unfold slot_2d in H2.
  rewrite Sb', length_rev in H2. unfold extent. rewrite Sb'.
  destruct (block_shape b) as [|h [|w [|? ?]]]; try discriminate. reflexivity.
Qed.

(** The transposed slots are arrays of one height exactly when the slots
    are arrays of one width. *)
Lemma one_height_transposed (g g' : list (list block)) :
  all2 (all2 transposed_of) g g' -> one_height g' = one_width g.
Proof.
  intros H. apply all2_concat in H. unfold one_height, one_width.
  destruct (concat g) as [|b0 others], (concat g') as [|b0' others'];
    simpl in H; try contradiction; [reflexivity|].
  destruct (transposed_extents (proj1 H)) as [A0 E0]. symmetry.
  apply (@all2_forallb _ _ transposed_of
           (fun b => is_array b && Nat.eqb (extent 1 b) (extent 1 b0))
           (fun b' => is_array b' && Nat.eqb (extent 0 b') (extent 0 b0')));
    [|exact H].
  intros b b' Hb. destruct (transposed_extents Hb) as [A E]. now rewrite A, E, E0.
Qed.

Lemma T_node g nb p s d :
  all (all transposes_slot) g ->
  valid (Node g nb (p, p) s d) ->
  all (all (fun b => symmetric b)) g ->
  widths_differ (Node g nb (p, p) s d) ->
  exists t,
    T (mk_BlockMatrix g nb (p, p) s d) = Return t /\
    valid_tree t /\ symmetric (as_block t) /\
    _stored_nb_blocks t = nb /\ _stored_block_shapes t = (p, p) /\
    shape t = s /\ dtype_of t = d /\
    forall i j, entry (as_block t) i j = entry (Node g nb (p, p) s d) j i.
Proof.
  intros IH Hv Hsym Hwd.
  assert (Hwd' : one_width g = false /\ all (all (fun b => widths_differ b)) g)
    by exact Hwd.
  destruct Hwd' as [Hone Hwdg].
  apply valid_Node_unfold in Hv as (Hp & _ & Hnb & Hs & Hfit). simpl in Hp, Hnb, Hs, Hfit.
  assert (H1 : all (fun line => exists line', mapM block_T line = Return line' /\
                                              all2 transposed_of line line') g).
  { apply all_of_In. intros line Hline. apply mapM_all2. apply all_of_In. intros b Hb.
    destruct (all2_In _ _ _ _ Hfit Hline) as (h & _ & Hlfit).
    destruct (all2_In _ _ _ _ Hlfit Hb) as (w & _ & (_ & _ & Hvb)).
    pose proof (all_In _ _ b (all_In _ _ line IH Hline) Hb) as Ht.
    pose proof (all_In _ _ b (all_In _ _ line Hsym Hline) Hb) as Hsb.
    pose proof (all_In _ _ b (all_In _ _ line Hwdg Hline) Hb) as Hwb.
    exact (Ht Hvb Hsb Hwb). }
  destruct (mapM_all2 _ _ _ H1) as (g' & Eg & Hrel).
  pose proof (all2_length _ _ _ Hfit) as Lg.
  pose proof (all2_length _ _ _ Hrel) as Lg'.
  pose proof (fitted_line_lengths _ _ _ _ Hfit) as Hll.
  assert (Hll' : Forall (fun line' => length line' = length p) g').
  { apply Forall_forall. intros line' Hl'. apply In_nth_error in Hl' as [n Hn].
    destruct (all2_nth_r _ _ _ _ Hrel Hn) as (line & Hline & Hq).
    rewrite <- (all2_length _ _ _ Hq). rewrite Forall_forall in Hll.
    apply Hll. eapply nth_error_In; eauto. }
  (* the first slots *)
  destruct p as [|p0 p']; [congruence|].
  destruct g as [|line0 g0]; [simpl in Lg; discriminate|].
  destruct g' as [|line0' g0']; [simpl in Lg'; discriminate|].
  pose proof Hfit as [Hl0 _]. pose proof Hrel as [Hq0 _].
  destruct line0 as [|b0 l0]; [simpl in Hl0; contradiction|].
  destruct line0' as [|b0' l0']; [simpl in Hq0; contradiction|].
  pose proof Hl0 as [(_ & Hd0 & _) _]. pose proof Hq0 as [(Hv0' & _ & _ & Hd0' & _) _].
  set (G := (b0 :: l0) :: g0) in *. set (G' := (b0' :: l0') :: g0') in *.
  set (P := p0 :: p') in *.
  assert (Lhd : length (hd [] G') = length P).
  { rewrite Forall_forall in Hll'. apply Hll'. now left. }
  assert (HrG' : rectangular G').
  { split; [discriminate|]. split; [rewrite Lhd; discriminate|].
    rewrite Lhd. exact Hll'. }
  assert (H2G' : grid_2d G').
  { apply Forall_forall. intros line' Hl'. apply Forall_forall. intros b' Hb'.
    apply In_nth_error in Hl' as [n Hn]. apply In_nth_error in Hb' as [c Hc].
    destruct (all2_nth_r _ _ _ _ Hrel Hn) as (line & Hline & Hq).
    destruct (all2_nth_r _ _ _ _ Hq Hc) as (b & Hbb & (Vb' & _)).
    now apply valid_slot_2d. }
  assert (HoneG' : one_height G' = false).
  { rewrite <- Hone. apply one_height_transposed. exact Hrel. }
  destruct (asarray_objects HrG' H2G' HoneG') as [Harr' Hos].
  exists (mk_BlockMatrix (moveaxis_1_0 G') (length G', length (hd [] G')) (P, P)
                         (_compute_shape (P, P)) (block_dtype b0')).
  split.
  { unfold T, _apply_unary_op. simpl _stored_blocks. rewrite Eg. cbn [bind].
    unfold BlockMatrix_init. rewrite Harr'. cbn [bind].
    assert (Hg0 : grid_first G' = Return b0') by reflexivity.
    rewrite Hg0. cbn [bind].
    rewrite (slot_2d_ndim (valid_slot_2d b0' Hv0')). cbn [Nat.eqb assert bind].
    unfold swap_stored_blocks, ndarray_T.
    cbn [_stored_blocks _stored_nb_blocks _stored_block_shapes shape dtype_of].
    rewrite Hos. reflexivity. }
  (* slots of the transposed grid *)
  assert (Hslot : forall r c col b',
             nth_error (moveaxis_1_0 G') r = Some col -> nth_error col c = Some b' ->
             exists line b, nth_error G c = Some line /\ nth_error line r = Some b /\
                            transposed_of b b').
  { intros r c col b' Hcol Hb'.
    destruct (proj1 (@moveaxis_nth G' (length P) c r b' Hll' Lhd)) as (line' & Hl' & Hb).
    { rewrite Hcol. exact Hb'. }
    destruct (all2_nth_r _ _ _ _ Hrel Hl') as (line & Hline & Hq).
    destruct (all2_nth_r _ _ _ _ Hq Hb) as (b & Hbb & Hqb).
    exists line, b. auto. }
  assert (LT : length (moveaxis_1_0 G') = length P)
    by (rewrite moveaxis_length; exact Lhd).
  assert (LTl : forall col, In col (moveaxis_1_0 G') -> length col = length P).
  { intros col Hcol.
    rewrite (@moveaxis_line_length G' (length P) col Hll' Lhd Hcol). congruence. }
  assert (Hfit' : all2 (fun line h => all2 (slot_ok d h) line P) (moveaxis_1_0 G') P).
  { apply all2_of_nth; [exact LT|]. intros r col h Hcol Hh.
    apply all2_of_nth; [apply LTl; eapply nth_error_In; eauto|].
    intros c b' w Hb' Hw.
    destruct (Hslot r c col b' Hcol Hb') as (line & b & Hline & Hb & Hq).
    destruct (all2_nth _ _ _ _ Hfit Hline) as (hc & Hhc & Hlfit).
    destruct (all2_nth _ _ _ _ Hlfit Hb) as (wr & Hwr & (Sb & Db & _)).
    destruct Hq as (Vb' & _ & Sb' & Db' & _).
    assert (hc = w) by congruence. assert (wr = h) by congruence. subst hc wr.
    split; [|split; [congruence|exact Vb']].
    rewrite Sb', Sb. reflexivity. }
  split.
  { unfold valid_tree, as_block.
    cbn [_stored_blocks _stored_nb_blocks _stored_block_shapes shape dtype_of].
    apply valid_Node_unfold. cbn [fst snd].
    split; [exact Hp|]. split; [exact Hp|].
    split; [rewrite Lhd, <- Lg', Lg; reflexivity|].
    split; [reflexivity|]. rewrite Hd0', Hd0. exact Hfit'. }
  split.
  { unfold as_block.
    cbn [_stored_blocks _stored_nb_blocks _stored_block_shapes shape dtype_of symmetric
         fst snd].
    split; [reflexivity|].
    apply all_of_In. intros col Hcol. apply all_of_In. intros b' Hb'.
    apply In_nth_error in Hcol as [r Hr]. apply In_nth_error in Hb' as [c Hc].
    destruct (Hslot r c col b' Hr Hc) as (_ & _ & _ & _ & (_ & Hs' & _)).
    exact Hs'. }
  unfold as_block.
  cbn [_stored_blocks _stored_nb_blocks _stored_block_shapes shape dtype_of].
  split; [rewrite Hnb, Lhd, <- Lg', Lg; reflexivity|].
  split; [reflexivity|]. split; [congruence|]. split; [congruence|].
  intros i j.
  rewrite (@entry_node_locate (moveaxis_1_0 G') _ P P _ _ i j LT)
    by (apply Forall_forall; exact LTl).
  rewrite (@entry_node_locate G nb P P s d j i Lg Hll).
  destruct (locate P i) as [[r i']|] eqn:Ei;
    destruct (locate P j) as [[c j']|] eqn:Ej; try reflexivity.
  apply locate_Some_lt in Ei, Ej.
  destruct (@nth_error_lt _ (moveaxis_1_0 G') r ltac:(lia)) as (col & Hcol).
  destruct (@nth_error_lt _ col c
              ltac:(rewrite (LTl col (nth_error_In _ _ Hcol)); lia)) as (b' & Hb').
  destruct (Hslot r c col b' Hcol Hb') as (line & b & Hline & Hb & Hq).
  rewrite Hcol, Hb', Hline, Hb. apply Hq.
Qed.

Lemma valid_transposes (b : block) : transposes_slot b.
Proof.
  induction b as [a|g nb bs s d IH] using block_ind'; intros Hv Hsym Hwd.
  - exists (Leaf (nd_T a)). split; [reflexivity|].
    unfold transposed_of. simpl in *.
    split; [now rewrite length_rev|]. repeat split.
  - destruct bs as [hs ws]. destruct Hsym as [E Hsym]. simpl in E. subst ws.
    destruct (@T_node g nb hs s d IH Hv Hsym Hwd)
      as (t & Et & Vt & St & Nt & Bt & Sht & Dt & Ent).
    exists (as_block t).
    assert (Eb : block_T (Node g nb (hs, hs) s d) = Return (as_block t)).
    { unfold T in Et.
      change (block_T (Node g nb (hs, hs) s d))
        with (transposed_blocks <- _apply_unary_op block_T
                                     (mk_BlockMatrix g nb (hs, hs) s d) ;;
              Return (as_block (swap_stored_blocks transposed_blocks))).
      destruct (_apply_unary_op block_T (mk_BlockMatrix g nb (hs, hs) s d))
        as [x| | |e]; simpl in Et |- *; try discriminate.
      injection Et as <-. reflexivity. }
    split; [exact Eb|]. split; [exact Vt|]. split; [exact St|].
    split; [|split; [exact Dt|split; [exact Ent|reflexivity]]].
    apply valid_Node_unfold in Hv as (_ & _ & _ & Hs & _).
    simpl. rewrite Sht, Hs. reflexivity.
Qed.

(** X12.  On a valid tree whose row partition is its column partition at
    every level, and that holds at every level a nested tree or two arrays
    of different widths (so that the transposed slots are stored as
    objects), [T] returns a valid tree with the partition and shape of its
    operand, and flattening commutes with it:
    [flatten(B.T) = flatten(B).T]. *)
Theorem T_of_symmetric_partition (junk : nat -> nat -> Z) (B : BlockMatrix) :
  valid_tree B -> symmetric (as_block B) -> widths_differ (as_block B) ->
  exists t f fT,
    T B = Return t /\ valid_tree t /\
    block_shapes t = block_shapes B /\ shape t = shape B /\
    dtype_of t = dtype_of B /\
    full_matrix junk B = Return f /\
    full_matrix junk t = Return fT /\
    nd_view fT = nd_view (nd_T f).
Proof.
  intros Hv Hsym Hwd. destruct B as [g nb [hs ws] s d].
  pose proof Hsym as [E Hsym']. simpl in E. subst ws.
  destruct (@T_node g nb hs s d
              (all_of_forall _ _ (fun l => all_of_forall _ l valid_transposes))
              Hv Hsym' Hwd) as (t & Et & Vt & St & Nt & Bt & Sht & Dt & Ent).
  destruct (full_matrix_valid junk Hv) as (f & Ef & Sf & _ & Vf).
  destruct (full_matrix_valid junk Vt) as (fT & EfT & SfT & _ & VfT).
  exists t, f, fT. split; [exact Et|]. split; [exact Vt|].
  split; [exact Bt|]. split; [exact Sht|]. split; [exact Dt|].
  split; [exact Ef|]. split; [exact EfT|].
  apply valid_Node_unfold in Hv as (_ & _ & _ & Hs & _).
  simpl in Sf, Vf, Hs. rewrite Sht in SfT, VfT. subst s. simpl in *.
  unfold nd_view, nd_rows, nd_T. simpl. rewrite SfT, Sf. simpl. f_equal.
  apply map_ext_in. intros i Hi. apply in_seq in Hi.
  apply map_ext_in. intros j Hj. apply in_seq in Hj.
  rewrite VfT, Vf by lia. apply Ent.
Qed.

Lemma T_of_symmetric_partition_witness :
  exists t f fT,
    T Samples.nested = Return t /\ valid_tree t /\
    block_shapes t = block_shapes Samples.nested /\ shape t = shape Samples.nested /\
    dtype_of t = dtype_of Samples.nested /\
    full_matrix SampleVectors.no_junk Samples.nested = Return f /\
    full_matrix SampleVectors.no_junk t = Return fT /\
    nd_view fT = nd_view (nd_T f).
Proof.
  apply (@T_of_symmetric_partition SampleVectors.no_junk Samples.nested).
  - prove_valid.
  - prove_valid.
  - prove_valid.
Defined.

(** Why the widths have to differ.  The 2 x 2 grid of 2 x 2 leaves is valid
    and its partition is symmetric, but its transposed leaves are merged
    into one array of rank 4, of which [.T] reverses the four axes: the
    flattening of the transposed tree is not the transpose of the
    flattening. *)
Lemma T_of_uniform_grid_is_not_transpose (junk : nat -> nat -> Z) :
  BlockMatrix_init (nested_list (all_blocks Samples.uniform)) None true
  = Return Samples.uniform /\
  valid_tree Samples.uniform /\ symmetric (as_block Samples.uniform) /\
  (f <- full_matrix junk Samples.uniform ;; Return (nd_view (nd_T f)))
  = Return ([4; 4]%nat,
            [[1; 3; 9; 11]; [2; 4; 10; 12]; [5; 7; 13; 15]; [6; 8; 14; 16]]) /\
  (t <- T Samples.uniform ;; f <- full_matrix junk t ;; Return (nd_view f))
  = Return ([4; 4]%nat,
            [[1; 9; 2; 10]; [5; 13; 6; 14]; [3; 11; 4; 12]; [7; 15; 8; 16]]).
Proof.
  split; [run|]. split; [prove_valid|]. split; [prove_valid|]. split; run.
Qed.

(** ** The product of two trees of leaves *)

Lemma add_entry_exact (d : dtype) (x y : Z) :
  (2 <= kind d)%nat -> add_entry d x y = x + y.
Proof. destruct d; simpl; intros H; try lia; reflexivity. Qed.

Lemma result_type_absorbs (d1 d2 : dtype) :
  result_type (result_type d1 d2) (result_type d1 d2) = result_type d1 d2.
Proof. apply result_type_same. Qed.

Lemma zero_plus_exact (d : dtype) :
  (2 <= kind d)%nat -> (if (kind d <? 1)%nat then int64 else d) = d.
Proof. destruct d; simpl; intros H; try lia; reflexivity. Qed.

Lemma leaf_product (junk : nat -> nat -> Z) d1 d2 h k w (b c : block) :
  leaf_ok d1 h b k -> leaf_ok d2 k c w ->
  exists r, block_matmul junk b c = Return (Leaf r) /\
            nd_shape r = [h; w] /\ nd_dtype r = result_type d1 d2 /\
            forall x y, nd_at r x y = big_sum k (fun l => entry b x l * entry c l y).
Proof.
  intros [(Sb & Db & _) Lb] [(Sc & Dc & _) Lc].
  destruct b as [a|]; [|contradiction]. destruct c as [c|]; [|contradiction].
  simpl in *. unfold nd_matmul. rewrite Sb, Sc, Nat.eqb_refl. simpl.
  eexists. split; [reflexivity|]. simpl. subst. auto.
Qed.

Section SumOfProductsProof.
Variables (junk : nat -> nat -> Z) (d1 d2 : dtype) (h w : nat).
Hypothesis exact : (2 <= kind (result_type d1 d2))%nat.

Lemma sum_rest (line : list block) :
  forall col ks r0,
    all2 (leaf_ok d1 h) line ks ->
    all2 (fun c k => leaf_ok d2 k c w) col ks ->
    nd_shape r0 = [h; w] -> nd_dtype r0 = result_type d1 d2 ->
    exists r,
      sum_from (block_matmul junk) (Some (Leaf r0)) line col = Return (Leaf r) /\
      nd_shape r = [h; w] /\ nd_dtype r = result_type d1 d2 /\
      forall x y, (x < h)%nat -> (y < w)%nat ->
                  nd_at r x y = nd_at r0 x y + row_by_column line col ks x y.
Proof.
  induction line as [|b line IH]; intros [|c col] [|k ks] r0 Hl Hc S0 D0;
    simpl in Hl, Hc; try contradiction.
  - exists r0. simpl. split; [reflexivity|]. split; [exact S0|]. split; [exact D0|].
    intros x y _ _. unfold row_by_column. simpl. lia.
  - destruct Hl as [Hb Hl]. destruct Hc as [Hcc Hc].
    destruct (leaf_product junk Hb Hcc) as (p & Ep & Sp & Dp & Vp).
    destruct (@nd_map2_same_shape (result_type (nd_dtype r0) (nd_dtype p))
                (add_entry (result_type (nd_dtype r0) (nd_dtype p)))
                r0 p h w S0 Sp) as (r1 & E1 & S1 & D1 & V1).
    rewrite D0, Dp, result_type_absorbs in D1.
    assert (V1' : forall x y, (x < h)%nat -> (y < w)%nat ->
                              nd_at r1 x y = nd_at r0 x y + nd_at p x y).
    { intros x y Hx Hy. rewrite V1 by assumption.
      rewrite D0, Dp, result_type_absorbs. now apply add_entry_exact. }
    destruct (IH col ks r1 Hl Hc S1 D1) as (r & Er & Sr & Dr & Vr).
    exists r. split.
    + cbn [sum_from]. rewrite Ep. cbn [bind block_add]. rewrite E1. cbn [bind].
      exact Er.
    + split; [exact Sr|]. split; [exact Dr|]. intros x y Hx Hy.
      rewrite Vr, V1', Vp by assumption. unfold row_by_column.
      change (sum_nat (k :: ks)) with (k + sum_nat ks)%nat.
      rewrite big_sum_app, <- Z.add_assoc. f_equal. f_equal.
      * apply big_sum_ext. intros l Hl'. simpl.
        apply Nat.ltb_lt in Hl'. now rewrite Hl'.
      * apply big_sum_ext. intros l Hl'. simpl.
        destruct (Nat.ltb_spec (k + l) k); [lia|].
        now replace (k + l - k)%nat with l by lia.
Qed.

Lemma sum_of_products (line col : list block) (ks : list nat) :
  ks <> [] ->
  all2 (leaf_ok d1 h) line ks ->
  all2 (fun c k => leaf_ok d2 k c w) col ks ->
  exists r,
    sum_from (block_matmul junk) None line col = Return (Leaf r) /\
    nd_shape r = [h; w] /\ nd_dtype r = result_type d1 d2 /\
    forall x y, (x < h)%nat -> (y < w)%nat ->
                nd_at r x y = row_by_column line col ks x y.
Proof.
  intros Hks Hl Hc.
  destruct ks as [|k ks]; [congruence|].
  destruct line as [|b line]; simpl in Hl; [contradiction|].
  destruct col as [|c col]; simpl in Hc; [contradiction|].
  destruct Hl as [Hb Hl]. destruct Hc as [Hcc Hc].
  destruct (leaf_product junk Hb Hcc) as (p & Ep & Sp & Dp & Vp).
  set (r0 := mk_ndarray (nd_shape p)
                        (if (kind (nd_dtype p) <? 1)%nat then int64 else nd_dtype p)
                        (nd_at p)).
  destruct (@sum_rest line col ks r0 Hl Hc Sp
              ltac:(simpl; rewrite Dp; now apply zero_plus_exact))
    as (r & Er & Sr & Dr & Vr).
  exists r. split.
  - cbn [sum_from]. rewrite Ep. cbn [bind zero_plus]. exact Er.
  - split; [exact Sr|]. split; [exact Dr|]. intros x y Hx Hy.
    rewrite Vr by assumption. simpl nd_at. rewrite Vp. unfold row_by_column.
    change (sum_nat (k :: ks)) with (k + sum_nat ks)%nat.
    rewrite big_sum_app. f_equal.
    + apply big_sum_ext. intros l Hl'. simpl.
      apply Nat.ltb_lt in Hl'. now rewrite Hl'.
    + apply big_sum_ext. intros l Hl'. simpl.
      destruct (Nat.ltb_spec (k + l) k); [lia|].
      now replace (k + l - k)%nat with l by lia.
Qed.
End SumOfProductsProof.

Lemma all3_nth (A B C : Type) (R : A -> B -> C -> Prop) (l1 : list A) :
  forall l2 l3 n z, all3 R l1 l2 l3 -> nth_error l3 n = Some z ->
                    exists x y, nth_error l1 n = Some x /\ nth_error l2 n = Some y /\
                                R x y z.
Proof.
  induction l1 as [|a l1 IH]; intros [|b l2] [|c l3] n z H Hn; simpl in H;
    try contradiction.
  - destruct n; discriminate.
  - destruct H as [Habc H]. destruct n as [|n]; simpl in *.
    + injection Hn as <-. eauto.
    + eapply IH; eauto.
Qed.

Lemma locate_spec (exts : list nat) :
  forall k, (k < sum_nat exts)%nat ->
            exists n k' e, locate exts k = Some (n, k') /\
                           nth_error exts n = Some e /\ (k' < e)%nat.
Proof.
  induction exts as [|e exts IH]; intros k Hk; simpl in Hk; [lia|].
  simpl. destruct (Nat.ltb_spec k e).
  - exists 0%nat, k, e. auto.
  - destruct (IH (k - e)%nat ltac:(lia)) as (n & k' & e' & -> & Hn & Hk').
    exists (S n), k', e'. auto.
Qed.

(** The block-columns of a grid that follows a partition follow it too. *)
Lemma fitted_columns (R : nat -> block -> nat -> Prop) (g : list (list block))
    (hs ws : list nat) :
  hs <> [] ->
  all2 (fun line h => all2 (R h) line ws) g hs ->
  all2 (fun col w => all2 (fun c h => R h c w) col hs) (moveaxis_1_0 g) ws /\
  length g = length hs /\
  Forall (fun line => length line = length ws) g /\
  length (hd [] g) = length ws.
Proof.
  intros Hh Hfit.
  pose proof (all2_length _ _ _ Hfit) as Lg.
  assert (Hll : Forall (fun line => length line = length ws) g).
  { apply Forall_forall. intros line Hl.
    destruct (all2_In _ _ _ _ Hfit Hl) as (h & _ & Hlfit).
    eapply all2_length; eauto. }
  assert (Lhd : length (hd [] g) = length ws).
  { destruct g as [|line0 g0]; [destruct hs; simpl in Lg; congruence|].
    rewrite Forall_forall in Hll. apply Hll. now left. }
  split; [|auto].
  apply all2_of_nth; [rewrite moveaxis_length; exact Lhd|].
  intros c col w Hcol Hw.
  apply all2_of_nth.
  { rewrite (@moveaxis_line_length g (length ws) col Hll Lhd
               (nth_error_In _ _ Hcol)). exact Lg. }
  intros r b h Hb Hh'.
  destruct (proj1 (@moveaxis_nth g (length ws) r c b Hll Lhd)) as (line & Hline & Hbl).
  { rewrite Hcol. exact Hb. }
  destruct (all2_nth _ _ _ _ Hfit Hline) as (h1 & Hh1 & Hlfit).
  destruct (all2_nth _ _ _ _ Hlfit Hbl) as (w1 & Hw1 & HR).
  congruence.
Qed.

Lemma leaf_grid (m : BlockMatrix) :
  valid_tree m -> leaves_only m ->
  all2 (fun line h => all2 (leaf_ok (dtype_of m) h) line (snd (block_shapes m)))
       (_stored_blocks m) (fst (block_shapes m)).
Proof.
  destruct m as [g nb bs s d]. unfold valid_tree, leaves_only, as_block, block_shapes.
  simpl. intros (_ & _ & _ & _ & Hfit) Hleaf.
  apply all2_of_nth; [eapply all2_length; eauto|].
  intros r line h Hline Hh.
  destruct (all2_nth _ _ _ _ Hfit Hline) as (h1 & Hh1 & Hlfit).
  assert (h1 = h) by congruence. subst h1.
  apply all2_of_nth; [eapply all2_length; eauto|].
  intros c b w Hb Hw.
  destruct (all2_nth _ _ _ _ Hlfit Hb) as (w1 & Hw1 & Hok).
  assert (w1 = w) by congruence. subst w1.
  split; [exact Hok|].
  eapply all_In; [|eapply nth_error_In; exact Hb].
  eapply all_In; [exact Hleaf|eapply nth_error_In; exact Hline].
Qed.

Section ProductLoops.
Variables (junk : nat -> nat -> Z) (d1 d2 : dtype) (ks : list nat).
Hypothesis ks_not_empty : ks <> [].
Hypothesis exact : (2 <= kind (result_type d1 d2))%nat.

Lemma product_line (h : nat) (line : list block) :
  all2 (leaf_ok d1 h) line ks ->
  forall cols ws,
    all2 (fun col w => all2 (fun c k => leaf_ok d2 k c w) col ks) cols ws ->
    exists nl,
      mapM (fun other_col => sum_from (block_matmul junk) None line other_col) cols
      = Return nl /\
      all2 (leaf_ok (result_type d1 d2) h) nl ws /\
      all3 (fun s col w => forall x y, (x < h)%nat -> (y < w)%nat ->
                                       entry s x y = row_by_column line col ks x y)
           nl cols ws.
Proof.
  intros Hl. induction cols as [|col cols IH]; intros [|w ws] Hc; simpl in Hc;
    try contradiction.
  - exists []. simpl. auto.
  - destruct Hc as [Hcol Hc].
    destruct (@sum_of_products junk d1 d2 h w exact line col ks ks_not_empty Hl Hcol)
      as (r & Er & Sr & Dr & Vr).
    destruct (IH ws Hc) as (nl & Enl & Hfit & Hrel).
    exists (Leaf r :: nl). cbn [mapM]. rewrite Er. cbn [bind]. rewrite Enl. cbn [bind].
    split; [reflexivity|]. split; [split; [|exact Hfit]|split; [exact Vr|exact Hrel]].
    split; [|exact I]. split; [exact Sr|]. split; [exact Dr|].
    simpl. now rewrite Sr.
Qed.

Lemma product_grid (cols : list (list block)) (ws : list nat) (g1 : list (list block)) :
  all2 (fun col w => all2 (fun c k => leaf_ok d2 k c w) col ks) cols ws ->
  forall hs,
    all2 (fun line h => all2 (leaf_ok d1 h) line ks) g1 hs ->
    exists new,
      mapM (fun own_line =>
              mapM (fun other_col => sum_from (block_matmul junk) None own_line other_col)
                   cols) g1
      = Return new /\
      all2 (fun nl h => all2 (leaf_ok (result_type d1 d2) h) nl ws) new hs /\
      all3 (fun nl line h =>
              all3 (fun s col w => forall x y, (x < h)%nat -> (y < w)%nat ->
                                               entry s x y = row_by_column line col ks x y)
                   nl cols ws)
           new g1 hs.
Proof.
  intros Hc. induction g1 as [|line g1 IH]; intros [|h hs] Hfit; simpl in Hfit;
    try contradiction.
  - exists []. simpl. auto.
  - destruct Hfit as [Hl Hfit].
    destruct (@product_line h line Hl cols ws Hc) as (nl & Enl & Hnl & Hrel).
    destruct (IH hs Hfit) as (new & Enew & Hnew & Hrels).
    exists (nl :: new). cbn [mapM]. rewrite Enl. cbn [bind]. rewrite Enew. cbn [bind].
    split; [reflexivity|]. split; split; assumption.
Qed.
End ProductLoops.

(** Without checks and without a partition handed in, a nested list that
    follows a partition and that [np.asarray] keeps yields the tree over
    that partition. *)
Lemma init_unchecked_fitted d (g : list (list block)) (hs ws : list nat) :
  hs <> [] -> ws <> [] ->
  all2 (fun line h => all2 (slot_ok d h) line ws) g hs ->
  np_asarray (nested_list g) = Return g ->
  BlockMatrix_init (nested_list g) None false
  = Return (mk_BlockMatrix g (length hs, length ws) (hs, ws)
                           (_compute_shape (hs, ws)) d).
Proof.
  intros Hh Hw Hfit Harr.
  destruct (@fitted_rectangular d ws Hw g hs Hh Hfit) as (Hr & H2 & L0).
  destruct (derived_shapes_2d Hr H2) as [Eh Ew].
  destruct (grid_first_rectangular Hr) as (b0 & line0 & rows & E).
  assert (Hb0 : slot_ok d (hd 0%nat hs) b0 (hd 0%nat ws)).
  { subst g. destruct hs as [|h0 hs]; [contradiction|]. destruct Hfit as [Hl _].
    destruct ws as [|w0 ws]; [contradiction|]. apply Hl. }
  destruct Hb0 as (Hs0 & Hd0 & Hv0).
  assert (Ews : map (extent 1) (hd [] g) = ws).
  { subst g. destruct hs as [|h0 hs]; [contradiction|]. destruct Hfit as [Hl _].
    exact (@fitted_widths d h0 (b0 :: line0) ws Hl). }
  unfold BlockMatrix_init. rewrite Harr. cbn [bind].
  rewrite Eh, Ew, (@fitted_heights d ws Hw g hs Hfit), Ews.
  assert (Hg0 : grid_first g = Return b0) by (subst g; reflexivity).
  rewrite Hg0. cbn [bind].
  rewrite (slot_2d_ndim (valid_slot_2d b0 Hv0)). cbn [Nat.eqb assert bind].
  rewrite Hd0, L0, (all2_length _ _ _ Hfit). reflexivity.
Qed.

(** Picking along a block-column is picking in the grid. *)
Lemma column_pick (g : list (list block)) (ks ws : list nat) (c j j' : nat)
    (col : list block) :
  length g = length ks ->
  Forall (fun line => length line = length ws) g ->
  length (hd [] g) = length ws ->
  nth_error (moveaxis_1_0 g) c = Some col ->
  locate ws j = Some (c, j') ->
  forall k, pick (fun b k' => entry b k' j') col ks k
            = pick (fun line k' => pick (fun b j'' => entry b k' j'') line ws j) g ks k.
Proof.
  intros Lg Hll Lhd Hcol Hj k.
  assert (Lcol : length col = length ks).
  { rewrite (@moveaxis_line_length g (length ws) col Hll Lhd (nth_error_In _ _ Hcol)).
    exact Lg. }
  rewrite !pick_locate by assumption.
  destruct (locate ks k) as [[l k']|]; [|reflexivity].
  destruct (nth_error g l) as [line|] eqn:El.
  - rewrite Forall_forall in Hll.
    rewrite pick_locate by (apply Hll; eapply nth_error_In; eauto).
    rewrite Hj.
    destruct (nth_error line c) as [b|] eqn:Eb.
    + assert (Hb : nth_error col l = Some b).
      { pose proof (proj2 (@moveaxis_nth g (length ws) l c b
                             ltac:(apply Forall_forall; exact Hll) Lhd)) as H.
        rewrite Hcol in H. apply H. eauto. }
      now rewrite Hb.
    + apply nth_error_None in Eb. apply locate_Some_lt in Hj.
      rewrite (Hll line (nth_error_In _ _ El)) in Eb. lia.
  - apply nth_error_None in El.
    assert (Hn : nth_error col l = None) by (apply nth_error_None; lia).
    now rewrite Hn.
Qed.

(** ** The array of the products *)

Lemma constant_In (l : list nat) (x y : nat) :
  constant l = true -> In x l -> In y l -> x = y.
Proof.
  destruct l as [|x0 r]; simpl; [tauto|]. intros H Hx Hy.
  assert (H0 : forall z, x0 = z \/ In z r -> z = x0).
  { intros z [<-|Hz]; [reflexivity|].
    symmetry. apply Nat.eqb_eq. exact (forallb_In _ _ _ H Hz). }
  rewrite (H0 x Hx), (H0 y Hy). reflexivity.
Qed.

(** Arrays of one shape and one element type are merged by [np.asarray]
    into a numeric array whose slots are the arrays themselves. *)
Lemma asarray_uniform (g : list (list block)) (sh : list nat) (d : dtype) :
  same_lengths g = true ->
  (forall b, In b (concat g) ->
             is_array b = true /\ seen_shape b = sh /\ block_dtype b = d) ->
  np_asarray (nested_list g) = Return g.
Proof.
  intros Hs Hall. unfold np_asarray. rewrite Hs. cbn [negb].
  destruct (concat g) as [|b0 others] eqn:E; [reflexivity|].
  destruct (Hall b0 (or_introl eq_refl)) as (A0 & S0 & D0).
  assert (Hsame : forallb (fun b => list_nat_eqb (seen_shape b) (seen_shape b0)) others
                  = true).
  { apply forallb_forall. intros b Hb. apply list_nat_eqb_eq.
    destruct (Hall b (or_intror Hb)) as (_ & -> & _). now rewrite S0. }
  assert (Harr : forallb is_array (b0 :: others) = true).
  { apply forallb_forall. intros b Hb. now destruct (Hall b Hb). }
  rewrite Hsame, Harr, D0.
  rewrite promoted_same
    by (apply all_of_In; intros b Hb; now destruct (Hall b (or_intror Hb)) as (_ & _ & ?)).
  rewrite cast_grid_same; [reflexivity|].
  apply all_of_In. intros line Hl. apply all_of_In. intros b Hb.
  assert (Hc : In b (concat g)) by (apply in_concat; eauto).
  rewrite E in Hc. now destruct (Hall b Hc) as (_ & _ & ?).
Qed.

(** A grid of arrays that follows a partition is kept by [np.asarray] when
    the heights are not all the same (an array of objects) or the widths
    are all the same (one numeric array, if the heights are the same
    too). *)
Lemma asarray_fitted_leaves (d : dtype) (g : list (list block)) (hs ws : list nat) :
  hs <> [] -> ws <> [] ->
  all2 (fun line h => all2 (leaf_ok d h) line ws) g hs ->
  constant hs = false \/ constant ws = true ->
  np_asarray (nested_list g) = Return g.
Proof.
  intros Hh Hw Hfit Hst.
  assert (Hfit' : all2 (fun line h => all2 (slot_ok d h) line ws) g hs).
  { revert Hfit. apply all2_impl. intros line h. apply all2_impl. intros b w [H _].
    exact H. }
  destruct (@fitted_rectangular d ws Hw g hs Hh Hfit') as (Hr & H2 & L0).
  assert (Hslot : forall b, In b (concat g) ->
             exists h w, In h hs /\ In w ws /\ leaf_ok d h b w).
  { intros b Hb. apply in_concat in Hb as (line & Hl & Hb).
    destruct (all2_In _ _ _ _ Hfit Hl) as (h & Hhin & Hlfit).
    destruct (all2_In _ _ _ _ Hlfit Hb) as (w & Hwin & Hok). eauto. }
  destruct (constant hs) eqn:Ch.
  - (* one height: the widths are the same too, and the arrays are merged *)
    destruct Hst as [Hst|Cw]; [discriminate|].
    destruct hs as [|h0 hs']; [congruence|]. destruct ws as [|w0 ws']; [congruence|].
    apply asarray_uniform with (sh := [h0; w0]) (d := d);
      [now apply rectangular_same_lengths|].
    intros b Hb. destruct (Hslot b Hb) as (h & w & Hhin & Hwin & (Sb & Db & _) & Lb).
    rewrite (constant_In _ _ _ Ch Hhin (or_introl eq_refl)) in Sb.
    rewrite (constant_In _ _ _ Cw Hwin (or_introl eq_refl)) in Sb.
    destruct b as [a|? ? ? ? ?]; [|contradiction]. simpl in *. auto.
  - (* two heights: an array of objects *)
    apply asarray_objects; [assumption|assumption|].
    destruct (one_height g) eqn:Hone; [|reflexivity]. exfalso.
    unfold one_height in Hone.
    destruct (rectangular_concat Hr) as (b0 & others & E). rewrite E in Hone.
    assert (Hext : forall h, In h hs -> h = extent 0 b0).
    { intros h Hhin. apply In_nth_error in Hhin as [n Hn].
      destruct (all2_nth_r _ _ _ _ Hfit Hn) as (line & Hline & Hlfit).
      destruct ws as [|w0 ws']; [congruence|].
      destruct line as [|b line']; simpl in Hlfit; [contradiction|].
      destruct Hlfit as [((Sb & _) & _) _].
      assert (Hb : In b (b0 :: others)).
      { rewrite <- E. apply in_concat. exists (b :: line').
        split; [eapply nth_error_In; eauto|now left]. }
      pose proof (forallb_In _ _ _ Hone Hb) as Hp. cbv beta in Hp.
      apply andb_true_iff in Hp as [_ Hp]. apply Nat.eqb_eq in Hp.
      rewrite <- Hp. unfold extent. now rewrite Sb. }
    assert (Ct : constant hs = true).
    { destruct hs as [|h0 hs']; [reflexivity|]. simpl.
      apply forallb_forall. intros h Hhin. apply Nat.eqb_eq.
      rewrite (Hext h0 (or_introl eq_refl)), (Hext h (or_intror Hhin)). reflexivity. }
    congruence.
Qed.

(** ** The product *)

Section ProductOfLeafTrees.
Variable junk : nat -> nat -> Z.

Lemma matmat_leaf_node g1 nb1 hs ks s1 d1 g2 nb2 ws s2 d2 :
  valid (Node g1 nb1 (hs, ks) s1 d1) -> valid (Node g2 nb2 (ks, ws) s2 d2) ->
  all (all is_leaf) g1 -> all (all is_leaf) g2 ->
  (2 <= kind (result_type d1 d2))%nat ->
  constant hs = false \/ constant ws = true ->
  exists new,
    matmat junk (mk_BlockMatrix g1 nb1 (hs, ks) s1 d1) (Node g2 nb2 (ks, ws) s2 d2)
    = Return (as_block (mk_BlockMatrix new (length hs, length ws) (hs, ws)
                                       (_compute_shape (hs, ws)) (result_type d1 d2))) /\
    valid_tree (mk_BlockMatrix new (length hs, length ws) (hs, ws)
                               (_compute_shape (hs, ws)) (result_type d1 d2)) /\
    forall i j, (i < sum_nat hs)%nat -> (j < sum_nat ws)%nat ->
      entry (Node new (length hs, length ws) (hs, ws) (_compute_shape (hs, ws))
                  (result_type d1 d2)) i j
      = big_sum (sum_nat ks)
                (fun k => entry (Node g1 nb1 (hs, ks) s1 d1) i k
                          * entry (Node g2 nb2 (ks, ws) s2 d2) k j).
Proof.
  intros Hv1 Hv2 Hl1 Hl2 Hexact Hst.
  pose proof (@leaf_grid (mk_BlockMatrix g1 nb1 (hs, ks) s1 d1) Hv1 Hl1) as F1.
  pose proof (@leaf_grid (mk_BlockMatrix g2 nb2 (ks, ws) s2 d2) Hv2 Hl2) as F2.
  unfold block_shapes in F1, F2. cbn [_stored_blocks _stored_block_shapes dtype_of fst snd]
    in F1, F2.
  apply valid_Node_unfold in Hv1 as (Hh & Hk & _ & _ & Hfit1).
  apply valid_Node_unfold in Hv2 as (_ & Hw & _ & _ & Hfit2).
  cbn [fst snd] in Hh, Hk, Hw, Hfit1, Hfit2.
  destruct (@fitted_columns (leaf_ok d2) g2 ks ws Hk F2) as (Hcols & Lg2 & Hll2 & Lhd2).
  destruct (@product_grid junk d1 d2 ks Hk Hexact (moveaxis_1_0 g2) ws g1 Hcols hs F1)
    as (new & Enew & Hnew & Hrels).
  pose proof (@asarray_fitted_leaves (result_type d1 d2) new hs ws Hh Hw Hnew Hst) as Harr.
  assert (Hnew' : all2 (fun line h => all2 (slot_ok (result_type d1 d2) h) line ws) new hs).
  { revert Hnew. apply all2_impl. intros line h. apply all2_impl. intros b w [H _].
    exact H. }
  exists new. split; [|split].
  - unfold matmat.
    change (block_matmul junk (as_block (mk_BlockMatrix g1 nb1 (hs, ks) s1 d1))
                         (Node g2 nb2 (ks, ws) s2 d2))
      with (if list_nat_eqb ks ks
            then r <- matmat_blocks (block_matmul junk) g1 g2 ;; Return (as_block r)
            else ReturnNone).
    rewrite list_nat_eqb_refl. unfold matmat_blocks. rewrite Enew. cbn [bind].
    rewrite (@init_unchecked_fitted (result_type d1 d2) new hs ws Hh Hw Hnew' Harr). reflexivity.
  - unfold valid_tree, as_block.
    cbn [_stored_blocks _stored_nb_blocks _stored_block_shapes shape dtype_of].
    apply valid_Node_unfold. cbn [fst snd]. auto.
  - intros i j Hi Hj.
    pose proof (all2_length _ _ _ Hnew') as Lnew.
    pose proof (fitted_line_lengths _ _ _ _ Hnew') as Hlln.
    pose proof (all2_length _ _ _ Hfit1) as Lg1.
    pose proof (fitted_line_lengths _ _ _ _ Hfit1) as Hll1.
    rewrite (@entry_node_locate new _ hs ws _ _ i j Lnew Hlln).
    destruct (@locate_spec hs i Hi) as (r & i' & h & Ei & Hr & Hi').
    destruct (@locate_spec ws j Hj) as (c & j' & w & Ej & Hc & Hj').
    rewrite Ei, Ej.
    destruct (@all3_nth _ _ _ _ new g1 hs r h Hrels Hr) as (nl & line & Hnl & Hline & Hrel).
    destruct (@all3_nth _ _ _ _ nl (moveaxis_1_0 g2) ws c w Hrel Hc) as (s & col & Hs & Hcol & Hent).
    rewrite Hnl, Hs, (Hent i' j' Hi' Hj'). unfold row_by_column.
    apply big_sum_ext. intros k Hk'. f_equal.
    + cbn [entry fst snd]. rewrite (@pick_locate _ _ g1 hs i Lg1), Ei, Hline. reflexivity.
    + cbn [entry fst snd]. now apply column_pick with (c := c).
Qed.
End ProductOfLeafTrees.

(** X13.  The product of two valid trees of leaves whose partitions are
    compatible (the column widths of the first are the row heights of the
    second), of real or complex element type, and such that the row heights
    of the first are not all the same or the column widths of the second
    are all the same (so that [np.asarray] keeps the grid of the products):
    [matmat] returns a valid tree over the row partition of the first and
    the column partition of the second, of the promoted element type, and
    flattening commutes with the product:
    [flatten(B1 @ B2) = flatten(B1) @ flatten(B2)], entry by entry, in exact
    arithmetic. *)
Theorem matmat_of_leaf_trees (junk : nat -> nat -> Z) (B1 B2 : BlockMatrix) :
  valid_tree B1 -> valid_tree B2 ->
  leaves_only B1 -> leaves_only B2 ->
  snd (block_shapes B1) = fst (block_shapes B2) ->
  (2 <= kind (result_type (dtype_of B1) (dtype_of B2)))%nat ->
  constant (fst (block_shapes B1)) = false \/ constant (snd (block_shapes B2)) = true ->
  exists P f1 f2 fP,
    matmat junk B1 (as_block B2) = Return (as_block P) /\
    valid_tree P /\
    block_shapes P = (fst (block_shapes B1), snd (block_shapes B2)) /\
    shape P = (fst (shape B1), snd (shape B2)) /\
    dtype_of P = result_type (dtype_of B1) (dtype_of B2) /\
    full_matrix junk B1 = Return f1 /\
    full_matrix junk B2 = Return f2 /\
    full_matrix junk P = Return fP /\
    nd_shape fP = [fst (shape B1); snd (shape B2)] /\
    forall i j, (i < fst (shape B1))%nat -> (j < snd (shape B2))%nat ->
                nd_at fP i j
                = big_sum (snd (shape B1)) (fun k => nd_at f1 i k * nd_at f2 k j).
Proof.
  intros Hv1 Hv2 Hl1 Hl2 Hcompat Hexact Hst.
  destruct B1 as [g1 nb1 [hs ks] s1 d1]. destruct B2 as [g2 nb2 [ks' ws] s2 d2].
  unfold block_shapes in *. cbn [_stored_block_shapes dtype_of fst snd] in *. subst ks'.
  destruct (@matmat_leaf_node junk g1 nb1 hs ks s1 d1 g2 nb2 ws s2 d2
              Hv1 Hv2 Hl1 Hl2 Hexact Hst) as (new & Emm & VP & Ent).
  set (P := mk_BlockMatrix new (length hs, length ws) (hs, ws)
                           (_compute_shape (hs, ws)) (result_type d1 d2)) in *.
  destruct (full_matrix_valid junk Hv1) as (f1 & Ef1 & Sf1 & _ & Vf1).
  destruct (full_matrix_valid junk Hv2) as (f2 & Ef2 & Sf2 & _ & Vf2).
  destruct (full_matrix_valid junk VP) as (fP & EfP & SfP & _ & VfP).
  assert (Es1 : s1 = _compute_shape (hs, ks)).
  { now apply valid_Node_unfold in Hv1 as (_ & _ & _ & Es1 & _). }
  assert (Es2 : s2 = _compute_shape (ks, ws)).
  { now apply valid_Node_unfold in Hv2 as (_ & _ & _ & Es2 & _). }
  subst s1 s2. cbn [shape _compute_shape fst snd] in *.
  exists P, f1, f2, fP.
  split; [exact Emm|]. split; [exact VP|]. split; [reflexivity|].
  split; [reflexivity|]. split; [reflexivity|].
  split; [exact Ef1|]. split; [exact Ef2|]. split; [exact EfP|].
  split; [exact SfP|].
  intros i j Hi Hj. rewrite (VfP i j Hi Hj).
  change (entry (as_block P) i j)
    with (entry (Node new (length hs, length ws) (hs, ws) (_compute_shape (hs, ws))
                      (result_type d1 d2)) i j).
  rewrite (Ent i j Hi Hj). apply big_sum_ext. intros k Hk.
  rewrite (Vf1 i k Hi Hk), (Vf2 k j Hk Hj). reflexivity.
Qed.

Lemma matmat_of_leaf_trees_witness :
  exists P f1 f2 fP,
    matmat SampleVectors.no_junk Samples.square (as_block Samples.square)
    = Return (as_block P) /\
    valid_tree P /\
    block_shapes P = (fst (block_shapes Samples.square), snd (block_shapes Samples.square)) /\
    shape P = (fst (shape Samples.square), snd (shape Samples.square)) /\
    dtype_of P = result_type (dtype_of Samples.square) (dtype_of Samples.square) /\
    full_matrix SampleVectors.no_junk Samples.square = Return f1 /\
    full_matrix SampleVectors.no_junk Samples.square = Return f2 /\
    full_matrix SampleVectors.no_junk P = Return fP /\
    nd_shape fP = [fst (shape Samples.square); snd (shape Samples.square)] /\
    forall i j, (i < fst (shape Samples.square))%nat ->
                (j < snd (shape Samples.square))%nat ->
                nd_at fP i j
                = big_sum (snd (shape Samples.square))
                          (fun k => nd_at f1 i k * nd_at f2 k j).
Proof.
  apply (@matmat_of_leaf_trees SampleVectors.no_junk Samples.square Samples.square).
  - prove_valid.
  - prove_valid.
  - prove_valid.
  - prove_valid.
  - reflexivity.
  - simpl. lia.
  - left. reflexivity.
Defined.

(** Trees stored from nested lists always meet the condition on the
    partitions: a grid of arrays of one height is only kept by
    [np.asarray] when the arrays have one width as well. *)
Lemma from_lists_partition (m : BlockMatrix) :
  valid_tree m -> leaves_only m -> from_lists (as_block m) ->
  constant (fst (block_shapes m)) = false \/ constant (snd (block_shapes m)) = true.
Proof.
  intros Hv Hl Hfl. pose proof (leaf_grid Hv Hl) as F.
  destruct m as [g nb [hs ws] s d]. unfold block_shapes in *.
  cbn [_stored_blocks _stored_block_shapes dtype_of fst snd as_block] in *.
  apply valid_Node_unfold in Hv as (Hh & Hw & _ & _ & Hfit). cbn [fst snd] in *.
  destruct (constant hs) eqn:Ch; [|now left]. right.
  destruct (constant ws) eqn:Cw; [reflexivity|]. exfalso.
  destruct (@fitted_rectangular d ws Hw g hs Hh Hfit) as (Hr & H2 & L0).
  (* two columns of different widths *)
  destruct ws as [|w0 ws']; [discriminate Cw|]. simpl in Cw.
  destruct (forallb_false_witness _ _ Cw) as (w & Hwin & Hne).
  apply Nat.eqb_neq in Hne. apply In_nth_error in Hwin as [c Hc].
  destruct hs as [|h0 hs']; [now apply Hh|].
  destruct g as [|line0 g']; simpl in F; [contradiction|]. destruct F as [F0 _].
  destruct line0 as [|b0 line0']; simpl in F0; [contradiction|].
  destruct F0 as [((S0 & _ & _) & A0) F0'].
  destruct (all2_nth_r _ _ _ _ F0' Hc) as (b & Hb & ((Sb & _ & _) & Ab)).
  assert (Hin0 : In b0 (concat ((b0 :: line0') :: g'))) by (simpl; now left).
  assert (Hin : In b (concat ((b0 :: line0') :: g'))).
  { simpl. right. apply in_or_app. left. eapply nth_error_In; eauto. }
  assert (Hdis : block_shape b0 <> block_shape b) by (rewrite S0, Sb; congruence).
  assert (Harr : np_asarray (nested_list ((b0 :: line0') :: g'))
                 = Return ((b0 :: line0') :: g')) by exact (proj1 Hfl).
  rewrite (@asarray_disagree _ Hr H2
             (ex_intro _ b0 (ex_intro _ b (conj Hin0 (conj Hin Hdis))))) in Harr.
  assert (Hone : one_height ((b0 :: line0') :: g') = true).
  { unfold one_height. destruct (rectangular_concat Hr) as (x0 & others & E).
    rewrite E. apply forallb_forall. intros x Hx. rewrite <- E in Hx.
    assert (Hslot : forall y, In y (concat ((b0 :: line0') :: g')) ->
                              is_array y = true /\ extent 0 y = h0).
    { intros y Hy. apply in_concat in Hy as (line & Hline & Hy).
      destruct (all2_In _ _ _ _ Hfit Hline) as (h & Hhin & Hlfit).
      destruct (all2_In _ _ _ _ Hlfit Hy) as (w' & _ & (Sy & _ & Vy)).
      pose proof (all_In _ _ y (all_In _ _ line Hl Hline) Hy) as Ly.
      rewrite (constant_In _ _ _ Ch Hhin (or_introl eq_refl)) in Sy.
      split; [destruct y; [reflexivity|contradiction]|].
      unfold extent. now rewrite Sy. }
    destruct (Hslot x Hx) as [-> ->].
    destruct (Hslot x0 ltac:(rewrite E; now left)) as [_ ->].
    now rewrite Nat.eqb_refl. }
  rewrite Hone in Harr. discriminate.
Qed.

(** Why the condition on the partitions.  [single] has one row height and
    [one_row] two column widths: the two products are arrays of one height
    and different widths, [np.asarray] refuses the nested list that holds
    them, and [matmat] raises. *)
Lemma matmat_one_height_raises (junk : nat -> nat -> Z) :
  valid_tree Samples.single /\ valid_tree Samples.one_row /\
  snd (block_shapes Samples.single) = fst (block_shapes Samples.one_row) /\
  constant (fst (block_shapes Samples.single)) = true /\
  constant (snd (block_shapes Samples.one_row)) = false /\
  matmat junk Samples.single (as_block Samples.one_row) = Raise ValueError.
Proof.
  split; [prove_valid|]. split; [prove_valid|]. split; [reflexivity|].
  split; [reflexivity|]. split; [reflexivity|]. run.
Qed.
